(** * The authorship ledger of Poets Codex

    A shallow embedding of the ledger code of the server:
    - [server/src/models/LedgerEntry.js]      (the Mongoose model and its hooks),
    - [server/src/services/LedgerService.js]  (hash chaining, verification,
      certificates),
    - [server/src/services/FileBasedLedger.js] (the JSON-lines ledger),
    - [server/src/services/FileLedger.js],
    - [server/src/models/Poem.js]             (the required paths and the
      save hook), and the creation handler of
      [server/src/routes/poemRoutes.js].

    JavaScript strings are modelled as byte strings (their UTF-8 text), [null]
    and [undefined] by [option], exceptions by the [result] type, and the
    asynchronous calls by their sequential meaning. *)

From Stdlib Require Import ZArith List String Ascii Bool Lia Sorted Permutation.
From stdpp Require Import base tactics option list.
Import ListNotations.

Local Open Scope string_scope.
Local Open Scope list_scope.
Local Open Scope Z_scope.

(** String concatenation, as in a template literal. *)
Infix "+++" := String.append (at level 60, right associativity).

(* ===================================================================== *)
(** ** Exceptions *)

(** The errors the modelled code raises or meets. *)
Inductive error : Type :=
| ERR_INVALID_ARG_TYPE            (* Node: Hash.update on a non string/buffer *)
| IMMUTABLE_LEDGER (msg : string) (* error.code of the model's hooks *)
| ValidationError (path : string) (* Mongoose: a required path is missing *)
| DuplicateKey (index : string)   (* MongoDB E11000 on a unique index *)
| StoreUnavailable                (* the database cannot be reached *)
| SyntaxError                     (* JSON.parse *)
| IOError                         (* fs.* failure *)
| TypeError (msg : string)        (* a property of undefined, a call of a non-function *)
| Error (msg : string).           (* new Error(msg) *)

Inductive result (A : Type) : Type :=
| Ok (a : A)
| Throw (e : error).
Arguments Ok {A} a.
Arguments Throw {A} e.

Definition bind {A B : Type} (r : result A) (k : A -> result B) : result B :=
  match r with
  | Ok a => k a
  | Throw e => Throw e
  end.

Notation "'let*' x ':=' r 'in' k" := (bind r (fun x => k))
  (at level 10, x name, r at level 100, k at level 200).

Definition is_ok {A : Type} (r : result A) : bool :=
  match r with Ok _ => true | Throw _ => false end.

(* ===================================================================== *)
(** ** Node's [crypto]: SHA-256, HMAC-SHA-256 and hex digests

    The ledger calls [crypto.createHash('sha256')] and
    [crypto.createHmac('sha256', key)].  The service below is written
    against an arbitrary pair of digest functions; this module gives the
    real ones (FIPS 180-4, RFC 2104), used where a concrete run is wanted. *)

Module Crypto.

Definition w32 (x : Z) : Z := x mod 2 ^ 32.

Definition rotr (n x : Z) : Z :=
  Z.lor (Z.shiftr x n) (w32 (Z.shiftl x (32 - n))).

Definition ch (x y z : Z) : Z :=
  Z.lxor (Z.land x y) (Z.land (w32 (Z.lnot x)) z).
Definition maj (x y z : Z) : Z :=
  Z.lxor (Z.lxor (Z.land x y) (Z.land x z)) (Z.land y z).
Definition bsig0 (x : Z) : Z := Z.lxor (Z.lxor (rotr 2 x) (rotr 13 x)) (rotr 22 x).
Definition bsig1 (x : Z) : Z := Z.lxor (Z.lxor (rotr 6 x) (rotr 11 x)) (rotr 25 x).
Definition ssig0 (x : Z) : Z := Z.lxor (Z.lxor (rotr 7 x) (rotr 18 x)) (Z.shiftr x 3).
Definition ssig1 (x : Z) : Z := Z.lxor (Z.lxor (rotr 17 x) (rotr 19 x)) (Z.shiftr x 10).

(** The constants are the fractional parts of the square and cube roots of
    the first primes; they are computed rather than tabulated. *)
Fixpoint primes_from (fuel : nat) (n : Z) (found : list Z) (want : nat) : list Z :=
  match fuel, want with
  | O, _ | _, O => rev found
  | S fuel', S want' =>
      if forallb (fun p => negb (n mod p =? 0)) found
      then primes_from fuel' (n + 1) (n :: found) want'
      else primes_from fuel' (n + 1) found want
  end.

Definition first_primes (k : nat) : list Z := primes_from 400 2 [] k.

(** Integer cube root by bisection on the bits, from bit [b] downwards. *)
Fixpoint icbrt_bits (b : nat) (n acc : Z) : Z :=
  match b with
  | O => acc
  | S b' =>
      let c := acc + 2 ^ Z.of_nat b' in
      icbrt_bits b' n (if c * c * c <=? n then c else acc)
  end.

Definition icbrt (n : Z) : Z := icbrt_bits 48 n 0.

Definition K : list Z :=
  Eval vm_compute in map (fun p => w32 (icbrt (p * 2 ^ 96))) (first_primes 64).

Definition H0 : list Z :=
  Eval vm_compute in map (fun p => w32 (Z.sqrt (p * 2 ^ 64))) (first_primes 8).

(** Big-endian bytes of a word and back. *)
Definition be_bytes (n : nat) (x : Z) : list Z :=
  map (fun i => Z.shiftr x (8 * Z.of_nat i) mod 256) (rev (seq 0 n)).

Definition be_word (bs : list Z) : Z :=
  fold_left (fun acc b => acc * 256 + b) bs 0.

Definition pad (msg : list Z) : list Z :=
  let len := Z.of_nat (length msg) in
  let zeros := Z.to_nat ((55 - len) mod 64) in
  msg ++ [128] ++ repeat 0 zeros ++ be_bytes 8 (8 * len).

Fixpoint chunks (fuel n : nat) (l : list Z) : list (list Z) :=
  match fuel with
  | O => []
  | S fuel' =>
      match l with
      | [] => []
      | _ => firstn n l :: chunks fuel' n (skipn n l)
      end
  end.

(** The message schedule, most recent word first. *)
Fixpoint schedule (k : nat) (w : list Z) : list Z :=
  match k with
  | O => w
  | S k' =>
      let x := w32 (ssig1 (nth 1 w 0) + nth 6 w 0 + ssig0 (nth 14 w 0) + nth 15 w 0) in
      schedule k' (x :: w)
  end.

Record regs := Regs { ra : Z; rb : Z; rc : Z; rd : Z; re : Z; rf : Z; rg : Z; rh : Z }.

Definition round (s : regs) (kw : Z * Z) : regs :=
  let '(k, w) := kw in
  let t1 := rh s + bsig1 (re s) + ch (re s) (rf s) (rg s) + k + w in
  let t2 := bsig0 (ra s) + maj (ra s) (rb s) (rc s) in
  Regs (w32 (t1 + t2)) (ra s) (rb s) (rc s) (w32 (rd s + t1)) (re s) (rf s) (rg s).

Definition regs_of (h : list Z) : regs :=
  Regs (nth 0 h 0) (nth 1 h 0) (nth 2 h 0) (nth 3 h 0)
       (nth 4 h 0) (nth 5 h 0) (nth 6 h 0) (nth 7 h 0).

Definition list_of (s : regs) : list Z :=
  [ra s; rb s; rc s; rd s; re s; rf s; rg s; rh s].

Definition compress (h : list Z) (block : list Z) : list Z :=
  let w16 := map be_word (chunks 16 4 block) in
  let w := rev (schedule 48 (rev w16)) in
  let s := fold_left round (combine K w) (regs_of h) in
  map (fun p => w32 (fst p + snd p)) (combine h (list_of s)).

Definition sha256_bytes (msg : list Z) : list Z :=
  let p := pad msg in
  let h := fold_left compress (chunks (length p) 64 p) H0 in
  flat_map (be_bytes 4) h.

Definition hmac_sha256_bytes (key msg : list Z) : list Z :=
  let k0 := if (64 <? Z.of_nat (length key)) then sha256_bytes key else key in
  let k := k0 ++ repeat 0 (64 - length k0) in
  let ipad := map (fun b => Z.lxor b 54) k in
  let opad := map (fun b => Z.lxor b 92) k in
  sha256_bytes (opad ++ sha256_bytes (ipad ++ msg)).

Definition bytes_of_string (s : string) : list Z :=
  map (fun c => Z.of_nat (nat_of_ascii c)) (list_ascii_of_string s).

Definition hex_digit (d : Z) : ascii :=
  ascii_of_nat (Z.to_nat (if d <? 10 then 48 + d else 87 + d)).

Definition hex (bs : list Z) : string :=
  string_of_list_ascii (flat_map (fun b => [hex_digit (b / 16); hex_digit (b mod 16)]) bs).

(** [crypto.createHash('sha256').update(s).digest('hex')] *)
Definition sha256_hex (s : string) : string :=
  hex (sha256_bytes (bytes_of_string s)).

(** [crypto.createHmac('sha256', key).update(s).digest('hex')] *)
Definition hmac_sha256_hex (key s : string) : string :=
  hex (hmac_sha256_bytes (bytes_of_string key) (bytes_of_string s)).

End Crypto.

(* ===================================================================== *)
(** ** The JavaScript platform: dates, string helpers and JSON

    Strings are byte strings.  A [Date] is its number of milliseconds since
    the epoch.  JSON values are trees; an object keeps its keys in insertion
    order, as [JSON.stringify] prints them. *)

Module JS.

Definition code (c : ascii) : Z := Z.of_nat (nat_of_ascii c).
Definition chr (n : Z) : ascii := ascii_of_nat (Z.to_nat n).

Definition digit (d : Z) : string := String (chr (48 + d)) "".

Fixpoint decimal_fuel (fuel : nat) (n : Z) (acc : string) : string :=
  match fuel with
  | O => acc
  | S fuel' =>
      let acc' := digit (n mod 10) +++ acc in
      if n <? 10 then acc' else decimal_fuel fuel' (n / 10) acc'
  end.

(** [String(n)] for an integer [n]. *)
Definition decimal (n : Z) : string :=
  if n <? 0
  then "-" +++ decimal_fuel (S (Z.to_nat (Z.log2 (- n)))) (- n) ""
  else decimal_fuel (S (Z.to_nat (Z.log2 n))) n "".

(** Zero-padded field of [w] digits for [0 <= n]. *)
Fixpoint padded (w : nat) (n : Z) : string :=
  match w with
  | O => ""
  | S w' => padded w' (n / 10) +++ digit (n mod 10)
  end.

(** Proleptic Gregorian date of a day number (days since 1970-01-01). *)
Definition civil (days : Z) : Z * Z * Z :=
  let z := days + 719468 in
  let era := z / 146097 in
  let doe := z - era * 146097 in
  let yoe := (doe - doe / 1460 + doe / 36524 - doe / 146096) / 365 in
  let doy := doe - (365 * yoe + yoe / 4 - yoe / 100) in
  let mp := (5 * doy + 2) / 153 in
  let d := doy - (153 * mp + 2) / 5 + 1 in
  let m := if mp <? 10 then mp + 3 else mp - 9 in
  let y := yoe + era * 400 + (if m <=? 2 then 1 else 0) in
  (y, m, d).

(** [Date.prototype.toISOString] of the date [ms] milliseconds after the
    epoch: [YYYY-MM-DDTHH:mm:ss.sssZ], with the signed six-digit year
    outside 0..9999.  [ms] is a time value, as every reading of the clock
    is: at most 8.64e15 in absolute value. *)
Definition toISOString (ms : Z) : string :=
  let days := ms / 86400000 in
  let rest := ms mod 86400000 in
  let '(y, m, d) := civil days in
  let year :=
    if (0 <=? y) && (y <=? 9999) then padded 4 y
    else if y <? 0 then "-" +++ padded 6 (- y)
    else "+" +++ padded 6 y in
  year +++ "-" +++ padded 2 m +++ "-" +++ padded 2 d +++ "T"
    +++ padded 2 (rest / 3600000) +++ ":"
    +++ padded 2 (rest / 60000 mod 60) +++ ":"
    +++ padded 2 (rest / 1000 mod 60) +++ "."
    +++ padded 3 (rest mod 1000) +++ "Z".

(** [new Date(ms).getFullYear()], in a process whose time zone is UTC. *)
Definition getFullYear (ms : Z) : Z :=
  let '(y, _, _) := civil (ms / 86400000) in y.

(** *** [String.prototype.trim] and [split('\n')] *)

Definition nl : ascii := chr 10.

(** The white space and line terminators of ECMAScript, as UTF-8. *)
Definition white_space : list (list Z) :=
  [ [9]; [10]; [11]; [12]; [13]; [32];
    [194; 160]; [225; 154; 128];
    [226; 128; 128]; [226; 128; 129]; [226; 128; 130]; [226; 128; 131];
    [226; 128; 132]; [226; 128; 133]; [226; 128; 134]; [226; 128; 135];
    [226; 128; 136]; [226; 128; 137]; [226; 128; 138];
    [226; 128; 168]; [226; 128; 169]; [226; 128; 175];
    [226; 129; 159]; [227; 128; 128]; [239; 187; 191] ].

Fixpoint strip_prefix (p : list Z) (s : list ascii) : option (list ascii) :=
  match p, s with
  | [], _ => Some s
  | b :: p', c :: s' => if code c =? b then strip_prefix p' s' else None
  | _ :: _, [] => None
  end.

Fixpoint first_strip (ps : list (list Z)) (s : list ascii) : option (list ascii) :=
  match ps with
  | [] => None
  | p :: ps' =>
      match strip_prefix p s with
      | Some r => Some r
      | None => first_strip ps' s
      end
  end.

Fixpoint trim_start_fuel (fuel : nat) (ps : list (list Z)) (s : list ascii) : list ascii :=
  match fuel with
  | O => s
  | S fuel' =>
      match first_strip ps s with
      | Some r => trim_start_fuel fuel' ps r
      | None => s
      end
  end.

Definition trim_start (ps : list (list Z)) (s : list ascii) : list ascii :=
  trim_start_fuel (length s) ps s.

Definition trim (s : string) : string :=
  let front := trim_start white_space (list_ascii_of_string s) in
  let back := trim_start (map (@rev Z) white_space) (rev front) in
  string_of_list_ascii (rev back).

(** [s.split('\n')]: the pieces between line feeds; never an empty list. *)
Fixpoint split_nl (s : string) : list string :=
  match s with
  | EmptyString => [""]
  | String c r =>
      if Ascii.eqb c nl then "" :: split_nl r
      else match split_nl r with
           | [] => [String c ""]
           | l :: ls => String c l :: ls
           end
  end.

(** JavaScript truthiness of a string. *)
Definition truthy (s : string) : bool := negb (String.eqb s "").

End JS.

(** *** JSON *)

#[local] Set Warnings "-register-all".

Inductive json : Type :=
| JNull
| JBool (b : bool)
| JNum (n : Z)              (* an integer; the JavaScript number when |n| < 2^53 *)
| JReal (lexeme : string)   (* a number with a fraction or an exponent, kept as written *)
| JStr (s : string)
| JArr (items : list json)
| JObj (fields : list (string * json)).

Module JSON.

Import JS.

(** [obj[k] = v] on an object's own enumerable string keys: an existing key
    keeps its place, a new key goes last. *)
Fixpoint set (k : string) (v : json) (fields : list (string * json)) : list (string * json) :=
  match fields with
  | [] => [(k, v)]
  | (k', v') :: rest =>
      if String.eqb k k' then (k, v) :: rest else (k', v') :: set k v rest
  end.

Fixpoint get (k : string) (fields : list (string * json)) : option json :=
  match fields with
  | [] => None
  | (k', v) :: rest => if String.eqb k k' then Some v else get k rest
  end.

Definition quote_char : ascii := chr 34.
Definition backslash : ascii := chr 92.

Definition hex4 (n : Z) : string :=
  string_of_list_ascii
    (map Crypto.hex_digit [n / 4096 mod 16; n / 256 mod 16; n / 16 mod 16; n mod 16]).

Definition escape (c : ascii) : string :=
  let n := code c in
  if n =? 34 then String backslash (String quote_char "")
  else if n =? 92 then String backslash (String backslash "")
  else if n =? 8 then String backslash "b"
  else if n =? 12 then String backslash "f"
  else if n =? 10 then String backslash "n"
  else if n =? 13 then String backslash "r"
  else if n =? 9 then String backslash "t"
  else if n <? 32 then String backslash ("u" +++ hex4 n)
  else String c "".

Fixpoint escape_all (s : string) : string :=
  match s with
  | EmptyString => ""
  | String c r => escape c +++ escape_all r
  end.

Definition quote (s : string) : string :=
  String quote_char (escape_all s +++ String quote_char "").

Fixpoint stringify (v : json) : string :=
  match v with
  | JNull => "null"
  | JBool true => "true"
  | JBool false => "false"
  | JNum n => decimal n
  | JReal lexeme => lexeme
  | JStr s => quote s
  | JArr items =>
      "[" +++
      (fix go (l : list json) : string :=
         match l with
         | [] => ""
         | x :: r =>
             match r with
             | [] => stringify x
             | _ :: _ => stringify x +++ "," +++ go r
             end
         end) items +++ "]"
  | JObj fields =>
      "{" +++
      (fix go (l : list (string * json)) : string :=
         match l with
         | [] => ""
         | (k, x) :: r =>
             match r with
             | [] => quote k +++ ":" +++ stringify x
             | _ :: _ => quote k +++ ":" +++ stringify x +++ "," +++ go r
             end
         end) fields +++ "}"
  end.

(** **** [JSON.parse] by recursive descent *)

Definition is_ws (c : ascii) : bool :=
  let n := code c in (n =? 32) || (n =? 9) || (n =? 10) || (n =? 13).

Definition is_digit (c : ascii) : bool :=
  let n := code c in (48 <=? n) && (n <=? 57).

Fixpoint skip_ws (s : string) : string :=
  match s with
  | String c r => if is_ws c then skip_ws r else s
  | EmptyString => s
  end.

Fixpoint expect (lit : string) (s : string) : option string :=
  match lit, s with
  | EmptyString, _ => Some s
  | String a lit', String c r => if Ascii.eqb a c then expect lit' r else None
  | String _ _, EmptyString => None
  end.

Definition hex_value (c : ascii) : option Z :=
  let n := code c in
  if (48 <=? n) && (n <=? 57) then Some (n - 48)
  else if (97 <=? n) && (n <=? 102) then Some (n - 87)
  else if (65 <=? n) && (n <=? 70) then Some (n - 55)
  else None.

(** UTF-8 of a code unit of the basic plane. *)
Definition utf8 (u : Z) : string :=
  if u <? 128 then String (chr u) ""
  else if u <? 2048 then String (chr (192 + u / 64)) (String (chr (128 + u mod 64)) "")
  else String (chr (224 + u / 4096))
         (String (chr (128 + u / 64 mod 64)) (String (chr (128 + u mod 64)) "")).

Definition unescape (c : ascii) : option string :=
  let n := code c in
  if (n =? 34) || (n =? 92) || (n =? 47) then Some (String c "")
  else if n =? 98 then Some (String (chr 8) "")
  else if n =? 102 then Some (String (chr 12) "")
  else if n =? 110 then Some (String (chr 10) "")
  else if n =? 114 then Some (String (chr 13) "")
  else if n =? 116 then Some (String (chr 9) "")
  else None.

(** The characters of a string literal after its opening quote. *)
Fixpoint string_body (s : string) : option (string * string) :=
  match s with
  | EmptyString => None
  | String c r =>
      if code c =? 34 then Some ("", r)
      else if code c <? 32 then None
      else if code c =? 92 then
        match r with
        | String e r' =>
            if code e =? 117 then
              match r' with
              | String h1 (String h2 (String h3 (String h4 r''))) =>
                  match hex_value h1, hex_value h2, hex_value h3, hex_value h4 with
                  | Some a, Some b, Some c', Some d =>
                      match string_body r'' with
                      | Some (body, rest) =>
                          Some (utf8 (a * 4096 + b * 256 + c' * 16 + d) +++ body, rest)
                      | None => None
                      end
                  | _, _, _, _ => None
                  end
              | _ => None
              end
            else
              match unescape e, string_body r' with
              | Some u, Some (body, rest) => Some (u +++ body, rest)
              | _, _ => None
              end
        | EmptyString => None
        end
      else
        match string_body r with
        | Some (body, rest) => Some (String c body, rest)
        | None => None
        end
  end.

Fixpoint digits (s : string) : string * string :=
  match s with
  | String c r =>
      if is_digit c then let '(ds, rest) := digits r in (String c ds, rest)
      else ("", s)
  | EmptyString => ("", s)
  end.

Fixpoint digits_value (ds : string) (acc : Z) : Z :=
  match ds with
  | String c r => digits_value r (acc * 10 + (code c - 48))
  | EmptyString => acc
  end.

(** A JSON number: an optional minus sign, an integer part without leading
    zero, an optional fraction and an optional exponent. *)
Definition number (s : string) : option (json * string) :=
  let '(sign, s1) :=
    match s with
    | String c r => if code c =? 45 then ("-", r) else ("", s)
    | EmptyString => ("", s)
    end in
  let '(int, s2) := digits s1 in
  match int with
  | EmptyString => None
  | String d more =>
      if (code d =? 48) && negb (String.eqb more "") then None
      else
        let frac :=
          match s2 with
          | String c r =>
              if code c =? 46 then
                let '(fs, r') := digits r in
                if String.eqb fs "" then None else Some ("." +++ fs, r')
              else Some ("", s2)
          | EmptyString => Some ("", s2)
          end in
        match frac with
        | None => None
        | Some (f, s3) =>
            let expo :=
              match s3 with
              | String c r =>
                  if (code c =? 101) || (code c =? 69) then
                    let '(sg, r1) :=
                      match r with
                      | String p r0 =>
                          if (code p =? 43) || (code p =? 45) then (String p "", r0) else ("", r)
                      | EmptyString => ("", r)
                      end in
                    let '(es, r2) := digits r1 in
                    if String.eqb es "" then None else Some (String c (sg +++ es), r2)
                  else Some ("", s3)
              | EmptyString => Some ("", s3)
              end in
            match expo with
            | None => None
            | Some (e, s4) =>
                if String.eqb f "" && String.eqb e ""
                then Some (JNum (if String.eqb sign "" then digits_value int 0
                                 else - digits_value int 0), s4)
                else Some (JReal (sign +++ int +++ f +++ e), s4)
            end
        end
  end.

Fixpoint value (fuel : nat) (s : string) : option (json * string) :=
  match fuel with
  | O => None
  | S fuel' =>
      match skip_ws s with
      | EmptyString => None
      | String c r =>
          let n := code c in
          if n =? 123 then
            match skip_ws r with
            | String c' r' =>
                if code c' =? 125 then Some (JObj [], r') else members fuel' (skip_ws r) []
            | EmptyString => None
            end
          else if n =? 91 then
            match skip_ws r with
            | String c' r' =>
                if code c' =? 93 then Some (JArr [], r') else elements fuel' (skip_ws r) []
            | EmptyString => None
            end
          else if n =? 34 then
            match string_body r with
            | Some (str, rest) => Some (JStr str, rest)
            | None => None
            end
          else if n =? 116 then option_map (pair (JBool true)) (expect "true" (String c r))
          else if n =? 102 then option_map (pair (JBool false)) (expect "false" (String c r))
          else if n =? 110 then option_map (pair JNull) (expect "null" (String c r))
          else number (String c r)
      end
  end
with elements (fuel : nat) (s : string) (acc : list json) : option (json * string) :=
  match fuel with
  | O => None
  | S fuel' =>
      match value fuel' s with
      | Some (v, rest) =>
          match skip_ws rest with
          | String c r =>
              if code c =? 44 then elements fuel' r (acc ++ [v])
              else if code c =? 93 then Some (JArr (acc ++ [v]), r)
              else None
          | EmptyString => None
          end
      | None => None
      end
  end
with members (fuel : nat) (s : string) (acc : list (string * json)) : option (json * string) :=
  match fuel with
  | O => None
  | S fuel' =>
      match skip_ws s with
      | String q r =>
          if code q =? 34 then
            match string_body r with
            | Some (k, rest) =>
                match skip_ws rest with
                | String colon r1 =>
                    if code colon =? 58 then
                      match value fuel' r1 with
                      | Some (v, rest') =>
                          match skip_ws rest' with
                          | String c r2 =>
                              if code c =? 44 then members fuel' r2 (set k v acc)
                              else if code c =? 125 then Some (JObj (set k v acc), r2)
                              else None
                          | EmptyString => None
                          end
                      | None => None
                      end
                    else None
                | EmptyString => None
                end
            | None => None
            end
          else None
      | EmptyString => None
      end
  end.

(** [JSON.parse(text)]: one value, white space around it, nothing else. *)
Definition parse (text : string) : result json :=
  match value (2 * String.length text + 2) text with
  | Some (v, rest) =>
      match skip_ws rest with
      | EmptyString => Ok v
      | String _ _ => Throw SyntaxError
      end
  | None => Throw SyntaxError
  end.

End JSON.

(** A string between double quotes, as JSON prints it. *)
Definition q (s : string) : string := JSON.quote s.

(* ===================================================================== *)
(** ** [models/LedgerEntry.js]: the schema and the collection *)

Inductive EventType : Type :=
| POEM_CREATED | POEM_UPDATED | POEM_DELETED | POEM_TRANSFERRED.

(** The [metadata] sub-document, with the paths the service writes
    ([ipAddress] and [userAgent] are never set). *)
Record Metadata : Type := mkMetadata {
  title : string;
  originalTimestamp : Z;
  license : string;
  wordCount : Z;
  previousVersion : option string
}.

Record WitnessNode : Type := mkWitnessNode {
  nodeId : string;
  witnessSignature : string;
  witnessTimestamp : Z
}.

(** A ledger entry.  The [required] paths are plain fields, [previousHash]
    is nullable, [createdAt] is absent until the first save.  Object ids are
    modelled by their hexadecimal strings. *)
Record LedgerEntry : Type := mkLedgerEntry {
  eventType : EventType;
  poemId : string;
  authorId : string;
  contentHash : string;
  previousHash : option string;
  blockHash : string;
  metadata : Metadata;
  signature : string;
  witnessNodes : list WitnessNode;
  isVerified : bool;
  createdAt : option Z
}.

(** A Mongoose document: its data and the [isNew] flag. *)
Record Document : Type := mkDocument {
  entry : LedgerEntry;
  isNew : bool
}.

(** The collection, in insertion order, and whether the database answers. *)
Record Store : Type := mkStore {
  collection : list LedgerEntry;
  available : bool
}.

Definition with_collection (st : Store) (c : list LedgerEntry) : Store :=
  mkStore c (available st).

(** *** Computations on the store that may throw *)

Definition M (A : Type) : Type := Store -> result A * Store.

Definition ret {A : Type} (a : A) : M A := fun st => (Ok a, st).
Definition throw {A : Type} (e : error) : M A := fun st => (Throw e, st).
Definition lift {A : Type} (r : result A) : M A := fun st => (r, st).

Definition bindM {A B : Type} (m : M A) (k : A -> M B) : M B :=
  fun st =>
    match m st with
    | (Ok a, st') => k a st'
    | (Throw e, st') => (Throw e, st')
    end.

Notation "'do*' x ':=' m 'in' k" := (bindM m (fun x => k))
  (at level 10, x name, m at level 100, k at level 200).

(** [try { body } catch (e) { handler(e) }] *)
Definition try_catch {A : Type} (body : M A) (handler : error -> M A) : M A :=
  fun st =>
    match body st with
    | (Ok a, st') => (Ok a, st')
    | (Throw e, st') => handler e st'
    end.

(** *** Hooks *)

(** [ledgerEntrySchema.pre('save', ...)] *)
Definition pre_save (d : Document) : result unit :=
  if negb (isNew d)
  then Throw (IMMUTABLE_LEDGER "Ledger entries are immutable and cannot be modified")
  else Ok tt.

(** [ledgerEntrySchema.pre('remove', ...)] *)
Definition pre_remove (d : Document) : result unit :=
  Throw (IMMUTABLE_LEDGER "Ledger entries cannot be deleted").

(** [ledgerEntrySchema.pre('deleteOne', ...)] *)
Definition pre_deleteOne (conditions : LedgerEntry -> bool) : result unit :=
  Throw (IMMUTABLE_LEDGER "Ledger entries cannot be deleted").

(** *** The operations of the model *)

Definition same_blockHash (h : string) (e : LedgerEntry) : bool :=
  String.eqb (blockHash e) h.

(** [timestamps: { createdAt: true, updatedAt: false }] *)
Definition stamp (now : Z) (e : LedgerEntry) : LedgerEntry :=
  mkLedgerEntry (eventType e) (poemId e) (authorId e) (contentHash e) (previousHash e)
    (blockHash e) (metadata e) (signature e) (witnessNodes e) (isVerified e)
    (match createdAt e with Some t => Some t | None => Some now end).

(** [doc.save()]: the pre-save hook, then the insertion under the unique
    index on [blockHash]. *)
Definition save (d : Document) (now : Z) : M Document :=
  fun st =>
    match pre_save d with
    | Throw e => (Throw e, st)
    | Ok _ =>
        if negb (available st) then (Throw StoreUnavailable, st)
        else if existsb (same_blockHash (blockHash (entry d))) (collection st)
        then (Throw (DuplicateKey "blockHash_1"), st)
        else
          let e := stamp now (entry d) in
          (Ok (mkDocument e false), with_collection st (collection st ++ [e]))
    end.

Fixpoint remove_first (p : LedgerEntry -> bool) (l : list LedgerEntry) : list LedgerEntry :=
  match l with
  | [] => []
  | e :: r => if p e then r else e :: remove_first p r
  end.

(** [doc.remove()] *)
Definition remove (d : Document) : M unit :=
  fun st =>
    match pre_remove d with
    | Throw e => (Throw e, st)
    | Ok _ =>
        if negb (available st) then (Throw StoreUnavailable, st)
        else (Ok tt, with_collection st
                       (remove_first (same_blockHash (blockHash (entry d))) (collection st)))
    end.

(** [LedgerEntry.deleteOne(conditions)] *)
Definition deleteOne (conditions : LedgerEntry -> bool) : M unit :=
  fun st =>
    match pre_deleteOne conditions with
    | Throw e => (Throw e, st)
    | Ok _ =>
        if negb (available st) then (Throw StoreUnavailable, st)
        else (Ok tt, with_collection st (remove_first conditions (collection st)))
    end.

(** Order on [createdAt]; a missing date sorts first. *)
Definition created_leb (a b : LedgerEntry) : bool :=
  match createdAt a, createdAt b with
  | None, _ => true
  | Some _, None => false
  | Some x, Some y => x <=? y
  end.

Definition earlier (a b : LedgerEntry) : Prop := created_leb a b = true.
Definition later (a b : LedgerEntry) : Prop := created_leb b a = true.

(** [.sort({ createdAt: 1 })], as a stable insertion sort: entries with the
    same date keep the order of the collection. *)
Fixpoint insert_asc (e : LedgerEntry) (l : list LedgerEntry) : list LedgerEntry :=
  match l with
  | [] => [e]
  | x :: r => if created_leb e x then e :: l else x :: insert_asc e r
  end.

Definition sort_asc (l : list LedgerEntry) : list LedgerEntry :=
  fold_right insert_asc [] l.

(** [.sort({ createdAt: -1 })], stable in the same way. *)
Fixpoint insert_desc (e : LedgerEntry) (l : list LedgerEntry) : list LedgerEntry :=
  match l with
  | [] => [e]
  | x :: r => if created_leb x e then e :: l else x :: insert_desc e r
  end.

Definition sort_desc (l : list LedgerEntry) : list LedgerEntry :=
  fold_right insert_desc [] l.

Definition has_poemId (id : string) (e : LedgerEntry) : bool :=
  String.eqb (poemId e) id.

(** [LedgerEntry.find(conditions)] *)
Definition find (conditions : LedgerEntry -> bool) : M (list LedgerEntry) :=
  fun st =>
    if available st then (Ok (List.filter conditions (collection st)), st)
    else (Throw StoreUnavailable, st).

(** [LedgerEntry.findOne(conditions).sort({ createdAt: -1 })] *)
Definition findOne_latest (conditions : LedgerEntry -> bool) : M (option LedgerEntry) :=
  do* found := find conditions in
  ret (head (sort_desc found)).

(** [ledgerEntrySchema.statics.getAuthorshipChain]; the population of
    [authorId] with the user's names is left out. *)
Definition getAuthorshipChain (id : string) : M (list LedgerEntry) :=
  do* found := find (has_poemId id) in
  ret (sort_asc found).

(** [entries[i].previousHash !== entries[i - 1].blockHash] *)
Definition link_broken (prev cur : LedgerEntry) : bool :=
  match previousHash cur with
  | Some h => negb (String.eqb h (blockHash prev))
  | None => true
  end.

(** The loop of [verifyChainIntegrity], started at index 1 with
    [entries[0] = prev]. *)
Fixpoint links_hold (prev : LedgerEntry) (rest : list LedgerEntry) : bool :=
  match rest with
  | [] => true
  | cur :: rest' => if link_broken prev cur then false else links_hold cur rest'
  end.

Definition chain_linked (entries : list LedgerEntry) : bool :=
  match entries with
  | [] => true
  | first :: rest => links_hold first rest
  end.

(** [ledgerEntrySchema.statics.verifyChainIntegrity] *)
Definition verifyChainIntegrity (id : string) : M bool :=
  do* found := find (has_poemId id) in
  ret (chain_linked (sort_asc found)).

(** The operations the schema hooks guard, as one type. *)
Inductive StoreOp : Type :=
| OpSave (d : Document) (now : Z)
| OpRemove (d : Document)
| OpDeleteOne (conditions : LedgerEntry -> bool).

Definition run_op (op : StoreOp) : M unit :=
  match op with
  | OpSave d now => do* _ := save d now in ret tt
  | OpRemove d => remove d
  | OpDeleteOne c => deleteOne c
  end.

(* ===================================================================== *)
(** ** [services/LedgerService.js] *)

(** [poemData.author] as the callers pass it: the author's id (the poem
    document of [router.post('/')] holds it), or the author document that
    [populate] has put in its place (the poem [router.put('/:id')] hands
    over).  A template literal prints an id as its hexadecimal text and a
    document as Mongoose prints documents; stored in the [authorId] path,
    both are cast to the id. *)
Inductive Author : Type :=
| AuthorId (id : string)
| AuthorDocument (id : string) (printed : string).

(** [`${author}`] *)
Definition author_text (a : Author) : string :=
  match a with
  | AuthorId id => id
  | AuthorDocument _ printed => printed
  end.

(** [authorId: author], as the schema casts it. *)
Definition author_id (a : Author) : string :=
  match a with
  | AuthorId id => id
  | AuthorDocument id _ => id
  end.

(** The poem handed to the service: [{ _id, title, body, author, license }]. *)
Record PoemData : Type := mkPoemData {
  _id : string;
  p_title : string;
  p_body : string;
  p_author : Author;
  p_license : string
}.

Record EntrySummary : Type := mkEntrySummary {
  s_eventType : EventType;
  s_timestamp : option Z;
  s_author : string;
  s_contentHash : string
}.

(** The object [verifyAuthorship] returns; the early returns leave all but
    [isValid] and [reason] undefined. *)
Record Verification : Type := mkVerification {
  isValid : bool;
  reason : option string;
  originalAuthor : option string;
  creationDate : option Z;
  lastModified : option Z;
  totalModifications : option Z;
  entries : option (list EntrySummary)
}.

Definition invalid_because (why : string) : Verification :=
  mkVerification false (Some why) None None None None None.

Record Certificate : Type := mkCertificate {
  c_poemId : string;
  certificateId : string;
  issuedAt : string;
  c_originalAuthor : option string;
  c_creationDate : option Z;
  lastVerified : string;
  chainLength : Z;
  certificateHash : string;
  digitalSignature : string
}.

Record Validation : Type := mkValidation {
  v_isValid : bool;
  certificateIntegrity : bool;
  poemIntegrity : bool;
  hashMatch : bool;
  signatureMatch : bool;
  poemExists : bool;
  chainIntact : bool
}.

Definition optional_field {A : Type} (k : string) (f : A -> json) (v : option A)
  : list (string * json) :=
  match v with
  | Some a => [(k, f a)]
  | None => []
  end.

(** [JSON.stringify({ ...certificate, certificateHash: undefined,
    digitalSignature: undefined })]: the two overridden keys and any other
    undefined value are left out; a date is printed by [toISOString]. *)
Definition certificateData (c : Certificate) : string :=
  JSON.stringify
    (JObj ([("poemId", JStr (c_poemId c));
            ("certificateId", JStr (certificateId c));
            ("issuedAt", JStr (issuedAt c))]
           ++ optional_field "originalAuthor" JStr (c_originalAuthor c)
           ++ optional_field "creationDate" (fun d => JStr (JS.toISOString d)) (c_creationDate c)
           ++ [("lastVerified", JStr (lastVerified c));
               ("chainLength", JNum (chainLength c))])).

(** [`${title} ${body}`.split(' ').length] *)
Fixpoint count_spaces (s : string) : Z :=
  match s with
  | EmptyString => 0
  | String c r => (if Ascii.eqb c " "%char then 1 else 0) + count_spaces r
  end.

Definition word_count (t b : string) : Z := count_spaces (t +++ " " +++ b) + 1.

Definition default_privateKey : string := "poets-codex-secret".

Section LedgerService.

(** [crypto.createHash('sha256').update(s).digest('hex')] and
    [crypto.createHmac('sha256', key).update(s).digest('hex')]. *)
Variable sha256 : string -> string.
Variable hmac_sha256 : string -> string -> string.

(** [generateContentHash(content)]; [Hash.update] rejects [undefined]. *)
Definition generateContentHash (content : option string) : result string :=
  match content with
  | Some s => Ok (sha256 s)
  | None => Throw ERR_INVALID_ARG_TYPE
  end.

(** [previousHash || '0'] *)
Definition or_zero (previous : option string) : string :=
  match previous with
  | Some h => if JS.truthy h then h else "0"
  | None => "0"
  end.

Definition generateBlockHash (contentHash' : string) (previous : option string)
    (timestamp authorId' : string) : string :=
  let data := or_zero previous +++ contentHash' +++ timestamp +++ authorId' in
  sha256 data.

Definition generateSignature (data : string) : string :=
  hmac_sha256 default_privateKey data.

Definition witness (blockHash' : string) (timestamp : Z) : WitnessNode :=
  mkWitnessNode "primary-node" (generateSignature ("witness-" +++ blockHash')) timestamp.

(** [createPoemEntry(poemData)]; [now] is the clock at the call and
    [savedAt] the clock at the save. *)
Definition createPoemEntry (poemData : PoemData) (now savedAt : Z) : M LedgerEntry :=
  let author := p_author poemData in
  let timestamp := now in
  do* contentHash' :=
    lift (generateContentHash
            (Some (p_title poemData +++ p_body poemData +++ author_text author
                   +++ JS.toISOString timestamp))) in
  do* previousEntry := findOne_latest (fun _ => true) in
  let previous :=
    match previousEntry with
    | Some e => Some (blockHash e)
    | None => None
    end in
  let blockHash' :=
    generateBlockHash contentHash' previous (JS.toISOString timestamp) (author_text author) in
  let signatureData := contentHash' +++ blockHash' +++ JS.toISOString timestamp in
  let signature' := generateSignature signatureData in
  let ledgerEntry :=
    mkDocument
      (mkLedgerEntry POEM_CREATED (_id poemData) (author_id author) contentHash' previous
         blockHash'
         (mkMetadata (p_title poemData) timestamp (p_license poemData)
            (word_count (p_title poemData) (p_body poemData)) None)
         signature' [witness blockHash' timestamp] true None)
      true in
  do* saved := save ledgerEntry savedAt in
  ret (entry saved).

(** [updatePoemEntry(poemData, previousVersion)]; the second parameter is
    not used by the body. *)
Definition updatePoemEntry (poemData : PoemData) (now savedAt : Z) : M LedgerEntry :=
  let author := p_author poemData in
  let timestamp := now in
  do* contentHash' :=
    lift (generateContentHash
            (Some (p_title poemData +++ p_body poemData +++ author_text author
                   +++ JS.toISOString timestamp))) in
  do* previousEntry := findOne_latest (has_poemId (_id poemData)) in
  match previousEntry with
  | None => throw (Error "No previous ledger entry found for poem update")
  | Some prev =>
      let blockHash' :=
        generateBlockHash contentHash' (Some (blockHash prev)) (JS.toISOString timestamp)
          (author_text author) in
      let signatureData := contentHash' +++ blockHash' +++ JS.toISOString timestamp in
      let signature' := generateSignature signatureData in
      let ledgerEntry :=
        mkDocument
          (mkLedgerEntry POEM_UPDATED (_id poemData) (author_id author) contentHash'
             (Some (blockHash prev)) blockHash'
             (mkMetadata (p_title poemData) timestamp (p_license poemData)
                (word_count (p_title poemData) (p_body poemData))
                (Some (contentHash prev)))
             signature' [witness blockHash' timestamp] true None)
          true in
      do* saved := save ledgerEntry savedAt in
      ret (entry saved)
  end.

Definition summary (e : LedgerEntry) : EntrySummary :=
  mkEntrySummary (eventType e) (createdAt e) (authorId e) (contentHash e).

(** [verifyAuthorship(poemId, currentContent)]; a caller that passes one
    argument leaves [currentContent] undefined. *)
Definition verifyAuthorship (id : string) (currentContent : option string) : M Verification :=
  do* currentHash := lift (generateContentHash currentContent) in
  do* chain := getAuthorshipChain id in
  match chain with
  | [] => ret (invalid_because "No ledger entries found")
  | first :: _ =>
      do* chainValid := verifyChainIntegrity id in
      if negb chainValid then ret (invalid_because "Ledger chain integrity compromised")
      else
        let latestEntry := List.last chain first in
        let contentMatches := String.eqb (contentHash latestEntry) currentHash in
        ret (mkVerification (contentMatches && chainValid) None
               (Some (authorId first)) (createdAt first) (createdAt latestEntry)
               (Some (Z.of_nat (length chain) - 1))
               (Some (map summary chain)))
  end.

(** [getAuthorshipHistory(poemId)], without the populated author names. *)
Definition getAuthorshipHistory (id : string) : M (list LedgerEntry) :=
  getAuthorshipChain id.

(** The tail of [generateAuthorshipCertificate]: hash and sign the
    certificate's own fields. *)
Definition seal (c : Certificate) : result Certificate :=
  let data := certificateData c in
  let* h := generateContentHash (Some data) in
  Ok (mkCertificate (c_poemId c) (certificateId c) (issuedAt c) (c_originalAuthor c)
        (c_creationDate c) (lastVerified c) (chainLength c) h (generateSignature data)).

(** [generateAuthorshipCertificate(poemId)]; [uuid] is [crypto.randomUUID()],
    [now] and [now'] the two readings of the clock. *)
Definition generateAuthorshipCertificate (id uuid : string) (now now' : Z) : M Certificate :=
  do* verification := verifyAuthorship id None in
  if negb (isValid verification)
  then throw (Error "Cannot generate certificate for invalid authorship")
  else
    match entries verification with
    | None => throw (TypeError "Cannot read properties of undefined (reading 'length')")
    | Some summaries =>
        lift (seal (mkCertificate id uuid (JS.toISOString now)
                      (originalAuthor verification) (creationDate verification)
                      (JS.toISOString now') (Z.of_nat (length summaries)) "" ""))
    end.

(** The first half of [validateCertificate]: recompute hash and signature
    from the certificate's stated fields. *)
Definition hashValid (c : Certificate) : result bool :=
  let* expectedHash := generateContentHash (Some (certificateData c)) in
  Ok (String.eqb (certificateHash c) expectedHash).

Definition signatureValid (c : Certificate) : bool :=
  String.eqb (digitalSignature c) (generateSignature (certificateData c)).

(** [validateCertificate(certificate)] *)
Definition validateCertificate (c : Certificate) : M Validation :=
  do* hashOk := lift (hashValid c) in
  let signatureOk := signatureValid c in
  do* currentVerification := verifyAuthorship (c_poemId c) None in
  ret (mkValidation (hashOk && signatureOk && isValid currentVerification)
         (hashOk && signatureOk)
         (isValid currentVerification)
         hashOk signatureOk true (isValid currentVerification)).

End LedgerService.

(* ===================================================================== *)
(** ** [services/FileBasedLedger.js]: the JSON-lines ledger *)

(** The ledger file as the process sees it: its text, and whether the file
    system calls fail. *)
Record FileSystem : Type := mkFileSystem {
  text : string;
  failing : bool
}.

(** [fs.appendFile(path, data)] *)
Definition appendFile (data : string) (fs : FileSystem) : result unit * FileSystem :=
  if failing fs then (Throw IOError, fs)
  else (Ok tt, mkFileSystem (text fs +++ data) (failing fs)).

(** [fs.readFile(path, 'utf8')] *)
Definition readFile (fs : FileSystem) : result string :=
  if failing fs then Throw IOError else Ok (text fs).

Record Filter : Type := mkFilter {
  f_poemId : option string;
  f_authorId : option string;
  f_eventType : option string
}.

Definition no_filter : Filter := mkFilter None None None.

(** [entry[k]] for a parsed line: a property of [null] throws, a primitive
    or an array has no such property. *)
Definition prop (k : string) (v : json) : result (option json) :=
  match v with
  | JObj fields => Ok (JSON.get k fields)
  | JNull => Throw (TypeError "Cannot read properties of null")
  | _ => Ok None
  end.

(** [entry[k] === s] for a string [s] *)
Definition strict_eq (v : option json) (s : string) : bool :=
  match v with
  | Some (JStr t) => String.eqb t s
  | _ => false
  end.

(** [entries.filter(entry => entry[k] === s)] *)
Fixpoint filter_by (k s : string) (l : list json) : result (list json) :=
  match l with
  | [] => Ok []
  | e :: r =>
      let* v := prop k e in
      let* r' := filter_by k s r in
      Ok (if strict_eq v s then e :: r' else r')
  end.

(** [if (filter[k]) entries = entries.filter(...)] *)
Definition apply_filter (k : string) (wanted : option string) (l : list json)
  : result (list json) :=
  match wanted with
  | Some s => if JS.truthy s then filter_by k s l else Ok l
  | None => Ok l
  end.

(** [lines.map(line => JSON.parse(line))] *)
Fixpoint parse_lines (lines : list string) : result (list json) :=
  match lines with
  | [] => Ok []
  | line :: rest =>
      let* v := JSON.parse line in
      let* vs := parse_lines rest in
      Ok (v :: vs)
  end.

(** [content.trim().split('\n').filter(line => line)] *)
Definition nonempty_lines (content : string) : list string :=
  List.filter JS.truthy (JS.split_nl (JS.trim content)).

(** The body of the [try] block of [getEntries]. *)
Definition read_entries (filter : Filter) (fs : FileSystem) : result (list json) :=
  let* content := readFile fs in
  let lines := nonempty_lines content in
  let* parsed := parse_lines lines in
  let* by_poem := apply_filter "poemId" (f_poemId filter) parsed in
  let* by_author := apply_filter "authorId" (f_authorId filter) by_poem in
  apply_filter "eventType" (f_eventType filter) by_author.

(** [getEntries(filter = {})] of a ledger whose [isReady] is [ready]. *)
Definition getEntries (ready : bool) (filter : Filter) (fs : FileSystem) : list json :=
  if negb ready then []
  else
    match read_entries filter fs with
    | Ok found => found
    | Throw _ => []
    end.

Section FileBasedLedger.

Variable sha256 : string -> string.

(** [{ ...entry, timestamp, entryHash }] *)
Definition ledger_line (entry : list (string * json)) (timestamp : string)
  : list (string * json) :=
  JSON.set "entryHash"
    (JStr (sha256 (JSON.stringify (JObj entry) +++ timestamp)))
    (JSON.set "timestamp" (JStr timestamp) entry).

(** [appendEntry(entry)]: the entry written, or [null]. *)
Definition appendEntry (ready : bool) (entry : list (string * json)) (now : Z)
    (fs : FileSystem) : option json * FileSystem :=
  if negb ready then (None, fs)
  else
    let timestamp := JS.toISOString now in
    let ledgerEntry := ledger_line entry timestamp in
    let line := JSON.stringify (JObj ledgerEntry) +++ String JS.nl "" in
    match appendFile line fs with
    | (Ok _, fs') => (Some (JObj ledgerEntry), fs')
    | (Throw _, fs') => (None, fs')
    end.

End FileBasedLedger.

(** ** [services/FileLedger.js]: one log per poem; [append] returns nothing
    and swallows a failed write. *)
Definition FileLedger_append (ready : bool) (eventType' : string)
    (payload : json) (now : Z) (fs : FileSystem) : FileSystem :=
  if negb ready then fs
  else
    let line :=
      JSON.stringify (JObj [("t", JStr (JS.toISOString now));
                            ("eventType", JStr eventType');
                            ("payload", payload)]) +++ String JS.nl "" in
    snd (appendFile line fs).

(* ===================================================================== *)
(** ** [models/Poem.js]: the required paths and the [pre('save')] hook *)

(** A poem document, as far as its [required: true] paths go. *)
Record PoemDocument : Type := mkPoemDocument {
  doc_title : option string;
  doc_body : option string;
  doc_author : option string;
  doc_license : option string;
  doc_contentHash : option string;
  doc_copyrightYear : option Z
}.

(** The [required] validator: a string path needs a non-empty string, any
    other path a value. *)
Definition missing_string (path : string) (v : option string) : list string :=
  match v with
  | Some s => if JS.truthy s then [] else [path]
  | None => [path]
  end.

Definition missing_value {A : Type} (path : string) (v : option A) : list string :=
  match v with
  | Some _ => []
  | None => [path]
  end.

(** The required paths that fail, in the order of the schema; the title is
    trimmed ([trim: true]). *)
Definition missing_paths (d : PoemDocument) : list string :=
  missing_string "title" (option_map JS.trim (doc_title d))
  ++ missing_string "body" (doc_body d)
  ++ missing_value "author" (doc_author d)
  ++ missing_string "license" (doc_license d)
  ++ missing_string "contentHash" (doc_contentHash d)
  ++ missing_value "copyrightYear" (doc_copyrightYear d).

(** Validation, as far as the [required] validators go.  Mongoose names
    every failing path in one [ValidationError]; the model names the first
    required path that is missing.  The other validators of the schema
    ([maxlength], [enum]) can only add failures and are left out. *)
Definition Poem_validate (d : PoemDocument) : result unit :=
  match missing_paths d with
  | [] => Ok tt
  | path :: _ => Throw (ValidationError path)
  end.

(** [poemSchema.pre('save', ...)], as far as [copyrightYear] goes:
    [if (!this.copyrightYear) this.copyrightYear = new Date().getFullYear()]. *)
Definition Poem_pre_save (year : Z) (d : PoemDocument) : PoemDocument :=
  let absent :=
    match doc_copyrightYear d with
    | Some y => y =? 0
    | None => true
    end in
  if absent
  then mkPoemDocument (doc_title d) (doc_body d) (doc_author d) (doc_license d)
         (doc_contentHash d) (Some year)
  else d.

(** [poem.save()].  Mongoose validates the document in a hook of its own
    that runs before the hooks the schema registers with [pre('save')]; so
    the schema's hook sees only documents that are valid already.  Then
    the insertion, whose outcome is the database's. *)
Definition Poem_save (insert : result unit) (year : Z) (d : PoemDocument)
  : result PoemDocument :=
  let* _ := Poem_validate d in
  let d' := Poem_pre_save year d in
  let* _ := insert in
  Ok d'.

(* ===================================================================== *)
(** ** [routes/poemRoutes.js]: the creation handler [router.post('/')] *)

(** What [app.locals.fileLedger] holds: [server.js] installs a
    [FileBasedLedger], which has no [append] method; [FileLedger] has one. *)
Inductive FileLedgerObject : Type :=
| AFileBasedLedger
| AFileLedger.

(** The collaborators of the handler that are outside the ledger: the
    outcome of the request validation, of the insertion of the poem in the
    database ([poemSave], once the document has passed the schema) and of
    the calls on the user model and on the poem model at the end. *)
Record RouteEnv : Type := mkRouteEnv {
  validationErrors : bool;
  poemSave : result unit;
  userUpdate : result unit;
  fileLedger : option FileLedgerObject;
  ledgerService : bool;
  findPopulated : result unit
}.

Record Response : Type := mkResponse {
  status : Z;
  message : string
}.

(** [req.app.locals.fileLedger?.append(...)] *)
Definition fileLedger_append (l : option FileLedgerObject) : result unit :=
  match l with
  | None => Ok tt
  | Some AFileLedger => Ok tt
  | Some AFileBasedLedger =>
      Throw (TypeError "req.app.locals.fileLedger?.append is not a function")
  end.

Section PoemRoutes.

Variable sha256 : string -> string.
Variable hmac_sha256 : string -> string -> string.

(** Lines 68-76: the ledger entry is created if the service is there; an
    error is logged and the handler continues. *)
Definition ledger_step (present : bool) (poem : PoemData) (now savedAt : Z) : M unit :=
  if present
  then
    try_catch
      (do* _ := createPoemEntry sha256 hmac_sha256 poem now savedAt in ret tt)
      (fun ledgerError => ret tt)
  else ret tt.

(** [new Poem({ title, body, author: req.user.id, license, tags, mood,
    style, visibility, contentHash })], with the [contentHash] of the
    route's helper: the SHA-256 of title, body and author id.  The handler
    gives no [copyrightYear]. *)
Definition new_poem (poem : PoemData) : PoemDocument :=
  mkPoemDocument (Some (p_title poem)) (Some (p_body poem))
    (Some (author_id (p_author poem))) (Some (p_license poem))
    (Some (sha256 (p_title poem +++ p_body poem +++ author_id (p_author poem))))
    None.

(** The handler; [poem] is the poem the request describes, with the [_id]
    the new document gets.  The event bus is not installed by [server.js],
    and the vector-index step catches its own errors; both are left out. *)
Definition post_poem (env : RouteEnv) (poem : PoemData) (now savedAt : Z)
  : Store -> Response * Store :=
  fun st =>
    if validationErrors env then (mkResponse 400 "", st)
    else
      let body : M Response :=
        do* _ := lift (Poem_save (poemSave env) (JS.getFullYear now) (new_poem poem)) in
        do* _ := lift (userUpdate env) in
        do* _ := lift (fileLedger_append (fileLedger env)) in
        do* _ := ledger_step (ledgerService env) poem now savedAt in
        do* _ := lift (findPopulated env) in
        ret (mkResponse 201 "Poem created successfully") in
      match body st with
      | (Ok response, st') => (response, st')
      | (Throw _, st') => (mkResponse 500 "Server error creating poem", st')
      end.

End PoemRoutes.

(* ===================================================================== *)
(** ** Tampering and runs *)

Definition with_contentHash (h : string) (e : LedgerEntry) : LedgerEntry :=
  mkLedgerEntry (eventType e) (poemId e) (authorId e) h (previousHash e)
    (blockHash e) (metadata e) (signature e) (witnessNodes e) (isVerified e)
    (createdAt e).

(** A write made directly in the database, past the model's hooks: the
    [contentHash] of the [i]-th stored entry becomes [h]. *)
Definition tamper_contentHash (i : nat) (h : string) (st : Store) : Store :=
  with_collection st (alter (with_contentHash h) i (collection st)).

(** *** Queries without a hook

    The schema registers middleware for [save], [remove] and [deleteOne]
    and for nothing else.  The model that [LedgerEntry.js] exports has
    further operations -- [updateOne], [findOneAndUpdate], [deleteMany],
    [findByIdAndDelete] --, which Mongoose sends to the database without
    calling any of the three hooks.  Two of them follow; their replies
    ([{ deletedCount }], [{ modifiedCount }]) are left out. *)

(** [LedgerEntry.deleteMany(conditions)] *)
Definition deleteMany (conditions : LedgerEntry -> bool) : M unit :=
  fun st =>
    if negb (available st) then (Throw StoreUnavailable, st)
    else (Ok tt, with_collection st
                   (List.filter (fun e => negb (conditions e)) (collection st))).

Fixpoint update_first (p : LedgerEntry -> bool) (f : LedgerEntry -> LedgerEntry)
    (l : list LedgerEntry) : list LedgerEntry :=
  match l with
  | [] => []
  | e :: r => if p e then f e :: r else e :: update_first p f r
  end.

(** [LedgerEntry.updateOne(conditions, { contentHash: h })]: the first entry
    that matches gets the new [contentHash]. *)
Definition updateOne_contentHash (conditions : LedgerEntry -> bool) (h : string) : M unit :=
  fun st =>
    if negb (available st) then (Throw StoreUnavailable, st)
    else (Ok tt, with_collection st
                   (update_first conditions (with_contentHash h) (collection st))).

(** The first byte of a string with its lowest bit flipped. *)
Definition flip_first_byte (s : string) : string :=
  match s with
  | EmptyString => EmptyString
  | String c r => String (JS.chr (Z.lxor (JS.code c) 1)) r
  end.


(** The calls a client of the ledger can make: the methods of the service
    and the guarded operations of the model. *)
Inductive Call : Type :=
| CallCreate (p : PoemData) (now savedAt : Z)
| CallUpdate (p : PoemData) (now savedAt : Z)
| CallVerify (id : string) (content : option string)
| CallHistory (id : string)
| CallIssue (id uuid : string) (now now' : Z)
| CallValidate (c : Certificate)
| CallStore (op : StoreOp).

(** The store after a call, whatever the call returned or threw. *)
Definition run_call (sha256 : string -> string) (hmac_sha256 : string -> string -> string)
    (c : Call) (st : Store) : Store :=
  match c with
  | CallCreate p now savedAt => snd (createPoemEntry sha256 hmac_sha256 p now savedAt st)
  | CallUpdate p now savedAt => snd (updatePoemEntry sha256 hmac_sha256 p now savedAt st)
  | CallVerify id content => snd (verifyAuthorship sha256 id content st)
  | CallHistory id => snd (getAuthorshipHistory id st)
  | CallIssue id uuid now now' =>
      snd (generateAuthorshipCertificate sha256 hmac_sha256 id uuid now now' st)
  | CallValidate c => snd (validateCertificate sha256 hmac_sha256 c st)
  | CallStore op => snd (run_op op st)
  end.

Fixpoint run_calls (sha256 : string -> string) (hmac_sha256 : string -> string -> string)
    (calls : list Call) (st : Store) : Store :=
  match calls with
  | [] => st
  | c :: rest => run_calls sha256 hmac_sha256 rest (run_call sha256 hmac_sha256 c st)
  end.

(** The verdict of a verification that returned, if it did. *)
Definition verdict (r : result Verification) : option bool :=
  match r with
  | Ok v => Some (isValid v)
  | Throw _ => None
  end.

(** The fields chain verification reads. *)
Definition same_links (a b : LedgerEntry) : Prop :=
  poemId a = poemId b /\ createdAt a = createdAt b /\
  previousHash a = previousHash b /\ blockHash a = blockHash b.

(* ===================================================================== *)
(** ** The rest of the model and of the service *)

(** [ledgerEntrySchema.virtual('isChainValid')]: the three digests are
    present and not empty. *)
Definition isChainValid (e : LedgerEntry) : bool :=
  JS.truthy (contentHash e) && JS.truthy (blockHash e) && JS.truthy (signature e).

(** [ledgerEntrySchema.methods.verifyAuthorship(currentHash)] *)
Definition entry_verifyAuthorship (e : LedgerEntry) (currentHash : string) : bool :=
  String.eqb (contentHash e) currentHash && isVerified e.

Definition EventType_eqb (a b : EventType) : bool :=
  match a, b with
  | POEM_CREATED, POEM_CREATED | POEM_UPDATED, POEM_UPDATED
  | POEM_DELETED, POEM_DELETED | POEM_TRANSFERRED, POEM_TRANSFERRED => true
  | _, _ => false
  end.

Definition all_EventTypes : list EventType :=
  [POEM_CREATED; POEM_UPDATED; POEM_DELETED; POEM_TRANSFERRED].

Definition count_eventType (t : EventType) (l : list LedgerEntry) : Z :=
  Z.of_nat (length (List.filter (fun e => EventType_eqb (eventType e) t) l)).

(** [aggregate([{ $group: { _id: '$eventType', count: { $sum: 1 } } }])]: one
    group for each event type that occurs.  The order of the groups is the
    database's; the model lists them in the order of the enumeration. *)
Definition group_by_eventType (l : list LedgerEntry) : list (EventType * Z) :=
  List.filter (fun g => 0 <? snd g)
    (map (fun t => (t, count_eventType t l)) all_EventTypes).

(** [distinct(path)]: the different values of a path. *)
Definition distinct (path : LedgerEntry -> string) (l : list LedgerEntry) : list string :=
  nodup string_dec (map path l).

(** [stats.reduce((acc, stat) => { acc[stat._id] = stat.count; return acc }, {})] *)
Fixpoint to_object (groups : list (EventType * Z)) (acc : list (EventType * Z))
  : list (EventType * Z) :=
  match groups with
  | [] => acc
  | (t, n) :: rest =>
      to_object rest
        (if existsb (fun g => EventType_eqb (fst g) t) acc
         then map (fun g => if EventType_eqb (fst g) t then (t, n) else g) acc
         else acc ++ [(t, n)])
  end.

Record LedgerStats : Type := mkLedgerStats {
  totalEntries : Z;
  uniquePoems : Z;
  uniqueAuthors : Z;
  eventTypes : list (EventType * Z)
}.

(** [getLedgerStats()]: four queries, then the object. *)
Definition getLedgerStats : M LedgerStats :=
  do* all := find (fun _ => true) in
  let stats := group_by_eventType all in
  do* counted := find (fun _ => true) in
  let total := Z.of_nat (length counted) in
  do* poems := find (fun _ => true) in
  do* authors := find (fun _ => true) in
  ret (mkLedgerStats total
         (Z.of_nat (length (distinct poemId poems)))
         (Z.of_nat (length (distinct authorId authors)))
         (to_object stats [])).

(** The count the stats object holds for an event type, [0] when the key is
    absent. *)
Fixpoint stat_of (t : EventType) (o : list (EventType * Z)) : Z :=
  match o with
  | [] => 0
  | (t', n) :: rest => if EventType_eqb t' t then n else stat_of t rest
  end.

(** The calls that are methods of the service. *)
Definition service_call (c : Call) : bool :=
  match c with
  | CallStore _ => false
  | _ => true
  end.

(** The clock at a save is later than the dates of these entries. *)
Definition all_before (savedAt : Z) (l : list LedgerEntry) : Prop :=
  Forall (fun x => match createdAt x with
                   | Some t => t < savedAt
                   | None => True
                   end) l.

(* ===================================================================== *)
(** ** The rest of the JSON-lines ledger *)

(** [String(v)], the conversion that [+] and a computed property key apply:
    an array prints its elements between commas, with nothing for [null]; an
    object prints as ["[object Object]"]. *)
Fixpoint to_string (v : json) : string :=
  match v with
  | JNull => "null"
  | JBool true => "true"
  | JBool false => "false"
  | JNum n => JS.decimal n
  | JReal lexeme => lexeme
  | JStr s => s
  | JArr items =>
      (fix go (l : list json) : string :=
         match l with
         | [] => ""
         | x :: r =>
             let here := match x with JNull => "" | _ => to_string x end in
             match r with
             | [] => here
             | _ :: _ => here +++ "," +++ go r
             end
         end) items
  | JObj _ => "[object Object]"
  end.

(** The same for a value that may be [undefined]. *)
Definition to_string_opt (v : option json) : string :=
  match v with
  | Some v => to_string v
  | None => "undefined"
  end.

(** The own properties of an array, and of a string (byte by byte), under
    their indices. *)
Fixpoint index_fields (i : Z) (items : list json) : list (string * json) :=
  match items with
  | [] => []
  | x :: r => (JS.decimal i, x) :: index_fields (i + 1) r
  end.

Fixpoint char_fields (i : Z) (s : string) : list (string * json) :=
  match s with
  | EmptyString => []
  | String c r => (JS.decimal i, JStr (String c "")) :: char_fields (i + 1) r
  end.

Definition without (k1 k2 : string) (fields : list (string * json)) : list (string * json) :=
  List.filter (fun kv => negb (String.eqb (fst kv) k1 || String.eqb (fst kv) k2)) fields.

(** [const { entryHash, timestamp, ...entryData } = entry] *)
Definition destructure (entry : json)
  : result (option json * option json * list (string * json)) :=
  match entry with
  | JNull => Throw (TypeError "Cannot destructure 'entry' as it is null")
  | JObj fields =>
      Ok (JSON.get "entryHash" fields, JSON.get "timestamp" fields,
          without "entryHash" "timestamp" fields)
  | JArr items => Ok (None, None, index_fields 0 items)
  | JStr s => Ok (None, None, char_fields 0 s)
  | _ => Ok (None, None, [])
  end.

Section FileBasedLedgerChecks.

Variable sha256 : string -> string.

(** The loop of [verifyIntegrity]. *)
Fixpoint check_entries (entries : list json) : result bool :=
  match entries with
  | [] => Ok true
  | entry :: rest =>
      let* parts := destructure entry in
      let '(entryHash, timestamp, entryData) := parts in
      let expectedHash :=
        sha256 (JSON.stringify (JObj entryData) +++ to_string_opt timestamp) in
      if strict_eq entryHash expectedHash then check_entries rest else Ok false
  end.

(** [verifyIntegrity()] *)
Definition verifyIntegrity (ready : bool) (fs : FileSystem) : bool :=
  if negb ready then false
  else
    match check_entries (getEntries ready no_filter fs) with
    | Ok verdict => verdict
    | Throw _ => false
    end.

(** A run of appends: each entry with the clock at its call. *)
Fixpoint append_all (ready : bool) (entries : list (list (string * json) * Z))
    (fs : FileSystem) : FileSystem :=
  match entries with
  | [] => fs
  | (entry, now) :: rest => append_all ready rest (snd (appendEntry sha256 ready entry now fs))
  end.

(** The object a successful append of [entry] at [now] writes. *)
Definition written (en : list (string * json) * Z) : json :=
  JObj (ledger_line sha256 (fst en) (JS.toISOString (snd en))).

End FileBasedLedgerChecks.

(** *** Values that JSON carries unchanged

    Safe integers, strings, booleans, [null], and arrays and objects of
    them.  JavaScript numbers are doubles: an integer beyond
    [Number.MAX_SAFE_INTEGER] is rounded when it is read and printed with an
    exponent from [1e21] on, which [JNum] does not follow, so such numbers
    are left out.  So is a number with a fraction (it is kept as written,
    not as JavaScript would print it).  The strings of the model are the
    UTF-8 bytes of JavaScript strings, which is what the ledger file holds;
    bytes that are not well-formed UTF-8 are replaced when the file is read
    and are left out.  An object with a repeated key, or with a key
    made of digits, which JavaScript would list first, is left out as
    well. *)

(** [Number.isSafeInteger] *)
Definition safe_integer (n : Z) : bool :=
  (- 9007199254740991 <=? n) && (n <=? 9007199254740991).

Definition between (lo hi : Z) (c : ascii) : bool :=
  (lo <=? JS.code c) && (JS.code c <=? hi).

(** Well-formed UTF-8: one byte below 128; a lead byte 194..223 and one
    continuation byte; a lead byte 224..239 and two, without overlong forms
    and surrogates; a lead byte 240..244 and three, without overlong forms
    and up to U+10FFFF. *)
Fixpoint utf8_text (s : string) : bool :=
  match s with
  | EmptyString => true
  | String a r =>
      let n := JS.code a in
      if n <? 128 then utf8_text r
      else if (194 <=? n) && (n <=? 223) then
        match r with
        | String b r1 => between 128 191 b && utf8_text r1
        | _ => false
        end
      else if (224 <=? n) && (n <=? 239) then
        match r with
        | String b (String c r2) =>
            (if n =? 224 then between 160 191 b
             else if n =? 237 then between 128 159 b
             else between 128 191 b)
            && between 128 191 c && utf8_text r2
        | _ => false
        end
      else if (240 <=? n) && (n <=? 244) then
        match r with
        | String b (String c (String d r3)) =>
            (if n =? 240 then between 144 191 b
             else if n =? 244 then between 128 143 b
             else between 128 191 b)
            && between 128 191 c && between 128 191 d && utf8_text r3
        | _ => false
        end
      else false
  end.

(** The string of the given bytes. *)
Definition of_bytes (bytes : list Z) : string :=
  string_of_list_ascii (map JS.chr bytes).

(** Texts of characters below 128. *)
Fixpoint ascii_text (s : string) : bool :=
  match s with
  | EmptyString => true
  | String c r => (JS.code c <? 128) && ascii_text r
  end.

(** The digests are texts: [digest('hex')] gives hexadecimal digits. *)
Definition text_digests (sha256 : string -> string) : Prop :=
  forall s : string, utf8_text (sha256 s) = true.

Definition is_index (k : string) : bool :=
  negb (String.eqb k "") && forallb JSON.is_digit (list_ascii_of_string k).

Fixpoint distinct_keys (keys : list string) : bool :=
  match keys with
  | [] => true
  | k :: rest => negb (existsb (String.eqb k) rest) && distinct_keys rest
  end.

Definition plain_key (k : string) : bool := negb (is_index k) && utf8_text k.

Fixpoint plain (v : json) : bool :=
  match v with
  | JNull | JBool _ => true
  | JNum n => safe_integer n
  | JStr s => utf8_text s
  | JReal _ => false
  | JArr items => forallb plain items
  | JObj fields =>
      forallb (fun kv => plain (snd kv)) fields
      && distinct_keys (map fst fields)
      && forallb (fun kv => plain_key (fst kv)) fields
  end.

(** An entry a caller may hand to [appendEntry] and read back unchanged:
    plain, and without the keys the ledger adds. *)
Definition plain_entry (entry : list (string * json)) : bool :=
  plain (JObj entry)
  && negb (existsb (fun kv => String.eqb (fst kv) "timestamp"
                              || String.eqb (fst kv) "entryHash") entry).

(** A measure of a value that bounds the depth of its parsing. *)
Fixpoint size (v : json) : nat :=
  match v with
  | JArr items => S (fold_right (fun x n => S (size x + n)) O items)
  | JObj fields => S (fold_right (fun kv n => S (size (snd kv) + n)) O fields)
  | _ => 1
  end.

(** Texts between commas. *)
Fixpoint sep_by_comma (l : list string) : string :=
  match l with
  | [] => ""
  | x :: r =>
      match r with
      | [] => x
      | _ :: _ => x +++ "," +++ sep_by_comma r
      end
  end.

Definition field_text (kv : string * json) : string :=
  JSON.quote (fst kv) +++ ":" +++ JSON.stringify (snd kv).

Fixpoint has_nl (s : string) : bool :=
  match s with
  | EmptyString => false
  | String c r => Ascii.eqb c JS.nl || has_nl r
  end.

(** What may follow a value inside a text that [JSON.stringify] wrote: the
    end, a comma, or a closing bracket. *)
Definition delimited (rest : string) : bool :=
  match rest with
  | EmptyString => true
  | String c _ => (JS.code c =? 44) || (JS.code c =? 93) || (JS.code c =? 125)
  end.

(** A text of decimal digits. *)
Fixpoint all_digits (s : string) : bool :=
  match s with
  | EmptyString => true
  | String c r => JSON.is_digit c && all_digits r
  end.

(** The measure of the elements of an array, and of the fields of an
    object. *)
Definition items_size (items : list json) : nat :=
  fold_right (fun x n => S (size x + n)) O items.

Definition fields_size (fields : list (string * json)) : nat :=
  fold_right (fun kv n => S (size (snd kv) + n)) O fields.

(** What [JSON.value] does at a given fuel on the text of a plain value. *)
Definition reads_back (fuel : nat) : Prop :=
  forall (v : json) (rest : string),
    plain v = true -> (size v <= fuel)%nat -> delimited rest = true ->
    JSON.value fuel (JSON.stringify v +++ rest) = Some (v, rest).

(** *** The text of a ledger file *)

(** The text of a file that holds the given lines, a line feed after each. *)
Fixpoint lines_text (lines : list string) : string :=
  match lines with
  | [] => ""
  | l :: r => l +++ String JS.nl (lines_text r)
  end.

(** The lines with a line feed between them. *)
Fixpoint join_nl (lines : list string) : string :=
  match lines with
  | [] => ""
  | l :: r =>
      match r with
      | [] => l
      | _ :: _ => l +++ String JS.nl (join_nl r)
      end
  end.

(** A text between braces. *)
Definition braced (s : string) : Prop :=
  exists body, s = String "{" (body +++ "}").

Definition is_object (v : json) : bool :=
  match v with
  | JObj _ => true
  | _ => false
  end.

(** The file system answers, and the ledger file holds the plain objects
    [entries], one on a line, as [appendEntry] writes them. *)
Definition holds (fs : FileSystem) (entries : list json) : Prop :=
  failing fs = false
  /\ text fs = lines_text (map JSON.stringify entries)
  /\ Forall (fun v => plain v = true /\ is_object v = true) entries.

(** One test of [getEntries]: [entry[k] === wanted], skipped when the filter
    has no [k] or an empty one. *)
Definition field_is (k : string) (wanted : option string) (v : json) : bool :=
  match wanted with
  | Some s =>
      if JS.truthy s then
        match v with
        | JObj fields => strict_eq (JSON.get k fields) s
        | _ => false
        end
      else true
  | None => true
  end.

Definition selected (f : Filter) (v : json) : bool :=
  field_is "poemId" (f_poemId f) v
  && field_is "authorId" (f_authorId f) v
  && field_is "eventType" (f_eventType f) v.

Definition has_key (k : string) (fields : list (string * json)) : bool :=
  existsb (fun kv => String.eqb (fst kv) k) fields.

(* ===================================================================== *)
(** ** A concrete run, with the digests of Node *)

Module Scenario.

Definition sha256 : string -> string := Crypto.sha256_hex.
Definition hmac_sha256 : string -> string -> string := Crypto.hmac_sha256_hex.

Definition empty : Store := mkStore [] true.
Definition offline : Store := mkStore [] false.

Definition dawn : PoemData :=
  mkPoemData "64b000000000000000000001" "Dawn" "light on water"
    (AuthorId "64a000000000000000000001") "CC BY 4.0".

Definition dusk : PoemData :=
  mkPoemData "64b000000000000000000002" "Dusk" "ash and ember"
    (AuthorId "64a000000000000000000002") "CC0 1.0".

Definition dawn' : PoemData :=
  mkPoemData "64b000000000000000000001" "Dawn" "light on the water"
    (AuthorId "64a000000000000000000001") "CC BY 4.0".

(** The updated poem as [router.put('/:id')] hands it over: [author] is the
    populated document; [printed] stands for the text a template literal
    gives for it. *)
Definition dawn_populated : PoemData :=
  mkPoemData "64b000000000000000000001" "Dawn" "light on the water"
    (AuthorDocument "64a000000000000000000001"
       "{ _id: 64a000000000000000000001, username: 'ann', displayName: 'Ann' }")
    "CC BY 4.0".

(** The text whose hash [createPoemEntry] and [updatePoemEntry] record. *)
Definition content_at (p : PoemData) (now : Z) : string :=
  p_title p +++ p_body p +++ author_text (p_author p) +++ JS.toISOString now.

Definition blank : LedgerEntry :=
  mkLedgerEntry POEM_CREATED "" "" "" None "" (mkMetadata "" 0 "" 0 None) "" [] true None.

Definition returned (r : result LedgerEntry * Store) : LedgerEntry :=
  match fst r with
  | Ok e => e
  | Throw _ => blank
  end.

(** Dawn is created, then Dusk, then Dawn is updated. *)
Definition run1 : result LedgerEntry * Store :=
  Eval vm_compute in
    createPoemEntry sha256 hmac_sha256 dawn 1700000000000 1700000000005 empty.
Definition entry1 : LedgerEntry := Eval vm_compute in returned run1.
Definition st1 : Store := Eval vm_compute in snd run1.

Definition run2 : result LedgerEntry * Store :=
  Eval vm_compute in
    createPoemEntry sha256 hmac_sha256 dusk 1700000001000 1700000001005 st1.
Definition entry2 : LedgerEntry := Eval vm_compute in returned run2.
Definition st2 : Store := Eval vm_compute in snd run2.

Definition run3 : result LedgerEntry * Store :=
  Eval vm_compute in
    updatePoemEntry sha256 hmac_sha256 dawn' 1700000002000 1700000002005 st2.
Definition entry3 : LedgerEntry := Eval vm_compute in returned run3.
Definition st3 : Store := Eval vm_compute in snd run3.

(** The same update, called with the populated author. *)
Definition run3_populated : result LedgerEntry * Store :=
  Eval vm_compute in
    updatePoemEntry sha256 hmac_sha256 dawn_populated 1700000002000 1700000002005 st2.
Definition entry3_populated : LedgerEntry := Eval vm_compute in returned run3_populated.

(** Dawn is created a second time after Dusk. *)
Definition run3' : result LedgerEntry * Store :=
  Eval vm_compute in
    createPoemEntry sha256 hmac_sha256 dawn' 1700000002000 1700000002005 st2.
Definition entry3' : LedgerEntry := Eval vm_compute in returned run3'.
Definition st3' : Store := Eval vm_compute in snd run3'.

(** A certificate over the one-entry chain of Dawn in [st1], in the form
    [generateAuthorshipCertificate] gives it. *)
Definition unsealed : Certificate :=
  mkCertificate "64b000000000000000000001" "0b5e2d0c-6f0e-4c57-9f55-3d1c2a7b9e10"
    "2023-11-14T22:13:21.000Z" (Some "64a000000000000000000001") (Some 1700000000005)
    "2023-11-14T22:13:21.000Z" 1 "" "".

Definition certificate : Certificate :=
  Eval vm_compute in
    match seal sha256 hmac_sha256 unsealed with
    | Ok c => c
    | Throw _ => unsealed
    end.

(** A ledger file: one committed line, and a second line cut off. *)
Definition committed_line : string :=
  Eval vm_compute in
    JSON.stringify (JObj [("type", JStr "USER_REGISTERED"); ("userId", JStr "u1");
                          ("timestamp", JStr "2023-11-14T22:13:20.000Z");
                          ("entryHash", JStr "00")]).

Definition truncated_line : string :=
  Eval vm_compute in
    substring 0 21
      (JSON.stringify (JObj [("type", JStr "USER_LOGIN"); ("userId", JStr "u1")])).

Definition truncated_file : FileSystem :=
  mkFileSystem (committed_line +++ String JS.nl truncated_line) false.

Definition committed_file : FileSystem :=
  mkFileSystem (committed_line +++ String JS.nl "") false.

(** An application that installs the ledger service and no file ledger;
    and the application of [server.js], which installs a [FileBasedLedger]
    as file ledger. *)
Definition route_env : RouteEnv :=
  mkRouteEnv false (Ok tt) (Ok tt) None true (Ok tt).

Definition server_env : RouteEnv :=
  mkRouteEnv false (Ok tt) (Ok tt) (Some AFileBasedLedger) true (Ok tt).

(** Two entries with the same creation date. *)
Definition twin (e : LedgerEntry) (h : string) : LedgerEntry :=
  mkLedgerEntry (eventType e) (poemId e) (authorId e) (contentHash e) (previousHash e)
    h (metadata e) (signature e) (witnessNodes e) (isVerified e) (createdAt e).

End Scenario.

(** Entries for the JSON-lines ledger: one as a caller may write it, and
    the one the login route writes, which carries a [timestamp] of its
    own. *)
Module LogScenario.

Definition clean_fs : FileSystem := mkFileSystem "" false.

Definition registered : list (string * json) :=
  [("type", JStr "USER_REGISTERED"); ("userId", JStr "u1");
   ("metadata", JObj [("ip", JStr "::1"); ("tries", JNum 2)])].

Definition login : list (string * json) :=
  [("type", JStr "USER_LOGIN"); ("userId", JStr "u1"); ("username", JStr "ann");
   ("timestamp", JStr "2023-11-14T22:13:19.998Z");
   ("metadata", JObj [("userAgent", JStr "curl/8.0"); ("ip", JStr "::1")])].

Definition poem_event : list (string * json) :=
  [("eventType", JStr "POEM_CREATED"); ("poemId", JStr "p1"); ("authorId", JStr "u1")].

Definition two_appends : list (list (string * json) * Z) :=
  [(registered, 1700000000000); (poem_event, 1700000001000)].

End LogScenario.

(* ===================================================================== *)
(** ** Checks of the platform model against known values *)

Example sha256_empty :
  Crypto.sha256_hex "" =
  "e3b0c44298fc1c149afbf4c8996fb92427ae41e4649b934ca495991b7852b855".
Proof. vm_compute. reflexivity. Qed.

Example sha256_abc :
  Crypto.sha256_hex "abc" =
  "ba7816bf8f01cfea414140de5dae2223b00361a396177a9cb410ff61f20015ad".
Proof. vm_compute. reflexivity. Qed.

Example sha256_two_blocks :
  Crypto.sha256_hex "abcdbcdecdefdefgefghfghighijhijkijkljklmklmnlmnomnopnopq" =
  "248d6a61d20638b8e5c026930c3e6039a33ce45964ff2167f6ecedd419db06c1".
Proof. vm_compute. reflexivity. Qed.

Example hmac_rfc4231_case2 :
  Crypto.hmac_sha256_hex "Jefe" "what do ya want for nothing?" =
  "5bdcc146bf60754e6a042426089575c75a003f089d2739839dec58b964ec3843".
Proof. vm_compute. reflexivity. Qed.

Example toISOString_epoch : JS.toISOString 0 = "1970-01-01T00:00:00.000Z".
Proof. vm_compute. reflexivity. Qed.

Example toISOString_2025 :
  JS.toISOString 1740787199999 = "2025-02-28T23:59:59.999Z".
Proof. vm_compute. reflexivity. Qed.

Example toISOString_leap :
  JS.toISOString 1709164800000 = "2024-02-29T00:00:00.000Z".
Proof. vm_compute. reflexivity. Qed.

Example toISOString_before_epoch :
  JS.toISOString (-1) = "1969-12-31T23:59:59.999Z".
Proof. vm_compute. reflexivity. Qed.

Example trim_split :
  JS.split_nl (JS.trim (" a" +++ String JS.nl ("" +++ String JS.nl ("b " +++ String JS.nl ""))))
  = ["a"; ""; "b"].
Proof. vm_compute. reflexivity. Qed.

Example stringify_object :
  JSON.stringify (JObj [("type", JStr "POEM_CREATED"); ("n", JNum (-12));
                        ("tags", JArr [JStr "a"; JBool true; JNull])])
  = "{" +++ q "type" +++ ":" +++ q "POEM_CREATED" +++ "," +++ q "n" +++ ":-12,"
        +++ q "tags" +++ ":[" +++ q "a" +++ ",true,null]}".
Proof. vm_compute. reflexivity. Qed.

Example parse_stringify_object :
  let v := JObj [("poemId", JStr "p1"); ("meta", JObj [("ip", JStr "::1"); ("k", JArr [])]);
                 ("count", JNum 3)] in
  JSON.parse (JSON.stringify v) = Ok v.
Proof. vm_compute. reflexivity. Qed.

Example parse_truncated :
  JSON.parse ("{" +++ q "poemId" +++ ":" +++ q "p2" +++ "," +++ q "eve") = Throw SyntaxError.
Proof. vm_compute. reflexivity. Qed.

Example parse_trailing_garbage : JSON.parse "{} x" = Throw SyntaxError.
Proof. vm_compute. reflexivity. Qed.

Example parse_leading_zero : JSON.parse "01" = Throw SyntaxError.
Proof. vm_compute. reflexivity. Qed.

Example parse_numbers :
  JSON.parse "[0, -7, 1.50, 2e3]" = Ok (JArr [JNum 0; JNum (-7); JReal "1.50"; JReal "2e3"]).
Proof. vm_compute. reflexivity. Qed.

(** Well-formed UTF-8: an accented letter, the euro sign and an emoji (two,
    three and four bytes); and what the decoder replaces: a stray
    continuation byte, overlong forms, a surrogate, a code point beyond
    U+10FFFF, a cut-off sequence, and the bytes 245..255. *)
Example utf8_text_accepts :
  map utf8_text
    ["plain ASCII"; of_bytes [195; 169]; of_bytes [226; 130; 172];
     of_bytes [240; 159; 152; 128]; of_bytes [239; 191; 189]; of_bytes [244; 143; 191; 191]]
  = [true; true; true; true; true; true].
Proof. vm_compute. reflexivity. Qed.

Example utf8_text_rejects :
  map utf8_text
    [of_bytes [128]; of_bytes [192; 128]; of_bytes [193; 191]; of_bytes [224; 128; 128];
     of_bytes [224; 159; 191]; of_bytes [237; 160; 128]; of_bytes [240; 143; 191; 191];
     of_bytes [244; 144; 128; 128]; of_bytes [195]; of_bytes [226; 130];
     of_bytes [245; 128; 128; 128]; of_bytes [255]; of_bytes [195; 40]]
  = [false; false; false; false; false; false; false; false; false; false;
     false; false; false].
Proof. vm_compute. reflexivity. Qed.

Example safe_integers :
  map safe_integer [0; -1; 9007199254740991; -9007199254740991;
                    9007199254740992; 9007199254740993; 10 ^ 21]
  = [true; true; true; true; false; false; false].
Proof. vm_compute. reflexivity. Qed.

Example scenario_digests :
  map (fun e => (contentHash e, blockHash e, signature e)) (collection Scenario.st1)
  = [("8c4ec5052720dce12eff521c3406e2e74ea5950f3c079fd66ae748ba778ab646",
      "eb796ba7562a714dc2998d66300c52e6c93c32846b890daf70e722f97cd35266",
      "ceee1a285d5c3c718af4dc59842bfbbe86d99b61b36670a28fc4c8956fc1e21e")].
Proof. vm_compute. reflexivity. Qed.

(** Entries created at the same instant keep the order of the collection
    in both sorts. *)
Example sorts_are_stable :
  let a := Scenario.twin Scenario.entry1 "a" in
  let b := Scenario.twin Scenario.entry1 "b" in
  sort_asc [a; Scenario.entry2; b] = [a; b; Scenario.entry2]
  /\ sort_desc [a; Scenario.entry2; b] = [Scenario.entry2; a; b].
Proof. vm_compute. split; reflexivity. Qed.

(** With the wiring of [server.js] the handler stops before the ledger
    step: the answer is 500 and no ledger entry is written.  It is the same
    in an application without file ledger, where every collaborator would
    succeed: the new document has no [copyrightYear] and is not saved. *)
Example post_poem_with_server_wiring :
  post_poem Scenario.sha256 Scenario.hmac_sha256 Scenario.server_env Scenario.dawn
    1700000000000 1700000000005 Scenario.empty
  = (mkResponse 500 "Server error creating poem", Scenario.empty).
Proof. vm_compute. reflexivity. Qed.

Example post_poem_without_file_ledger :
  Poem_save (Ok tt) 2023 (new_poem Scenario.sha256 Scenario.dawn)
  = Throw (ValidationError "copyrightYear")
  /\ post_poem Scenario.sha256 Scenario.hmac_sha256 Scenario.route_env Scenario.dawn
       1700000000000 1700000000005 Scenario.empty
     = (mkResponse 500 "Server error creating poem", Scenario.empty).
Proof. vm_compute. split; reflexivity. Qed.

Example scenario_chain_lengths :
  map (fun st => length (collection st)) [Scenario.st1; Scenario.st2; Scenario.st3; Scenario.st3']
  = [1; 2; 3; 3]%nat.
Proof. vm_compute. reflexivity. Qed.

(* ===================================================================== *)
(** ** The store: elementary facts *)

Lemma filter_all (l : list LedgerEntry) : List.filter (fun _ => true) l = l.
Proof. induction l as [|e l IH]; simpl; [reflexivity | now rewrite IH]. Qed.

Lemma find_available (c : LedgerEntry -> bool) (st : Store) :
  available st = true -> find c st = (Ok (List.filter c (collection st)), st).
Proof. intros Hav. unfold find. now rewrite Hav. Qed.

Lemma find_unavailable (c : LedgerEntry -> bool) (st : Store) :
  available st = false -> find c st = (Throw StoreUnavailable, st).
Proof. intros Hav. unfold find. now rewrite Hav. Qed.

(** A query never writes. *)
Lemma find_reads (c : LedgerEntry -> bool) (st : Store) : snd (find c st) = st.
Proof. unfold find. now destruct (available st). Qed.

(** A save that succeeds appended exactly the stamped entry of a new
    document, whose block hash was not yet in the collection. *)
Lemma save_ok (d d' : Document) (now : Z) (st st' : Store) :
  save d now st = (Ok d', st') ->
  isNew d = true /\ available st = true /\
  existsb (same_blockHash (blockHash (entry d))) (collection st) = false /\
  d' = mkDocument (stamp now (entry d)) false /\
  st' = with_collection st (collection st ++ [stamp now (entry d)]).
Proof.
  unfold save, pre_save.
  destruct (isNew d); simpl; [|discriminate].
  destruct (available st); simpl; [|discriminate].
  destruct (existsb _ _); [discriminate|].
  intros H. injection H as <- <-. auto.
Qed.

(** A save that fails leaves the store as it was. *)
Lemma save_throw (d : Document) (now : Z) (st st' : Store) (e : error) :
  save d now st = (Throw e, st') -> st' = st.
Proof.
  unfold save, pre_save.
  destruct (isNew d); simpl; [|now intros [= _ <-]].
  destruct (available st); simpl; [|now intros [= _ <-]].
  destruct (existsb _ _); [now intros [= _ <-] | discriminate].
Qed.

Section ServiceFacts.

Variable sha256 : string -> string.
Variable hmac_sha256 : string -> string -> string.

Local Abbreviation createPoemEntry := (createPoemEntry sha256 hmac_sha256).
Local Abbreviation updatePoemEntry := (updatePoemEntry sha256 hmac_sha256).
Local Abbreviation generateBlockHash := (generateBlockHash sha256).
Local Abbreviation generateSignature := (generateSignature hmac_sha256).

(** What a successful [createPoemEntry] has computed and stored. *)
Lemma createPoemEntry_ok (p : PoemData) (now savedAt : Z) (st st' : Store) (e : LedgerEntry) :
  createPoemEntry p now savedAt st = (Ok e, st') ->
  available st = true /\
  st' = with_collection st (collection st ++ [e]) /\
  existsb (same_blockHash (blockHash e)) (collection st) = false /\
  eventType e = POEM_CREATED /\ poemId e = _id p /\ authorId e = author_id (p_author p) /\
  createdAt e = Some savedAt /\ originalTimestamp (metadata e) = now /\
  previousHash e = option_map blockHash (head (sort_desc (collection st))) /\
  contentHash e =
    sha256 (p_title p +++ p_body p +++ author_text (p_author p) +++ JS.toISOString now) /\
  blockHash e =
    generateBlockHash (contentHash e) (previousHash e) (JS.toISOString now)
      (author_text (p_author p)) /\
  signature e =
    generateSignature (contentHash e +++ blockHash e +++ JS.toISOString now).
Proof.
  unfold createPoemEntry, findOne_latest, bindM, lift, ret, generateContentHash, find.
  destruct (available st) eqn:Hav; [|discriminate].
  rewrite filter_all.
  match goal with |- context [save ?d ?t ?s] => destruct (save d t s) as [[d'|err] s'] eqn:Hsave end;
    [|discriminate].
  intros H. injection H as <- <-.
  apply save_ok in Hsave as (_ & _ & Hfresh & -> & ->).
  simpl in *.
  repeat split; try reflexivity; try assumption.
  all: now destruct (head (sort_desc (collection st))).
Qed.

(** What a successful [updatePoemEntry] has computed and stored. *)
Lemma updatePoemEntry_ok (p : PoemData) (now savedAt : Z) (st st' : Store) (e : LedgerEntry) :
  updatePoemEntry p now savedAt st = (Ok e, st') ->
  exists prev : LedgerEntry,
    head (sort_desc (List.filter (has_poemId (_id p)) (collection st))) = Some prev /\
    available st = true /\
    st' = with_collection st (collection st ++ [e]) /\
    existsb (same_blockHash (blockHash e)) (collection st) = false /\
    eventType e = POEM_UPDATED /\ poemId e = _id p /\ authorId e = author_id (p_author p) /\
    createdAt e = Some savedAt /\ originalTimestamp (metadata e) = now /\
    previousHash e = Some (blockHash prev) /\
    contentHash e =
      sha256 (p_title p +++ p_body p +++ author_text (p_author p) +++ JS.toISOString now) /\
    blockHash e =
      generateBlockHash (contentHash e) (previousHash e) (JS.toISOString now)
      (author_text (p_author p)) /\
    signature e =
      generateSignature (contentHash e +++ blockHash e +++ JS.toISOString now).
Proof.
  unfold updatePoemEntry, findOne_latest, bindM, lift, ret, throw, generateContentHash, find.
  destruct (available st) eqn:Hav; [|discriminate].
  destruct (head (sort_desc (List.filter (has_poemId (_id p)) (collection st))))
    as [prev|] eqn:Hprev; [|discriminate].
  match goal with |- context [save ?d ?t ?s] => destruct (save d t s) as [[d'|err] s'] eqn:Hsave end;
    [|discriminate].
  intros H. injection H as <- <-.
  apply save_ok in Hsave as (_ & _ & Hfresh & -> & ->).
  simpl in *.
  exists prev. repeat split; try reflexivity; assumption.
Qed.

(** A failed append leaves the collection as it was. *)
Lemma createPoemEntry_throw (p : PoemData) (now savedAt : Z) (st st' : Store) (err : error) :
  createPoemEntry p now savedAt st = (Throw err, st') -> st' = st.
Proof.
  unfold createPoemEntry, findOne_latest, bindM, lift, ret, generateContentHash, find.
  destruct (available st) eqn:Hav; [|now intros [= _ <-]].
  match goal with |- context [save ?d ?t ?s] => destruct (save d t s) as [[d'|e'] s'] eqn:Hsave end;
    [discriminate|].
  intros [= _ <-]. now apply save_throw in Hsave.
Qed.

Lemma updatePoemEntry_throw (p : PoemData) (now savedAt : Z) (st st' : Store) (err : error) :
  updatePoemEntry p now savedAt st = (Throw err, st') -> st' = st.
Proof.
  unfold updatePoemEntry, findOne_latest, bindM, lift, ret, throw, generateContentHash, find.
  destruct (available st) eqn:Hav; [|now intros [= _ <-]].
  destruct (head (sort_desc (List.filter (has_poemId (_id p)) (collection st))))
    as [prev|] eqn:Hprev; [|now intros [= _ <-]].
  match goal with |- context [save ?d ?t ?s] => destruct (save d t s) as [[d'|e'] s'] eqn:Hsave end;
    [discriminate|].
  intros [= _ <-]. now apply save_throw in Hsave.
Qed.

End ServiceFacts.

(* ===================================================================== *)
(** ** Chain verification: what it reads and what it decides *)

Lemma link_broken_false (prev cur : LedgerEntry) :
  link_broken prev cur = false <-> previousHash cur = Some (blockHash prev).
Proof.
  unfold link_broken. destruct (previousHash cur) as [h|].
  - rewrite negb_false_iff, String.eqb_eq. split; [now intros -> | now intros [= ->]].
  - split; discriminate.
Qed.

(** The loop holds exactly when every entry after the first names the block
    hash of the entry just before it. *)
Lemma links_hold_lookup (first : LedgerEntry) (rest : list LedgerEntry) :
  links_hold first rest = true <->
  forall (i : nat) (prev cur : LedgerEntry),
    (first :: rest) !! i = Some prev -> (first :: rest) !! S i = Some cur ->
    previousHash cur = Some (blockHash prev).
Proof.
  revert first. induction rest as [|c rest IH]; intros first; simpl.
  - split; [|reflexivity]. intros _ i prev cur _ Hcur. destruct i; discriminate.
  - destruct (link_broken first c) eqn:Hlink.
    + split; [discriminate|]. intros Hall.
      assert (previousHash c = Some (blockHash first)) as Hc by (apply (Hall 0%nat); reflexivity).
      apply link_broken_false in Hc. congruence.
    + rewrite IH. apply link_broken_false in Hlink. split.
      * intros Hall [|i] prev cur Hprev Hcur.
        -- simpl in Hprev, Hcur. now injection Hprev as <-; injection Hcur as <-.
        -- apply (Hall i); assumption.
      * intros Hall i prev cur Hprev Hcur. apply (Hall (S i)); assumption.
Qed.

Lemma chain_linked_lookup (chain : list LedgerEntry) :
  chain_linked chain = true <->
  forall (i : nat) (prev cur : LedgerEntry),
    chain !! i = Some prev -> chain !! S i = Some cur ->
    previousHash cur = Some (blockHash prev).
Proof.
  destruct chain as [|first rest]; simpl.
  - split; [|reflexivity]. intros _ i prev cur Hprev _. destruct i; discriminate.
  - apply links_hold_lookup.
Qed.

Lemma same_links_refl (e : LedgerEntry) : same_links e e.
Proof. now repeat split. Qed.

Lemma with_contentHash_same_links (h : string) (e : LedgerEntry) :
  same_links e (with_contentHash h e).
Proof. now repeat split. Qed.

Lemma alter_same_links (h : string) (i : nat) (l : list LedgerEntry) :
  Forall2 same_links l (alter (with_contentHash h) i l).
Proof.
  revert i. induction l as [|e l IH]; intros i; [constructor|].
  destruct i as [|i]; simpl; constructor.
  - apply with_contentHash_same_links.
  - clear IH. induction l; constructor; [apply same_links_refl | assumption].
  - apply same_links_refl.
  - apply IH.
Qed.

Lemma filter_same_links (id : string) (l l' : list LedgerEntry) :
  Forall2 same_links l l' ->
  Forall2 same_links (List.filter (has_poemId id) l) (List.filter (has_poemId id) l').
Proof.
  induction 1 as [|e e' l l' He Hl IH]; simpl; [constructor|].
  assert (has_poemId id e' = has_poemId id e) as ->
    by (unfold has_poemId; now rewrite (proj1 He)).
  destruct (has_poemId id e); [constructor|]; assumption.
Qed.

Lemma created_leb_same_links (a a' b b' : LedgerEntry) :
  same_links a a' -> same_links b b' -> created_leb a b = created_leb a' b'.
Proof.
  intros (_ & Ha & _) (_ & Hb & _). unfold created_leb. now rewrite Ha, Hb.
Qed.

Lemma insert_asc_same_links (e e' : LedgerEntry) (l l' : list LedgerEntry) :
  same_links e e' -> Forall2 same_links l l' ->
  Forall2 same_links (insert_asc e l) (insert_asc e' l').
Proof.
  intros He. induction 1 as [|x x' l l' Hx Hl IH]; simpl.
  - constructor; [assumption | constructor].
  - rewrite (created_leb_same_links e e' x x' He Hx).
    destruct (created_leb e' x').
    + constructor; [assumption|]. now constructor.
    + now constructor.
Qed.

Lemma sort_asc_same_links (l l' : list LedgerEntry) :
  Forall2 same_links l l' -> Forall2 same_links (sort_asc l) (sort_asc l').
Proof.
  induction 1 as [|e e' l l' He Hl IH]; simpl; [constructor|].
  now apply insert_asc_same_links.
Qed.

Lemma link_broken_same_links (a a' b b' : LedgerEntry) :
  same_links a a' -> same_links b b' -> link_broken a b = link_broken a' b'.
Proof.
  intros (_ & _ & _ & Ha) (_ & _ & Hb & _). unfold link_broken. now rewrite Ha, Hb.
Qed.

Lemma links_hold_same_links (p p' : LedgerEntry) (l l' : list LedgerEntry) :
  same_links p p' -> Forall2 same_links l l' -> links_hold p l = links_hold p' l'.
Proof.
  intros Hp Hl. revert p p' Hp.
  induction Hl as [|x x' l l' Hx Hl IH]; intros p p' Hp; simpl; [reflexivity|].
  rewrite (link_broken_same_links p p' x x' Hp Hx).
  destruct (link_broken p' x'); [reflexivity | now apply IH].
Qed.

Lemma chain_linked_same_links (l l' : list LedgerEntry) :
  Forall2 same_links l l' -> chain_linked l = chain_linked l'.
Proof.
  destruct 1 as [|x x' l l' Hx Hl]; simpl; [reflexivity|].
  now apply links_hold_same_links.
Qed.

(** The verdict of [verifyChainIntegrity], spelled out. *)
Lemma verifyChainIntegrity_eq (id : string) (st : Store) :
  verifyChainIntegrity id st =
  (if available st
   then Ok (chain_linked (sort_asc (List.filter (has_poemId id) (collection st))))
   else Throw StoreUnavailable, st).
Proof.
  unfold verifyChainIntegrity, bindM, find, ret. now destruct (available st).
Qed.

(** C1 (as the code has it).  [verifyChainIntegrity] answers with a boolean
    and decides it by linkage alone: over the entries of the subject in
    creation order it is [true] exactly when every entry after the first
    carries, as [previousHash], the [blockHash] of the entry before it.  No
    block hash or signature is recomputed and no position is reported, so
    whatever is written over the [contentHash] of any stored entry, the
    answer stays as it was. *)
Theorem verifyChainIntegrity_checks_links_only (id : string) (st : Store) :
  let chain := sort_asc (List.filter (has_poemId id) (collection st)) in
  verifyChainIntegrity id st =
    (if available st then Ok (chain_linked chain) else Throw StoreUnavailable, st)
  /\ (chain_linked chain = true <->
      forall (i : nat) (prev cur : LedgerEntry),
        chain !! i = Some prev -> chain !! S i = Some cur ->
        previousHash cur = Some (blockHash prev))
  /\ (forall (i : nat) (h : string),
        fst (verifyChainIntegrity id (tamper_contentHash i h st)) =
        fst (verifyChainIntegrity id st)).
Proof.
  intros chain. split; [apply verifyChainIntegrity_eq|].
  split; [apply chain_linked_lookup|].
  intros i h. rewrite !verifyChainIntegrity_eq. simpl.
  destruct (available st); [|reflexivity].
  f_equal. symmetry. apply chain_linked_same_links, sort_asc_same_links,
    filter_same_links, alter_same_links.
Qed.

(** *** The two sorts *)

Lemma created_leb_total (a b : LedgerEntry) :
  created_leb a b = false -> created_leb b a = true.
Proof.
  unfold created_leb. destruct (createdAt a), (createdAt b); try easy.
  rewrite Z.leb_gt, Z.leb_le. lia.
Qed.

Lemma created_leb_trans (a b c : LedgerEntry) :
  created_leb a b = true -> created_leb b c = true -> created_leb a c = true.
Proof.
  unfold created_leb. destruct (createdAt a), (createdAt b), (createdAt c); try easy.
  rewrite !Z.leb_le. lia.
Qed.

Lemma insert_asc_perm (e : LedgerEntry) (l : list LedgerEntry) :
  Permutation (insert_asc e l) (e :: l).
Proof.
  induction l as [|x l IH]; simpl; [reflexivity|].
  destruct (created_leb e x); [reflexivity|].
  rewrite IH. apply perm_swap.
Qed.

Lemma sort_asc_perm (l : list LedgerEntry) : Permutation (sort_asc l) l.
Proof.
  induction l as [|e l IH]; simpl; [reflexivity|].
  rewrite insert_asc_perm. now constructor.
Qed.

Lemma insert_asc_sorted (e : LedgerEntry) (l : list LedgerEntry) :
  StronglySorted earlier l -> StronglySorted earlier (insert_asc e l).
Proof.
  induction 1 as [|x l Hl IH Hx]; simpl.
  - repeat constructor.
  - destruct (created_leb e x) eqn:Hcmp.
    + constructor; [now constructor|]. constructor; [exact Hcmp|].
      eapply List.Forall_impl; [|exact Hx]. intros y Hy.
      exact (created_leb_trans e x y Hcmp Hy).
    + constructor; [exact IH|].
      rewrite (List.Forall_forall (earlier x)). intros y Hy.
      apply (Permutation_in _ (insert_asc_perm e l)) in Hy as [<-|Hy].
      * now apply created_leb_total.
      * now apply (proj1 (List.Forall_forall _ _) Hx).
Qed.

Lemma sort_asc_sorted (l : list LedgerEntry) : StronglySorted earlier (sort_asc l).
Proof.
  induction l as [|e l IH]; simpl; [constructor | now apply insert_asc_sorted].
Qed.

Lemma insert_desc_perm (e : LedgerEntry) (l : list LedgerEntry) :
  Permutation (insert_desc e l) (e :: l).
Proof.
  induction l as [|x l IH]; simpl; [reflexivity|].
  destruct (created_leb x e); [reflexivity|].
  rewrite IH. apply perm_swap.
Qed.

Lemma sort_desc_perm (l : list LedgerEntry) : Permutation (sort_desc l) l.
Proof.
  induction l as [|e l IH]; simpl; [reflexivity|].
  rewrite insert_desc_perm. now constructor.
Qed.

Lemma insert_desc_sorted (e : LedgerEntry) (l : list LedgerEntry) :
  StronglySorted later l -> StronglySorted later (insert_desc e l).
Proof.
  induction 1 as [|x l Hl IH Hx]; simpl.
  - repeat constructor.
  - destruct (created_leb x e) eqn:Hcmp.
    + constructor; [now constructor|]. constructor; [exact Hcmp|].
      eapply List.Forall_impl; [|exact Hx]. intros y Hy.
      exact (created_leb_trans y x e Hy Hcmp).
    + constructor; [exact IH|].
      rewrite (List.Forall_forall (later x)). intros y Hy.
      apply (Permutation_in _ (insert_desc_perm e l)) in Hy as [<-|Hy].
      * now apply created_leb_total.
      * now apply (proj1 (List.Forall_forall _ _) Hx).
Qed.

Lemma sort_desc_sorted (l : list LedgerEntry) : StronglySorted later (sort_desc l).
Proof.
  induction l as [|e l IH]; simpl; [constructor | now apply insert_desc_sorted].
Qed.

(** The head of the descending sort is an entry of the list and none was
    created after it. *)
Lemma head_sort_desc_latest (l : list LedgerEntry) (tip : LedgerEntry) :
  head (sort_desc l) = Some tip ->
  In tip l /\ forall e, In e l -> created_leb e tip = true.
Proof.
  intros Hhead.
  pose proof (sort_desc_sorted l) as Hs. pose proof (sort_desc_perm l) as Hp.
  destruct (sort_desc l) as [|x r]; [discriminate|]. injection Hhead as ->.
  split; [apply (Permutation_in _ Hp); now left|].
  intros e He. apply (Permutation_in _ (Permutation_sym Hp)) in He as [<-|He].
  - unfold created_leb. destruct (createdAt tip); [apply Z.leb_refl | reflexivity].
  - apply StronglySorted_inv in Hs as [_ Hall].
    now apply (proj1 (List.Forall_forall _ _) Hall).
Qed.

Lemma last_nonempty_default (x : LedgerEntry) (l : list LedgerEntry) (d d' : LedgerEntry) :
  List.last (x :: l) d = List.last (x :: l) d'.
Proof.
  revert x. induction l as [|y l IH]; intros x; [reflexivity|].
  change (List.last (y :: l) d = List.last (y :: l) d'). apply IH.
Qed.

Lemma last_nonempty_In (x : LedgerEntry) (l : list LedgerEntry) (d : LedgerEntry) :
  In (List.last (x :: l) d) (x :: l).
Proof.
  revert x. induction l as [|y l IH]; intros x; [now left|].
  right. change (In (List.last (y :: l) d) (y :: l)). apply IH.
Qed.

(** The last entry of the ascending sort is an entry of the list and none
    was created after it. *)
Lemma last_sorted_latest (l : list LedgerEntry) (d : LedgerEntry) :
  StronglySorted earlier l -> forall e, In e l -> created_leb e (List.last l d) = true.
Proof.
  induction 1 as [|x l Hl IH Hx]; intros e He; [destruct He|].
  destruct l as [|y l'].
  - destruct He as [->|[]]. simpl. unfold created_leb.
    destruct (createdAt e); [apply Z.leb_refl | reflexivity].
  - change (List.last (x :: y :: l') d) with (List.last (y :: l') d).
    destruct He as [->|He]; [|now apply IH].
    apply (created_leb_trans e y); [|apply IH; now left].
    apply (proj1 (List.Forall_forall _ _) Hx). now left.
Qed.

(* ===================================================================== *)
(** ** The claims about the chained ledger *)

(** C1, refuted as stated.  In the run Dawn, Dusk, Dawn-updated, the first
    byte of the [contentHash] of Dawn's first entry is flipped in the
    database.  The stored hash has changed, and both verifications of Dawn
    still answer valid: no break is reported at that entry or anywhere. *)
Lemma tampered_contentHash_passes_verification :
  let id := _id Scenario.dawn in
  let stored := "8c4ec5052720dce12eff521c3406e2e74ea5950f3c079fd66ae748ba778ab646" in
  let st' := tamper_contentHash 0 (flip_first_byte stored) Scenario.st3 in
  option_map contentHash (collection Scenario.st3 !! 0%nat) = Some stored
  /\ option_map contentHash (collection st' !! 0%nat) = Some (flip_first_byte stored)
  /\ flip_first_byte stored <> stored
  /\ fst (verifyChainIntegrity id st') = Ok true
  /\ verdict (fst (verifyAuthorship Scenario.sha256 id
                     (Some (Scenario.content_at Scenario.dawn' 1700000002000)) st'))
     = Some true.
Proof. vm_compute. repeat split; try reflexivity. discriminate. Qed.

Section ChainClaims.

Variable sha256 : string -> string.
Variable hmac_sha256 : string -> string -> string.

Local Abbreviation createPoemEntry := (createPoemEntry sha256 hmac_sha256).
Local Abbreviation updatePoemEntry := (updatePoemEntry sha256 hmac_sha256).
Local Abbreviation generateBlockHash := (generateBlockHash sha256).
Local Abbreviation generateSignature := (generateSignature hmac_sha256).
Local Abbreviation verifyAuthorship := (verifyAuthorship sha256).

(** C2.  [createPoemEntry] records as [previousHash] the block hash of the
    entry of the whole collection that was created last, whatever its poem;
    [verifyChainIntegrity] assembles the chain from the entries of one poem.
    The two scopes disagree: starting from the empty ledger, let subject A
    be created, then subject B, then an entry of A be created again.  The
    third entry points to the entry of B, the chain that verification
    assembles for A holds only A's two entries, so the entry's
    [previousHash] is not the block hash of its predecessor there, and the
    verification of A answers [false]. *)
Theorem chain_scope_mismatch
    (p : PoemData) (t s : Z) (e : LedgerEntry) (st st' : Store)
    (pA pB pA' : PoemData) (t1 s1 t2 s2 t3 s3 : Z)
    (e1 e2 e3 : LedgerEntry) (st1 st2 st3 : Store) :
  createPoemEntry p t s st = (Ok e, st') ->
  _id pA' = _id pA -> _id pB <> _id pA -> s1 < s2 -> s2 < s3 ->
  createPoemEntry pA t1 s1 (mkStore [] true) = (Ok e1, st1) ->
  createPoemEntry pB t2 s2 st1 = (Ok e2, st2) ->
  createPoemEntry pA' t3 s3 st2 = (Ok e3, st3) ->
  (previousHash e = option_map blockHash (head (sort_desc (collection st)))
   /\ (forall tip, head (sort_desc (collection st)) = Some tip ->
       In tip (collection st) /\
       forall x, In x (collection st) -> created_leb x tip = true)
   /\ verifyChainIntegrity (poemId e) st' =
      (Ok (chain_linked (sort_asc (List.filter (has_poemId (poemId e)) (collection st')))),
       st'))
  /\ head (sort_desc (collection st2)) = Some e2
  /\ (forall x, In x (collection st2) -> created_leb x e2 = true)
  /\ previousHash e3 = Some (blockHash e2)
  /\ poemId e2 <> poemId e3
  /\ getAuthorshipChain (_id pA) st3 = (Ok [e1; e3], st3)
  /\ previousHash e3 <> Some (blockHash e1)
  /\ verifyChainIntegrity (_id pA) st3 = (Ok false, st3).
Proof.
  intros H0 HidA HidB Hs12 Hs23 H1 H2 H3.
  split.
  { apply createPoemEntry_ok in H0 as (Hav & -> & _ & _ & _ & _ & _ & _ & Hprev & _).
    split; [exact Hprev|]. split; [intros tip; apply head_sort_desc_latest|].
    rewrite verifyChainIntegrity_eq. simpl. now rewrite Hav. }
  apply createPoemEntry_ok in H1 as (_ & -> & _ & _ & Hp1 & _ & Hc1 & _).
  apply createPoemEntry_ok in H2 as (_ & -> & Hfresh2 & _ & Hp2 & _ & Hc2 & _).
  apply createPoemEntry_ok in H3 as (_ & -> & _ & _ & Hp3 & _ & Hc3 & _ & Hprev3 & _).
  simpl in *.
  assert (created_leb e2 e1 = false) as Hlt21
    by (unfold created_leb; rewrite Hc1, Hc2; apply Z.leb_gt; lia).
  assert (created_leb e1 e3 = true) as Hlt13
    by (unfold created_leb; rewrite Hc1, Hc3; apply Z.leb_le; lia).
  rewrite Hlt21 in *. simpl in Hprev3.
  assert (blockHash e1 <> blockHash e2) as Hdistinct.
  { rewrite orb_false_r in Hfresh2. unfold same_blockHash in Hfresh2.
    now apply String.eqb_neq in Hfresh2. }
  assert (has_poemId (_id pA) e1 = true) as Hf1
    by (unfold has_poemId; rewrite Hp1; apply String.eqb_refl).
  assert (has_poemId (_id pA) e2 = false) as Hf2
    by (unfold has_poemId; rewrite Hp2; now apply String.eqb_neq).
  assert (has_poemId (_id pA) e3 = true) as Hf3
    by (unfold has_poemId; rewrite Hp3, HidA; apply String.eqb_refl).
  assert (link_broken e1 e3 = true) as Hbroken.
  { unfold link_broken. rewrite Hprev3. apply negb_true_iff, String.eqb_neq. congruence. }
  split; [reflexivity|]. split.
  { intros x [<-|[<-|[]]]; unfold created_leb; rewrite ?Hc1, Hc2; apply Z.leb_le; lia. }
  repeat split.
  - exact Hprev3.
  - rewrite Hp2, Hp3, HidA. exact HidB.
  - unfold getAuthorshipChain, bindM, find, ret. simpl.
    rewrite Hf1, Hf2, Hf3. simpl. now rewrite Hlt13.
  - rewrite Hprev3. congruence.
  - rewrite verifyChainIntegrity_eq. simpl.
    rewrite Hf1, Hf2, Hf3. simpl. rewrite Hlt13. simpl. now rewrite Hbroken.
Qed.

(** C9.  [updatePoemEntry] needs an earlier entry of the same poem.  When
    the collection has none, the call throws -- the service's own error when
    the database answers -- and the store is left as it was; and a call that
    succeeded found such an entry. *)
Theorem update_requires_prior_entry
    (p : PoemData) (now savedAt : Z) (st : Store) :
  List.filter (has_poemId (_id p)) (collection st) = [] ->
  updatePoemEntry p now savedAt st =
    (Throw (if available st
            then Error "No previous ledger entry found for poem update"
            else StoreUnavailable), st)
  /\ forall (p' : PoemData) (e : LedgerEntry) (st0 st' : Store),
       updatePoemEntry p' now savedAt st0 = (Ok e, st') ->
       exists prev, In prev (collection st0) /\ poemId prev = _id p'
                    /\ previousHash e = Some (blockHash prev).
Proof.
  intros Hnone. split.
  - unfold updatePoemEntry, findOne_latest, bindM, lift,
      ret, throw, generateContentHash, find.
    destruct (available st); [|reflexivity]. now rewrite Hnone.
  - intros p' e st0 st' Hok.
    apply updatePoemEntry_ok in Hok as (prev & Hhead & _ & _ & _ & _ & _ & _ & _ & _ & Hprev & _).
    exists prev. apply head_sort_desc_latest in Hhead as [Hin _].
    apply List.filter_In in Hin as [Hin Hid].
    repeat split; [exact Hin | | exact Hprev].
    unfold has_poemId in Hid. now apply String.eqb_eq in Hid.
Qed.


End ChainClaims.

(** *** The runs of the scenario *)

Example scenario_run1 :
  createPoemEntry Scenario.sha256 Scenario.hmac_sha256 Scenario.dawn
    1700000000000 1700000000005 Scenario.empty
  = (Ok Scenario.entry1, Scenario.st1).
Proof. vm_compute. reflexivity. Qed.

Example scenario_run2 :
  createPoemEntry Scenario.sha256 Scenario.hmac_sha256 Scenario.dusk
    1700000001000 1700000001005 Scenario.st1
  = (Ok Scenario.entry2, Scenario.st2).
Proof. vm_compute. reflexivity. Qed.

Example scenario_run3 :
  updatePoemEntry Scenario.sha256 Scenario.hmac_sha256 Scenario.dawn'
    1700000002000 1700000002005 Scenario.st2
  = (Ok Scenario.entry3, Scenario.st3).
Proof. vm_compute. reflexivity. Qed.

Example scenario_run3' :
  createPoemEntry Scenario.sha256 Scenario.hmac_sha256 Scenario.dawn'
    1700000002000 1700000002005 Scenario.st2
  = (Ok Scenario.entry3', Scenario.st3').
Proof. vm_compute. reflexivity. Qed.

(** In the run Dawn, Dusk, Dawn-updated every chain verifies: an update
    links to the latest entry of its own poem. *)
Example scenario_chains_verify :
  fst (verifyChainIntegrity (_id Scenario.dawn) Scenario.st3) = Ok true
  /\ fst (verifyChainIntegrity (_id Scenario.dusk) Scenario.st3) = Ok true
  /\ verdict (fst (verifyAuthorship Scenario.sha256 (_id Scenario.dawn)
                     (Some (Scenario.content_at Scenario.dawn' 1700000002000)) Scenario.st3))
     = Some true.
Proof. vm_compute. auto. Qed.

(** *** Witnesses *)

Lemma chain_scope_mismatch_witness :
  previousHash Scenario.entry3' = Some (blockHash Scenario.entry2)
  /\ previousHash Scenario.entry3' <> Some (blockHash Scenario.entry1)
  /\ getAuthorshipChain (_id Scenario.dawn) Scenario.st3'
     = (Ok [Scenario.entry1; Scenario.entry3'], Scenario.st3')
  /\ verifyChainIntegrity (_id Scenario.dawn) Scenario.st3' = (Ok false, Scenario.st3').
Proof.
  pose proof (chain_scope_mismatch Scenario.sha256 Scenario.hmac_sha256
                Scenario.dusk 1700000001000 1700000001005
                Scenario.entry2 Scenario.st1 Scenario.st2
                Scenario.dawn Scenario.dusk Scenario.dawn'
                1700000000000 1700000000005 1700000001000 1700000001005
                1700000002000 1700000002005
                Scenario.entry1 Scenario.entry2 Scenario.entry3'
                Scenario.st1 Scenario.st2 Scenario.st3'
                scenario_run2
                eq_refl ltac:(discriminate) ltac:(lia) ltac:(lia)
                scenario_run1 scenario_run2 scenario_run3')
    as (_ & _ & _ & Hprev & _ & Hchain & Hneq & Hverify).
  repeat split; assumption.
Defined.

(** C3, with the failing input.  An entry appended by [createPoemEntry]
    or [updatePoemEntry] stores as [blockHash] the SHA-256 of previous hash
    (["0"] for an absent or empty one), content hash, timestamp and the text
    of [`${author}`], and as [signature] the HMAC-SHA-256, under the
    service's key, of content hash, block hash and timestamp; the signature
    is recomputed from the stored fields.  The stored [authorId] is the
    author's id.  So the block hash is recomputed from the stored fields
    when the author was passed as an id, and not otherwise: the update of
    Dawn with the populated author, as [router.put('/:id')] calls it, stores
    the id and a block hash over the printed document, and
    [generateBlockHash] on the stored fields gives another digest. *)
Theorem blockHash_over_printed_author :
  fst (updatePoemEntry Scenario.sha256 Scenario.hmac_sha256 Scenario.dawn_populated
         1700000002000 1700000002005 Scenario.st2)
  = Ok Scenario.entry3_populated
  /\ authorId Scenario.entry3_populated = "64a000000000000000000001"
  /\ generateBlockHash Scenario.sha256
       (contentHash Scenario.entry3_populated) (previousHash Scenario.entry3_populated)
       (JS.toISOString (originalTimestamp (metadata Scenario.entry3_populated)))
       (authorId Scenario.entry3_populated)
     <> blockHash Scenario.entry3_populated
  /\ (forall (sha256 : string -> string) (hmac_sha256 : string -> string -> string)
             (p : PoemData) (now savedAt : Z) (st st' : Store) (e : LedgerEntry),
        createPoemEntry sha256 hmac_sha256 p now savedAt st = (Ok e, st') \/
        updatePoemEntry sha256 hmac_sha256 p now savedAt st = (Ok e, st') ->
        let timestamp := JS.toISOString (originalTimestamp (metadata e)) in
        let previous :=
          match previousHash e with
          | Some h => if String.eqb h "" then "0" else h
          | None => "0"
          end in
        In e (collection st')
        /\ authorId e = author_id (p_author p)
        /\ blockHash e
           = sha256 (previous +++ contentHash e +++ timestamp +++ author_text (p_author p))
        /\ signature e =
           hmac_sha256 "poets-codex-secret" (contentHash e +++ blockHash e +++ timestamp)
        /\ generateSignature hmac_sha256 (contentHash e +++ blockHash e +++ timestamp)
           = signature e
        /\ (author_text (p_author p) = authorId e ->
            generateBlockHash sha256 (contentHash e) (previousHash e) timestamp (authorId e)
            = blockHash e)
        /\ (collection st = [] -> previousHash e = None)).
Proof.
  split; [vm_compute; reflexivity|]. split; [vm_compute; reflexivity|].
  split; [vm_compute; discriminate|].
  intros sha256 hmac_sha256 p now savedAt st st' e [H|H]; cbv zeta.
  - apply createPoemEntry_ok in H
      as (_ & -> & _ & _ & _ & Ha & _ & Ht & Hprev & _ & Hb & Hs).
    rewrite Ht. repeat split.
    + simpl. apply in_or_app. right. now left.
    + exact Ha.
    + rewrite Hb at 1. unfold generateBlockHash, or_zero, JS.truthy.
      now destruct (previousHash e) as [h|]; [destruct (String.eqb h "")|].
    + exact Hs.
    + now symmetry.
    + intros <-. now symmetry.
    + intros Hempty. now rewrite Hprev, Hempty.
  - apply updatePoemEntry_ok in H
      as (prev & Hhead & _ & -> & _ & _ & _ & Ha & _ & Ht & Hprev & _ & Hb & Hs).
    rewrite Ht. repeat split.
    + simpl. apply in_or_app. right. now left.
    + exact Ha.
    + rewrite Hb at 1. unfold generateBlockHash, or_zero, JS.truthy.
      now destruct (previousHash e) as [h|]; [destruct (String.eqb h "")|].
    + exact Hs.
    + now symmetry.
    + intros <-. now symmetry.
    + intros Hempty. now rewrite Hempty in Hhead.
Qed.

Lemma update_requires_prior_entry_witness :
  updatePoemEntry Scenario.sha256 Scenario.hmac_sha256 Scenario.dusk
    1700000001000 1700000001005 Scenario.st1
  = (Throw (Error "No previous ledger entry found for poem update"), Scenario.st1).
Proof.
  exact (proj1 (update_requires_prior_entry Scenario.sha256 Scenario.hmac_sha256
                  Scenario.dusk 1700000001000 1700000001005 Scenario.st1 eq_refl)).
Defined.


(* ===================================================================== *)
(** ** Certificates *)

Section CertificateClaims.

Variable sha256 : string -> string.
Variable hmac_sha256 : string -> string -> string.

Local Abbreviation verifyAuthorship := (verifyAuthorship sha256).
Local Abbreviation seal := (seal sha256 hmac_sha256).
Local Abbreviation hashValid := (hashValid sha256).
Local Abbreviation signatureValid := (signatureValid hmac_sha256).
Local Abbreviation generateAuthorshipCertificate :=
  (generateAuthorshipCertificate sha256 hmac_sha256).
Local Abbreviation validateCertificate := (validateCertificate sha256 hmac_sha256).

(** A verification called without content throws before it reads the
    store. *)
Lemma verifyAuthorship_without_content (id : string) (st : Store) :
  verifyAuthorship id None st = (Throw ERR_INVALID_ARG_TYPE, st).
Proof. reflexivity. Qed.

(** Sealing writes the two digests and leaves the signed text as it was. *)
Lemma seal_certificateData (c0 c : Certificate) :
  seal c0 = Ok c ->
  certificateData c = certificateData c0
  /\ certificateHash c = sha256 (certificateData c0)
  /\ digitalSignature c = hmac_sha256 default_privateKey (certificateData c0).
Proof. unfold seal. simpl. intros [= <-]. now repeat split. Qed.

End CertificateClaims.

(** C4, at the failing input.  In the run Dawn, Dusk, Dawn-updated the chain
    of Dawn is valid for its current content; the certificate is still not
    issued: [generateAuthorshipCertificate] calls [verifyAuthorship] with
    the poem id alone, the content is [undefined], and hashing it throws.
    The same happens in every store, and in [validateCertificate]. *)
Theorem certificate_issuance_throws :
  verdict (fst (verifyAuthorship Scenario.sha256 (_id Scenario.dawn)
                  (Some (Scenario.content_at Scenario.dawn' 1700000002000)) Scenario.st3))
  = Some true
  /\ generateAuthorshipCertificate Scenario.sha256 Scenario.hmac_sha256
       (_id Scenario.dawn) "0b5e2d0c-6f0e-4c57-9f55-3d1c2a7b9e10"
       1700000003000 1700000003000 Scenario.st3
     = (Throw ERR_INVALID_ARG_TYPE, Scenario.st3)
  /\ (forall (sha256 : string -> string) (hmac_sha256 : string -> string -> string)
             (id uuid : string) (now now' : Z) (st : Store),
        generateAuthorshipCertificate sha256 hmac_sha256 id uuid now now' st
        = (Throw ERR_INVALID_ARG_TYPE, st))
  /\ (forall (sha256 : string -> string) (hmac_sha256 : string -> string -> string)
             (c : Certificate) (st : Store),
        validateCertificate sha256 hmac_sha256 c st = (Throw ERR_INVALID_ARG_TYPE, st)).
Proof.
  split; [vm_compute; reflexivity|]. repeat split.
Qed.

(** The chain of Dawn at issuance and after the update. *)
Example scenario_chain_grows :
  option_map (@length LedgerEntry) (match getAuthorshipChain (_id Scenario.dawn) Scenario.st1 with
                       | (Ok l, _) => Some l | _ => None end) = Some 1%nat
  /\ option_map (@length LedgerEntry) (match getAuthorshipChain (_id Scenario.dawn) Scenario.st3 with
                          | (Ok l, _) => Some l | _ => None end) = Some 2%nat.
Proof. vm_compute. auto. Qed.

(** C5, with the failing input.  The certificate over Dawn's one-entry
    chain is in issued form: its hash and its signature recompute from its
    own fields.  The chain has since grown to two entries.  Validating the
    certificate gives no report -- neither "intact but drifted" nor any
    other: [validateCertificate] calls [verifyAuthorship] with the poem id
    alone, and hashing the missing content throws.  So it is for every
    certificate in issued form, in every store. *)
Theorem certificate_validation_throws :
  seal Scenario.sha256 Scenario.hmac_sha256 Scenario.unsealed = Ok Scenario.certificate
  /\ chainLength Scenario.certificate = 1
  /\ hashValid Scenario.sha256 Scenario.certificate = Ok true
  /\ signatureValid Scenario.hmac_sha256 Scenario.certificate = true
  /\ fst (getAuthorshipChain (c_poemId Scenario.certificate) Scenario.st3)
     = Ok [Scenario.entry1; Scenario.entry3]
  /\ validateCertificate Scenario.sha256 Scenario.hmac_sha256 Scenario.certificate Scenario.st3
     = (Throw ERR_INVALID_ARG_TYPE, Scenario.st3)
  /\ (forall (sha256 : string -> string) (hmac_sha256 : string -> string -> string)
             (c0 c : Certificate) (st : Store),
        seal sha256 hmac_sha256 c0 = Ok c ->
        hashValid sha256 c = Ok true
        /\ signatureValid hmac_sha256 c = true
        /\ validateCertificate sha256 hmac_sha256 c st = (Throw ERR_INVALID_ARG_TYPE, st)).
Proof.
  do 6 (split; [vm_compute; reflexivity|]).
  intros sha256 hmac_sha256 c0 c st Hseal.
  apply seal_certificateData in Hseal as (Hdata & Hhash & Hsig).
  assert (hashValid sha256 c = Ok true) as Hh.
  { unfold hashValid. simpl. rewrite Hdata, Hhash. now rewrite String.eqb_refl. }
  assert (signatureValid hmac_sha256 c = true) as Hs.
  { unfold signatureValid, generateSignature. rewrite Hdata, Hsig. apply String.eqb_refl. }
  split; [exact Hh|]. split; [exact Hs|].
  unfold validateCertificate, bindM, lift, ret. now rewrite Hh.
Qed.

(* ===================================================================== *)
(** ** The JSON-lines ledger *)

(** One line that does not parse makes the parsing of all lines throw. *)
Lemma parse_lines_malformed (lines : list string) (line : string) (e : error) :
  In line lines -> JSON.parse line = Throw e ->
  exists e', parse_lines lines = Throw e'.
Proof.
  induction lines as [|l lines IH]; intros Hin Hbad; [destruct Hin|].
  simpl. destruct Hin as [->|Hin].
  - rewrite Hbad. now exists e.
  - destruct (JSON.parse l) as [v|e0]; [|now exists e0]. simpl.
    destruct (IH Hin Hbad) as [e' ->]. now exists e'.
Qed.

(** When every line parses and no filter is given, the entries are the
    parsed lines, in the order of the file. *)
Lemma getEntries_all_parsed (fs : FileSystem) (parsed : list json) :
  failing fs = false ->
  parse_lines (nonempty_lines (text fs)) = Ok parsed ->
  getEntries true no_filter fs = parsed.
Proof.
  intros Hfs Hparsed. unfold getEntries, read_entries, readFile. simpl.
  rewrite Hfs. simpl. now rewrite Hparsed.
Qed.

(** C6, refuted as stated.  The file holds one committed line and a second
    line cut off in the middle.  The committed line parses, and alone it is
    read back as one entry; with the cut-off line after it the read returns
    no entry at all. *)
Lemma truncated_file_reads_empty :
  nonempty_lines (text Scenario.truncated_file)
  = [Scenario.committed_line; Scenario.truncated_line]
  /\ JSON.parse Scenario.truncated_line = Throw SyntaxError
  /\ getEntries true no_filter Scenario.committed_file
     = [JObj [("type", JStr "USER_REGISTERED"); ("userId", JStr "u1");
              ("timestamp", JStr "2023-11-14T22:13:20.000Z"); ("entryHash", JStr "00")]]
  /\ getEntries true no_filter Scenario.truncated_file = [].
Proof. vm_compute. repeat split; reflexivity. Qed.

(** A line that does not parse empties the read, wherever it stands. *)
Lemma getEntries_malformed_line (ready : bool) (filter : Filter) (fs : FileSystem)
    (line : string) (e : error) :
  In line (nonempty_lines (text fs)) -> JSON.parse line = Throw e ->
  getEntries ready filter fs = [].
Proof.
  intros Hin Hbad. unfold getEntries.
  destruct ready; [|reflexivity]. simpl.
  unfold read_entries, readFile. destruct (failing fs); [reflexivity|]. simpl.
  destruct (parse_lines_malformed _ _ _ Hin Hbad) as [e' ->]. reflexivity.
Qed.

Lemma last_In_nonempty (l : list string) (line : string) :
  List.last l "" = line -> line <> "" -> In line l.
Proof.
  induction l as [|x l IH]; simpl; intros Hlast Hne; [congruence|].
  destruct l as [|y l']; [now left | right; now apply IH].
Qed.

(** C6 (as the code has it).  The lines are parsed inside one [try] whose
    [catch] returns the empty array.  So when the final line of the file, as
    [getEntries] splits it, is cut off or otherwise not valid JSON, the read
    returns no entry at all, whatever the lines before it hold and whatever
    the filter. *)
Theorem getEntries_malformed_final_line
    (ready : bool) (filter : Filter) (fs : FileSystem) (line : string) :
  List.last (JS.split_nl (JS.trim (text fs))) "" = line ->
  line <> "" ->
  JSON.parse line = Throw SyntaxError ->
  getEntries ready filter fs = [].
Proof.
  intros Hlast Hne Hbad.
  apply (getEntries_malformed_line ready filter fs line SyntaxError); [|exact Hbad].
  unfold nonempty_lines. apply List.filter_In. split.
  - now apply last_In_nonempty.
  - unfold JS.truthy. apply negb_true_iff. now apply String.eqb_neq.
Qed.

Lemma getEntries_malformed_final_line_witness :
  List.last (JS.split_nl (JS.trim (text Scenario.truncated_file))) ""
  = Scenario.truncated_line
  /\ getEntries true (mkFilter (Some "p1") None None) Scenario.truncated_file = [].
Proof.
  split; [vm_compute; reflexivity|].
  apply (getEntries_malformed_final_line true (mkFilter (Some "p1") None None)
           Scenario.truncated_file Scenario.truncated_line).
  - vm_compute. reflexivity.
  - discriminate.
  - vm_compute. reflexivity.
Defined.

(* ===================================================================== *)
(** ** Immutability of the collection *)

(** The reading methods leave the store as it was. *)
Lemma getAuthorshipChain_reads (id : string) (st : Store) :
  snd (getAuthorshipChain id st) = st.
Proof. unfold getAuthorshipChain, bindM, find, ret. now destruct (available st). Qed.

Lemma verifyAuthorship_reads (sha256 : string -> string) (id : string)
    (content : option string) (st : Store) :
  snd (verifyAuthorship sha256 id content st) = st.
Proof.
  unfold verifyAuthorship, bindM, lift, ret, generateContentHash.
  destruct content as [c|]; [|reflexivity].
  unfold getAuthorshipChain, bindM, find, ret.
  destruct (available st) eqn:Hav; [|reflexivity].
  destruct (sort_asc _) as [|first rest]; [reflexivity|].
  rewrite verifyChainIntegrity_eq, Hav.
  now destruct (chain_linked _).
Qed.



(** C7, at the failing input.  The schema means to prevent updates and
    deletions and hooks [save], [remove] and [deleteOne]; the other
    operations of the model are missed.  On the collection of the run Dawn,
    Dusk, Dawn-updated a [deleteMany] removes the three entries and an
    [updateOne] rewrites the [contentHash] of Dawn's first entry; neither is
    rejected. *)
Theorem unhooked_queries_change_the_ledger :
  length (collection Scenario.st3) = 3%nat
  /\ deleteMany (fun _ => true) Scenario.st3 = (Ok tt, Scenario.empty)
  /\ updateOne_contentHash (has_poemId (_id Scenario.dawn)) "00" Scenario.st3
     = (Ok tt, tamper_contentHash 0 "00" Scenario.st3)
  /\ option_map contentHash (collection (tamper_contentHash 0 "00" Scenario.st3) !! 0%nat)
     = Some "00"
  /\ option_map contentHash (collection Scenario.st3 !! 0%nat)
     = Some (contentHash Scenario.entry1)
  /\ contentHash Scenario.entry1 <> "00".
Proof. vm_compute. repeat split; try reflexivity. discriminate. Qed.


(* ===================================================================== *)
(** ** Failed appends *)

(** [FileLedger.append] has no result to report a failure with: when the
    ledger is not ready or the write throws, the log is as it was. *)
Lemma FileLedger_append_swallows (ready : bool) (eventType' : string) (payload : json)
    (now : Z) (fs : FileSystem) :
  ready = false \/ failing fs = true ->
  FileLedger_append ready eventType' payload now fs = fs.
Proof.
  intros Hfail. unfold FileLedger_append, appendFile.
  destruct ready; simpl; [|reflexivity].
  destruct Hfail as [Hready|Hfs]; [discriminate|]. now rewrite Hfs.
Qed.


Section FailedAppends.

Variable sha256 : string -> string.


End FailedAppends.


(* ===================================================================== *)
(** ** Further properties of the chained ledger *)

Lemma created_leb_antisym (a b : LedgerEntry) :
  created_leb a b = true -> created_leb b a = true -> createdAt a = createdAt b.
Proof.
  unfold created_leb. destruct (createdAt a), (createdAt b); try easy.
  rewrite !Z.leb_le. intros. f_equal. lia.
Qed.

Lemma NoDup_map_In_eq {A B : Type} (f : A -> B) (l : list A) (a b : A) :
  List.NoDup (map f l) -> In a l -> In b l -> f a = f b -> a = b.
Proof.
  induction l as [|x l IH]; simpl; intros Hnd Ha Hb Hf; [destruct Ha|].
  apply NoDup_cons_iff in Hnd as [Hx Hnd].
  destruct Ha as [->|Ha], Hb as [->|Hb]; try reflexivity.
  - exfalso. apply Hx. rewrite Hf. now apply in_map.
  - exfalso. apply Hx. rewrite <- Hf. now apply in_map.
  - now apply IH.
Qed.

Lemma NoDup_snoc {A : Type} (l : list A) (x : A) :
  List.NoDup l -> ~ In x l -> List.NoDup (l ++ [x]).
Proof.
  induction l as [|y l IH]; simpl; intros Hnd Hx.
  - constructor; [easy | constructor].
  - apply NoDup_cons_iff in Hnd as [Hy Hnd]. constructor.
    + rewrite in_app_iff. intros [Hin|[->|[]]]; [now apply Hy | apply Hx; now left].
    + apply IH; [exact Hnd|]. intros Hin. apply Hx. now right.
Qed.

Lemma insert_asc_snoc (x e : LedgerEntry) (m : list LedgerEntry) :
  created_leb x e = true -> insert_asc x (m ++ [e]) = insert_asc x m ++ [e].
Proof.
  intros Hxe. induction m as [|y m IH]; simpl.
  - now rewrite Hxe.
  - destruct (created_leb x y); [reflexivity | now rewrite IH].
Qed.

Lemma sort_asc_snoc (l : list LedgerEntry) (e : LedgerEntry) :
  (forall x, In x l -> created_leb x e = true) ->
  sort_asc (l ++ [e]) = sort_asc l ++ [e].
Proof.
  induction l as [|x l IH]; intros Hall; [reflexivity|].
  change (insert_asc x (sort_asc (l ++ [e])) = insert_asc x (sort_asc l) ++ [e]).
  rewrite IH by (intros y Hy; apply Hall; now right).
  apply insert_asc_snoc, Hall. now left.
Qed.

Lemma links_hold_snoc (first e : LedgerEntry) (rest : list LedgerEntry) :
  links_hold first (rest ++ [e]) =
  links_hold first rest && negb (link_broken (List.last rest first) e).
Proof.
  revert first. induction rest as [|c rest IH]; intros first.
  - simpl. now destruct (link_broken first e).
  - change ((c :: rest) ++ [e]) with (c :: (rest ++ [e])).
    cbn [links_hold]. destruct (link_broken first c); [reflexivity|].
    rewrite IH. f_equal. f_equal. f_equal.
    destruct rest as [|d rest']; [reflexivity|].
    change (List.last (d :: rest') c = List.last (d :: rest') first).
    apply last_nonempty_default.
Qed.

Lemma chain_linked_snoc (chain : list LedgerEntry) (e d : LedgerEntry) :
  chain <> [] ->
  chain_linked (chain ++ [e]) =
  chain_linked chain && negb (link_broken (List.last chain d) e).
Proof.
  destruct chain as [|first rest]; [easy|]. intros _.
  change (links_hold first (rest ++ [e]) =
          links_hold first rest && negb (link_broken (List.last (first :: rest) d) e)).
  rewrite links_hold_snoc. f_equal. f_equal. f_equal.
  destruct rest as [|c rest']; [reflexivity|].
  change (List.last (c :: rest') first = List.last (c :: rest') d).
  apply last_nonempty_default.
Qed.

Lemma all_before_leb (savedAt : Z) (l : list LedgerEntry) (e : LedgerEntry) :
  all_before savedAt l -> createdAt e = Some savedAt ->
  forall x, In x l -> created_leb x e = true.
Proof.
  intros Hall He x Hx. apply (proj1 (List.Forall_forall _ _) Hall) in Hx.
  unfold created_leb. rewrite He. destruct (createdAt x); [|reflexivity].
  apply Z.leb_le. lia.
Qed.

(** When no two entries carry the same date, the entry the descending sort
    puts first is the one the ascending sort puts last. *)
Lemma latest_is_last (l : list LedgerEntry) (tip : LedgerEntry) :
  List.NoDup (map createdAt l) -> head (sort_desc l) = Some tip ->
  forall d, List.last (sort_asc l) d = tip.
Proof.
  intros Hnd Hhead d.
  apply head_sort_desc_latest in Hhead as [Hin Hmax].
  pose proof (sort_asc_sorted l) as Hsorted. pose proof (sort_asc_perm l) as Hperm.
  destruct (sort_asc l) as [|x r] eqn:Hs.
  - apply Permutation_nil in Hperm. subst l. destruct Hin.
  - assert (In (List.last (x :: r) d) l) as Hlast
      by (apply (Permutation_in _ Hperm), last_nonempty_In).
    apply (NoDup_map_In_eq createdAt l); [exact Hnd | exact Hlast | exact Hin |].
    apply created_leb_antisym; [now apply Hmax|].
    apply last_sorted_latest; [exact Hsorted|].
    now apply (Permutation_in _ (Permutation_sym Hperm)).
Qed.

(** A verification sees the store through two things only. *)
Lemma verifyAuthorship_view (sha256 : string -> string) (id : string)
    (content : option string) (st1 st2 : Store) :
  available st1 = available st2 ->
  List.filter (has_poemId id) (collection st1) = List.filter (has_poemId id) (collection st2) ->
  fst (verifyAuthorship sha256 id content st1) = fst (verifyAuthorship sha256 id content st2).
Proof.
  intros Hav Hview.
  unfold verifyAuthorship, bindM, lift, ret, generateContentHash.
  destruct content as [c|]; [|reflexivity].
  unfold getAuthorshipChain, bindM, find, ret. rewrite Hav, Hview.
  destruct (available st2) eqn:Hav2; [|reflexivity].
  destruct (sort_asc _) as [|first rest] eqn:Hchain; [reflexivity|].
  rewrite !verifyChainIntegrity_eq, Hav, Hav2, Hview, Hchain.
  now destruct (chain_linked (first :: rest)).
Qed.

(** X1.  [getAuthorshipChain] returns the entries of the poem, all of them
    and no other, each as often as the collection holds it, ordered by
    creation date. *)
Theorem getAuthorshipChain_sorted_entries (id : string) (st : Store) :
  available st = true ->
  exists chain : list LedgerEntry,
    getAuthorshipChain id st = (Ok chain, st)
    /\ Permutation chain (List.filter (has_poemId id) (collection st))
    /\ StronglySorted earlier chain
    /\ (forall e, In e chain <-> In e (collection st) /\ poemId e = id).
Proof.
  intros Hav. exists (sort_asc (List.filter (has_poemId id) (collection st))).
  split; [|split; [apply sort_asc_perm | split; [apply sort_asc_sorted|]]].
  - unfold getAuthorshipChain, bindM, ret. now rewrite (find_available _ _ Hav).
  - intros e. split.
    + intros Hin. apply (Permutation_in _ (sort_asc_perm _)) in Hin.
      apply List.filter_In in Hin as [Hin Hid]. split; [exact Hin|].
      unfold has_poemId in Hid. now apply String.eqb_eq in Hid.
    + intros [Hin Hid]. apply (Permutation_in _ (Permutation_sym (sort_asc_perm _))).
      apply List.filter_In. split; [exact Hin|].
      unfold has_poemId. now apply String.eqb_eq.
Qed.

Lemma getAuthorshipChain_sorted_entries_witness :
  exists chain : list LedgerEntry,
    getAuthorshipChain (_id Scenario.dawn) Scenario.st3 = (Ok chain, Scenario.st3)
    /\ StronglySorted earlier chain.
Proof.
  destruct (getAuthorshipChain_sorted_entries (_id Scenario.dawn) Scenario.st3 eq_refl)
    as (chain & Hrun & _ & Hsorted & _).
  exists chain. split; assumption.
Defined.

(** *** The unique index *)

Lemma fresh_blockHash (h : string) (l : list LedgerEntry) :
  existsb (same_blockHash h) l = false -> ~ In h (map blockHash l).
Proof.
  intros Hfresh Hin. apply in_map_iff in Hin as (x & Hx & Hin).
  assert (existsb (same_blockHash h) l = true) as Hex.
  { apply existsb_exists. exists x. split; [exact Hin|].
    unfold same_blockHash. now apply String.eqb_eq. }
  congruence.
Qed.

Lemma run_op_keeps_unique (op : StoreOp) (st : Store) :
  List.NoDup (map blockHash (collection st)) ->
  List.NoDup (map blockHash (collection (snd (run_op op st)))).
Proof.
  intros Hnd. destruct op as [d now|d|c]; simpl; try exact Hnd.
  unfold bindM, ret. destruct (save d now st) as [[d'|err] st'] eqn:Hsave; simpl.
  - apply save_ok in Hsave as (_ & _ & Hfresh & _ & ->). simpl.
    rewrite map_app. apply NoDup_snoc; [exact Hnd|]. now apply fresh_blockHash.
  - now apply save_throw in Hsave as ->.
Qed.

Lemma run_call_keeps_unique (sha256 : string -> string)
    (hmac_sha256 : string -> string -> string) (c : Call) (st : Store) :
  List.NoDup (map blockHash (collection st)) ->
  List.NoDup (map blockHash (collection (run_call sha256 hmac_sha256 c st))).
Proof.
  intros Hnd.
  destruct c as [p now savedAt|p now savedAt|id content|id|id uuid now now'|c|op]; simpl.
  - destruct (createPoemEntry sha256 hmac_sha256 p now savedAt st) as [[e|err] st'] eqn:Hrun.
    + apply createPoemEntry_ok in Hrun as (_ & -> & Hfresh & _). simpl.
      rewrite map_app. apply NoDup_snoc; [exact Hnd|]. now apply fresh_blockHash.
    + now apply createPoemEntry_throw in Hrun as ->.
  - destruct (updatePoemEntry sha256 hmac_sha256 p now savedAt st) as [[e|err] st'] eqn:Hrun.
    + apply updatePoemEntry_ok in Hrun as (prev & _ & _ & -> & Hfresh & _). simpl.
      rewrite map_app. apply NoDup_snoc; [exact Hnd|]. now apply fresh_blockHash.
    + now apply updatePoemEntry_throw in Hrun as ->.
  - now rewrite verifyAuthorship_reads.
  - unfold getAuthorshipHistory. now rewrite getAuthorshipChain_reads.
  - exact Hnd.
  - exact Hnd.
  - now apply run_op_keeps_unique.
Qed.

(** X2.  The unique index on [blockHash] is an invariant of the ledger:
    from a collection without two entries of the same block hash, no
    sequence of calls, whatever the digest functions, reaches one that has
    two. *)
Theorem blockHash_stays_unique (sha256 : string -> string)
    (hmac_sha256 : string -> string -> string) (calls : list Call) (st : Store) :
  List.NoDup (map blockHash (collection st)) ->
  List.NoDup (map blockHash (collection (run_calls sha256 hmac_sha256 calls st))).
Proof.
  revert st. induction calls as [|c calls IH]; intros st Hnd; [exact Hnd|].
  simpl. apply IH. now apply run_call_keeps_unique.
Qed.

Lemma blockHash_stays_unique_witness :
  List.NoDup (map blockHash
           (collection (run_calls Scenario.sha256 Scenario.hmac_sha256
                          [CallCreate Scenario.dawn 1700000000000 1700000000005;
                           CallCreate Scenario.dawn 1700000000000 1700000000005;
                           CallUpdate Scenario.dawn' 1700000002000 1700000002005]
                          Scenario.empty))).
Proof.
  apply blockHash_stays_unique. simpl. constructor.
Defined.

(** *** Appends and the chains *)

(** X3.  An append for one poem is invisible to every other poem: the
    chain, the integrity verdict and the authorship verdict of any other
    subject are what they were. *)
Theorem append_leaves_other_poems (sha256 : string -> string)
    (hmac_sha256 : string -> string -> string)
    (p : PoemData) (now savedAt : Z) (st st' : Store) (e : LedgerEntry) (id : string) :
  createPoemEntry sha256 hmac_sha256 p now savedAt st = (Ok e, st') \/
  updatePoemEntry sha256 hmac_sha256 p now savedAt st = (Ok e, st') ->
  id <> _id p ->
  fst (getAuthorshipChain id st') = fst (getAuthorshipChain id st)
  /\ fst (verifyChainIntegrity id st') = fst (verifyChainIntegrity id st)
  /\ forall content : option string,
       fst (verifyAuthorship sha256 id content st') = fst (verifyAuthorship sha256 id content st).
Proof.
  intros Hrun Hid.
  assert (available st' = available st /\
          List.filter (has_poemId id) (collection st') =
          List.filter (has_poemId id) (collection st)) as [Hav Hview].
  { assert (has_poemId id e = false -> st' = with_collection st (collection st ++ [e]) ->
            available st' = available st /\
            List.filter (has_poemId id) (collection st') =
            List.filter (has_poemId id) (collection st)) as Hframe.
    { intros Hother ->. split; [reflexivity|]. simpl.
      rewrite List.filter_app. simpl. rewrite Hother. apply app_nil_r. }
    destruct Hrun as [Hrun|Hrun].
    - apply createPoemEntry_ok in Hrun as (_ & Hst & _ & _ & Hp & _).
      apply Hframe; [|exact Hst]. unfold has_poemId. rewrite Hp.
      apply String.eqb_neq. congruence.
    - apply updatePoemEntry_ok in Hrun as (prev & _ & _ & Hst & _ & _ & Hp & _).
      apply Hframe; [|exact Hst]. unfold has_poemId. rewrite Hp.
      apply String.eqb_neq. congruence. }
  split; [|split].
  - unfold getAuthorshipChain, bindM, find, ret. rewrite Hav, Hview.
    now destruct (available st).
  - rewrite !verifyChainIntegrity_eq. simpl. now rewrite Hav, Hview.
  - intros content. now apply verifyAuthorship_view.
Qed.

Lemma append_leaves_other_poems_witness :
  fst (verifyChainIntegrity (_id Scenario.dawn) Scenario.st2)
  = fst (verifyChainIntegrity (_id Scenario.dawn) Scenario.st1).
Proof.
  exact (proj1 (proj2 (append_leaves_other_poems Scenario.sha256 Scenario.hmac_sha256
                         Scenario.dusk 1700000001000 1700000001005
                         Scenario.st1 Scenario.st2 Scenario.entry2 (_id Scenario.dawn)
                         (or_introl scenario_run2) ltac:(discriminate)))).
Defined.

(** X4.  A first entry verifies: when the collection holds no entry of the
    poem, a successful [createPoemEntry] leaves a chain of exactly that
    entry, and [verifyAuthorship] with the text that was hashed -- title,
    body, author and the ISO timestamp of the call -- answers valid, with
    the poem's author as original author and no modification. *)
Theorem create_then_verify (sha256 : string -> string)
    (hmac_sha256 : string -> string -> string)
    (p : PoemData) (now savedAt : Z) (st st' : Store) (e : LedgerEntry) :
  createPoemEntry sha256 hmac_sha256 p now savedAt st = (Ok e, st') ->
  List.filter (has_poemId (_id p)) (collection st) = [] ->
  getAuthorshipChain (_id p) st' = (Ok [e], st')
  /\ verifyChainIntegrity (_id p) st' = (Ok true, st')
  /\ exists v : Verification,
       verifyAuthorship sha256 (_id p)
         (Some (p_title p +++ p_body p +++ author_text (p_author p) +++ JS.toISOString now)) st'
       = (Ok v, st')
       /\ isValid v = true
       /\ originalAuthor v = Some (author_id (p_author p))
       /\ totalModifications v = Some 0.
Proof.
  intros Hrun Hnone.
  apply createPoemEntry_ok in Hrun
    as (Hav & -> & _ & _ & Hp & Ha & _ & _ & _ & Hc & _).
  assert (List.filter (has_poemId (_id p)) (collection st ++ [e]) = [e]) as Hview.
  { rewrite List.filter_app, Hnone. simpl. unfold has_poemId.
    now rewrite Hp, String.eqb_refl. }
  assert (getAuthorshipChain (_id p) (with_collection st (collection st ++ [e]))
          = (Ok [e], with_collection st (collection st ++ [e]))) as Hchain.
  { unfold getAuthorshipChain, bindM, find, ret. simpl. now rewrite Hav, Hview. }
  assert (verifyChainIntegrity (_id p) (with_collection st (collection st ++ [e]))
          = (Ok true, with_collection st (collection st ++ [e]))) as Hint.
  { rewrite verifyChainIntegrity_eq. simpl. now rewrite Hav, Hview. }
  split; [exact Hchain|]. split; [exact Hint|].
  unfold verifyAuthorship, bindM, lift, ret, generateContentHash.
  rewrite Hchain, Hint. cbn [negb List.last].
  eexists. split; [reflexivity|]. cbn [isValid originalAuthor totalModifications].
  rewrite Hc, String.eqb_refl, Ha. now repeat split.
Qed.

Lemma create_then_verify_witness :
  getAuthorshipChain (_id Scenario.dusk) Scenario.st2 = (Ok [Scenario.entry2], Scenario.st2)
  /\ verifyChainIntegrity (_id Scenario.dusk) Scenario.st2 = (Ok true, Scenario.st2).
Proof.
  destruct (create_then_verify Scenario.sha256 Scenario.hmac_sha256
              Scenario.dusk 1700000001000 1700000001005
              Scenario.st1 Scenario.st2 Scenario.entry2 scenario_run2 eq_refl)
    as (Hchain & Hint & _).
  split; assumption.
Defined.

(** X5.  An update keeps a linked chain linked.  Let the entries of the
    poem carry different dates, all before the clock at the save, and let
    its chain be linked.  After a successful [updatePoemEntry] the chain is
    the old chain followed by the new entry, it is still linked, the dates
    are still different, and [verifyAuthorship] with the text that was
    hashed answers valid, counting one modification more. *)
Theorem update_extends_linked_chain (sha256 : string -> string)
    (hmac_sha256 : string -> string -> string)
    (p : PoemData) (now savedAt : Z) (st st' : Store) (e : LedgerEntry) :
  let chain := List.filter (has_poemId (_id p)) (collection st) in
  updatePoemEntry sha256 hmac_sha256 p now savedAt st = (Ok e, st') ->
  List.NoDup (map createdAt chain) ->
  all_before savedAt chain ->
  chain_linked (sort_asc chain) = true ->
  getAuthorshipChain (_id p) st' = (Ok (sort_asc chain ++ [e]), st')
  /\ verifyChainIntegrity (_id p) st' = (Ok true, st')
  /\ List.NoDup (map createdAt (List.filter (has_poemId (_id p)) (collection st')))
  /\ exists v : Verification,
       verifyAuthorship sha256 (_id p)
         (Some (p_title p +++ p_body p +++ author_text (p_author p) +++ JS.toISOString now)) st'
       = (Ok v, st')
       /\ isValid v = true
       /\ totalModifications v = Some (Z.of_nat (length chain)).
Proof.
  intros chain Hrun Hnd Hbefore Hlinked.
  apply updatePoemEntry_ok in Hrun
    as (prev & Hhead & Hav & -> & _ & _ & Hp & _ & Hcreated & _ & Hprev & Hc & _).
  fold chain in Hhead.
  assert (List.filter (has_poemId (_id p)) (collection st ++ [e]) = chain ++ [e]) as Hview.
  { rewrite List.filter_app. simpl. unfold has_poemId at 2.
    now rewrite Hp, String.eqb_refl. }
  assert (sort_asc (chain ++ [e]) = sort_asc chain ++ [e]) as Hsort
    by (apply sort_asc_snoc; now apply (all_before_leb savedAt)).
  assert (sort_asc chain <> []) as Hne.
  { intros Hempty. apply head_sort_desc_latest in Hhead as [Hin _].
    apply (Permutation_in _ (Permutation_sym (sort_asc_perm chain))) in Hin.
    rewrite Hempty in Hin. destruct Hin. }
  assert (chain_linked (sort_asc chain ++ [e]) = true) as Hlinked'.
  { rewrite (chain_linked_snoc _ e prev Hne), Hlinked.
    rewrite (latest_is_last chain prev Hnd Hhead). simpl.
    apply negb_true_iff, link_broken_false. exact Hprev. }
  assert (getAuthorshipChain (_id p) (with_collection st (collection st ++ [e]))
          = (Ok (sort_asc chain ++ [e]), with_collection st (collection st ++ [e])))
    as Hchain.
  { unfold getAuthorshipChain, bindM, find, ret. simpl. now rewrite Hav, Hview, Hsort. }
  assert (verifyChainIntegrity (_id p) (with_collection st (collection st ++ [e]))
          = (Ok true, with_collection st (collection st ++ [e]))) as Hint.
  { rewrite verifyChainIntegrity_eq. simpl. now rewrite Hav, Hview, Hsort, Hlinked'. }
  split; [exact Hchain|]. split; [exact Hint|]. split.
  - simpl. rewrite Hview, map_app. apply NoDup_snoc; [exact Hnd|].
    simpl. rewrite Hcreated. intros Hin. apply in_map_iff in Hin as (x & Hx & Hin).
    apply (proj1 (List.Forall_forall _ _) Hbefore) in Hin. rewrite Hx in Hin. lia.
  - unfold verifyAuthorship, bindM, lift, ret, generateContentHash.
    rewrite Hchain.
    destruct (sort_asc chain) as [|first rest] eqn:Hsorted; [now destruct Hne|].
    change ((first :: rest) ++ [e]) with (first :: (rest ++ [e])).
    cbv beta iota. rewrite Hint. cbn [negb].
    eexists. split; [reflexivity|]. cbn [isValid totalModifications].
    assert (List.last (first :: rest ++ [e]) first = e) as ->
      by (change (first :: rest ++ [e]) with ((first :: rest) ++ [e]); apply last_last).
    rewrite Hc, String.eqb_refl. split; [reflexivity|].
    f_equal. change (first :: rest ++ [e]) with ((first :: rest) ++ [e]).
    rewrite length_app, <- Hsorted. simpl.
    rewrite (Permutation_length (sort_asc_perm chain)). lia.
Qed.

Lemma update_extends_linked_chain_witness :
  getAuthorshipChain (_id Scenario.dawn') Scenario.st3
  = (Ok [Scenario.entry1; Scenario.entry3], Scenario.st3)
  /\ verifyChainIntegrity (_id Scenario.dawn') Scenario.st3 = (Ok true, Scenario.st3).
Proof.
  destruct (update_extends_linked_chain Scenario.sha256 Scenario.hmac_sha256
              Scenario.dawn' 1700000002000 1700000002005
              Scenario.st2 Scenario.st3 Scenario.entry3 scenario_run3)
    as (Hchain & Hint & _).
  - vm_compute. repeat constructor. intros [].
  - unfold all_before.
    assert (List.filter (has_poemId (_id Scenario.dawn')) (collection Scenario.st2)
            = [Scenario.entry1]) as -> by (vm_compute; reflexivity).
    constructor; [vm_compute; reflexivity | constructor].
  - vm_compute. reflexivity.
  - split; [exact Hchain | exact Hint].
Defined.

(** *** Statistics *)

Lemma count_eventType_cons (t : EventType) (e : LedgerEntry) (l : list LedgerEntry) :
  count_eventType t (e :: l) =
  (if EventType_eqb (eventType e) t then 1 else 0) + count_eventType t l.
Proof.
  unfold count_eventType. simpl.
  destruct (EventType_eqb (eventType e) t); simpl length; lia.
Qed.

Lemma count_eventType_total (l : list LedgerEntry) :
  count_eventType POEM_CREATED l + count_eventType POEM_UPDATED l
  + count_eventType POEM_DELETED l + count_eventType POEM_TRANSFERRED l
  = Z.of_nat (length l).
Proof.
  induction l as [|e l IH]; [reflexivity|].
  rewrite !count_eventType_cons. simpl length. rewrite Nat2Z.inj_succ.
  destruct (eventType e); simpl; lia.
Qed.

Lemma count_eventType_nonneg (t : EventType) (l : list LedgerEntry) :
  0 <= count_eventType t l.
Proof. unfold count_eventType. lia. Qed.

(** The object built from the groups holds, for each type, its count. *)
Lemma stat_of_groups (t : EventType) (l : list LedgerEntry) :
  stat_of t (to_object (group_by_eventType l) []) = count_eventType t l.
Proof.
  unfold group_by_eventType, all_EventTypes. cbn [map].
  pose proof (count_eventType_nonneg POEM_CREATED l) as H1.
  pose proof (count_eventType_nonneg POEM_UPDATED l) as H2.
  pose proof (count_eventType_nonneg POEM_DELETED l) as H3.
  pose proof (count_eventType_nonneg POEM_TRANSFERRED l) as H4.
  destruct t.
  all: remember (count_eventType POEM_CREATED l) as c1 eqn:Q1.
  all: remember (count_eventType POEM_UPDATED l) as c2 eqn:Q2.
  all: remember (count_eventType POEM_DELETED l) as c3 eqn:Q3.
  all: remember (count_eventType POEM_TRANSFERRED l) as c4 eqn:Q4.
  all: clear Q1 Q2 Q3 Q4; cbn [List.filter snd].
  all: destruct (0 <? c1) eqn:E1, (0 <? c2) eqn:E2, (0 <? c3) eqn:E3, (0 <? c4) eqn:E4;
    cbn; try reflexivity;
    repeat match goal with
           | H : (0 <? _) = false |- _ => apply Z.ltb_ge in H
           end; lia.
Qed.

Lemma nodup_length_le (l : list string) :
  (length (nodup string_dec l) <= length l)%nat.
Proof.
  induction l as [|x l IH]; simpl; [lia|].
  destruct (in_dec string_dec x l); simpl; lia.
Qed.

(** X6.  The statistics of [getLedgerStats] are consistent: the total is the
    number of entries, the counts of the four event types add up to it (a
    type without entry counts zero), and the number of different poems is
    at most the total and is zero only for the empty ledger. *)
Theorem ledger_stats_consistent (st : Store) :
  available st = true ->
  exists s : LedgerStats,
    getLedgerStats st = (Ok s, st)
    /\ totalEntries s = Z.of_nat (length (collection st))
    /\ (forall t, stat_of t (eventTypes s) = count_eventType t (collection st))
    /\ stat_of POEM_CREATED (eventTypes s) + stat_of POEM_UPDATED (eventTypes s)
       + stat_of POEM_DELETED (eventTypes s) + stat_of POEM_TRANSFERRED (eventTypes s)
       = totalEntries s
    /\ 0 <= uniquePoems s <= totalEntries s
    /\ (uniquePoems s = 0 <-> collection st = []).
Proof.
  intros Hav. unfold getLedgerStats, bindM, ret.
  rewrite !(find_available _ _ Hav), filter_all.
  eexists. split; [reflexivity|]. cbn [totalEntries eventTypes uniquePoems].
  split; [reflexivity|]. split; [intros t; apply stat_of_groups|].
  split; [rewrite !stat_of_groups; apply count_eventType_total|].
  unfold distinct. split.
  - pose proof (nodup_length_le (map poemId (collection st))) as Hle.
    rewrite length_map in Hle. lia.
  - split.
    + intros Hzero. destruct (collection st) as [|e l]; [reflexivity|]. exfalso.
      assert (In (poemId e) (nodup string_dec (map poemId (e :: l)))) as Hin
        by (apply nodup_In; now left).
      destruct (nodup string_dec (map poemId (e :: l))); [destruct Hin | simpl in Hzero; lia].
    + now intros ->.
Qed.

Lemma ledger_stats_consistent_witness :
  exists s : LedgerStats,
    getLedgerStats Scenario.st3 = (Ok s, Scenario.st3)
    /\ totalEntries s = 3 /\ uniquePoems s = 2
    /\ stat_of POEM_CREATED (eventTypes s) = 2 /\ stat_of POEM_UPDATED (eventTypes s) = 1.
Proof.
  destruct (ledger_stats_consistent Scenario.st3 eq_refl) as (s & Hrun & _).
  exists s. split; [exact Hrun|].
  vm_compute in Hrun. injection Hrun as <-. vm_compute. repeat split.
Defined.

(** *** What the service writes *)

(** X7.  The service only ever writes creations and updates: after any
    sequence of its methods, every entry that was not in the collection
    before has the event type [POEM_CREATED] or [POEM_UPDATED]; no method
    records a deletion or a transfer. *)
Theorem service_writes_creations_and_updates (sha256 : string -> string)
    (hmac_sha256 : string -> string -> string) (calls : list Call) (st : Store) :
  forallb service_call calls = true ->
  forall e : LedgerEntry,
    In e (collection (run_calls sha256 hmac_sha256 calls st)) ->
    In e (collection st) \/ eventType e = POEM_CREATED \/ eventType e = POEM_UPDATED.
Proof.
  revert st. induction calls as [|c calls IH]; intros st Hservice e Hin; [now left|].
  simpl in Hservice. apply andb_true_iff in Hservice as [Hc Hcalls].
  simpl in Hin. destruct (IH _ Hcalls e Hin) as [Hold|Hnew]; [|now right].
  clear IH Hin.
  destruct c as [p now savedAt|p now savedAt|id content|id|id uuid now now'|c|op];
    simpl in Hold; try discriminate Hc.
  - destruct (createPoemEntry sha256 hmac_sha256 p now savedAt st) as [[e'|err] st'] eqn:Hrun.
    + apply createPoemEntry_ok in Hrun as (_ & -> & _ & Htype & _). simpl in Hold.
      apply in_app_iff in Hold as [Hold|[<-|[]]]; [now left | right; now left].
    + apply createPoemEntry_throw in Hrun as ->. now left.
  - destruct (updatePoemEntry sha256 hmac_sha256 p now savedAt st) as [[e'|err] st'] eqn:Hrun.
    + apply updatePoemEntry_ok in Hrun as (prev & _ & _ & -> & _ & Htype & _). simpl in Hold.
      apply in_app_iff in Hold as [Hold|[<-|[]]]; [now left | right; now right].
    + apply updatePoemEntry_throw in Hrun as ->. now left.
  - rewrite verifyAuthorship_reads in Hold. now left.
  - unfold getAuthorshipHistory in Hold. rewrite getAuthorshipChain_reads in Hold. now left.
  - now left.
  - now left.
Qed.

Lemma service_writes_creations_and_updates_witness :
  Forall (fun e => eventType e = POEM_CREATED \/ eventType e = POEM_UPDATED)
    (collection (run_calls Scenario.sha256 Scenario.hmac_sha256
                   [CallCreate Scenario.dawn 1700000000000 1700000000005;
                    CallVerify (_id Scenario.dawn) None;
                    CallUpdate Scenario.dawn' 1700000002000 1700000002005]
                   Scenario.empty)).
Proof.
  apply List.Forall_forall. intros e Hin.
  destruct (service_writes_creations_and_updates Scenario.sha256 Scenario.hmac_sha256
              [CallCreate Scenario.dawn 1700000000000 1700000000005;
               CallVerify (_id Scenario.dawn) None;
               CallUpdate Scenario.dawn' 1700000002000 1700000002005]
              Scenario.empty eq_refl e Hin) as [[]|Hnew].
  exact Hnew.
Defined.

(** *** The creation handler *)

(** X8.  With the wiring of [server.js] -- a [FileBasedLedger] as
    [app.locals.fileLedger] -- the creation handler never reaches the ledger
    step: whatever the other collaborators do and whatever the store holds,
    the ledger collection is left as it was and the response is a 400 (the
    request did not validate) or the 500 of the outer [catch]. *)
Theorem post_poem_as_wired (sha256 : string -> string)
    (hmac_sha256 : string -> string -> string)
    (env : RouteEnv) (poem : PoemData) (t s : Z) (st : Store) :
  fileLedger env = Some AFileBasedLedger ->
  post_poem sha256 hmac_sha256 env poem t s st =
  (if validationErrors env
   then mkResponse 400 ""
   else mkResponse 500 "Server error creating poem", st).
Proof.
  intros Hwired. unfold post_poem, bindM, lift, ret.
  destruct (validationErrors env); [reflexivity|].
  destruct (Poem_save (poemSave env) (JS.getFullYear t) (new_poem sha256 poem))
    as [d|e1]; [|reflexivity].
  destruct (userUpdate env) as [[]|e2]; [|reflexivity].
  now rewrite Hwired.
Qed.

Lemma post_poem_as_wired_witness :
  post_poem Scenario.sha256 Scenario.hmac_sha256 Scenario.server_env Scenario.dawn
    1700000000000 1700000000005 Scenario.st2
  = (mkResponse 500 "Server error creating poem", Scenario.st2).
Proof.
  exact (post_poem_as_wired Scenario.sha256 Scenario.hmac_sha256 Scenario.server_env
           Scenario.dawn 1700000000000 1700000000005 Scenario.st2 eq_refl).
Defined.

(** The document the handler builds never passes the schema. *)
Lemma new_poem_invalid (sha256 : string -> string) (poem : PoemData)
    (insert : result unit) (year : Z) :
  exists path : string,
    Poem_save insert year (new_poem sha256 poem) = Throw (ValidationError path).
Proof.
  unfold Poem_save, Poem_validate, missing_paths, new_poem. cbn [doc_title doc_body
    doc_author doc_license doc_contentHash doc_copyrightYear missing_value].
  destruct (missing_string "title" _ ++ missing_string "body" _ ++ [] ++
            missing_string "license" _ ++ missing_string "contentHash" _
            ++ ["copyrightYear"]) as [|path rest] eqn:Hpaths.
  - exfalso. apply (f_equal (@length string)) in Hpaths.
    rewrite !length_app in Hpaths. simpl in Hpaths. lia.
  - now exists path.
Qed.

(** X9.  The creation handler never creates: the schema of [Poem] requires
    [copyrightYear], the handler builds the document without it, and the
    hook that would set it runs after validation.  So [poem.save()] throws
    for every request, whatever the database would do; the handler answers
    400 or 500 and leaves the ledger collection as it was, whichever
    services are installed. *)
Theorem post_poem_never_saves (sha256 : string -> string)
    (hmac_sha256 : string -> string -> string)
    (env : RouteEnv) (poem : PoemData) (t s : Z) (st : Store) :
  In "copyrightYear" (missing_paths (new_poem sha256 poem))
  /\ (exists path : string,
        Poem_save (poemSave env) (JS.getFullYear t) (new_poem sha256 poem)
        = Throw (ValidationError path))
  /\ post_poem sha256 hmac_sha256 env poem t s st =
     (if validationErrors env
      then mkResponse 400 ""
      else mkResponse 500 "Server error creating poem", st).
Proof.
  pose proof (new_poem_invalid sha256 poem (poemSave env) (JS.getFullYear t)) as Hsave.
  split.
  { unfold missing_paths, new_poem. cbn [doc_copyrightYear missing_value].
    rewrite !in_app_iff. do 5 right. now left. }
  split; [exact Hsave|].
  unfold post_poem, bindM, lift, ret.
  destruct (validationErrors env); [reflexivity|].
  destruct Hsave as [path ->]. reflexivity.
Qed.

(** X16.  The ledger step of the creation handler (lines 68-76) never
    throws: with no ledger service it does nothing; with one, an entry that
    [createPoemEntry] saves is in the collection afterwards, and an error
    that [createPoemEntry] throws is caught, with the collection as it
    was. *)
Theorem ledger_step_never_throws (sha256 : string -> string)
    (hmac_sha256 : string -> string -> string)
    (present : bool) (poem : PoemData) (t s : Z) (st : Store) :
  fst (ledger_step sha256 hmac_sha256 present poem t s st) = Ok tt
  /\ ledger_step sha256 hmac_sha256 false poem t s st = (Ok tt, st)
  /\ (forall (e : LedgerEntry) (st' : Store),
        createPoemEntry sha256 hmac_sha256 poem t s st = (Ok e, st') ->
        ledger_step sha256 hmac_sha256 true poem t s st
        = (Ok tt, with_collection st (collection st ++ [e])))
  /\ (forall (err : error) (st' : Store),
        createPoemEntry sha256 hmac_sha256 poem t s st = (Throw err, st') ->
        ledger_step sha256 hmac_sha256 true poem t s st = (Ok tt, st)).
Proof.
  split; [|split; [reflexivity|split]].
  - unfold ledger_step, try_catch, bindM, ret. destruct present; [|reflexivity].
    now destruct (createPoemEntry sha256 hmac_sha256 poem t s st) as [[e|err] st'].
  - intros e st' Hrun. unfold ledger_step, try_catch, bindM, ret. rewrite Hrun.
    now apply createPoemEntry_ok in Hrun as (_ & -> & _).
  - intros err st' Hthrow.
    pose proof (createPoemEntry_throw _ _ _ _ _ _ _ _ Hthrow) as ->.
    unfold ledger_step, try_catch, bindM, ret. now rewrite Hthrow.
Qed.

(* ===================================================================== *)
(** ** JSON texts: what [JSON.stringify] writes, [JSON.parse] reads back *)

Lemma append_assoc (a b c : string) : (a +++ b) +++ c = a +++ (b +++ c).
Proof. induction a as [|x a IH]; simpl; [reflexivity | now rewrite IH]. Qed.

Lemma append_empty_r (a : string) : a +++ "" = a.
Proof. induction a as [|x a IH]; simpl; [reflexivity | now rewrite IH]. Qed.

Lemma length_append (a b : string) :
  String.length (a +++ b) = (String.length a + String.length b)%nat.
Proof. induction a as [|x a IH]; simpl; [reflexivity | now rewrite IH]. Qed.

Lemma has_nl_append (a b : string) : has_nl (a +++ b) = has_nl a || has_nl b.
Proof.
  induction a as [|x a IH]; simpl; [reflexivity|]. now rewrite IH, orb_assoc.
Qed.

(** One character, escaped, is read back as that character. *)
Lemma string_body_escape (c : ascii) (r : string) :
  JSON.string_body (JSON.escape c +++ r) =
  match JSON.string_body r with
  | Some (body, rest) => Some (String c body, rest)
  | None => None
  end.
Proof.
  destruct c as [[] [] [] [] [] [] [] []]; reflexivity.
Qed.

Lemma escape_no_nl (c : ascii) : has_nl (JSON.escape c) = false.
Proof. destruct c as [[] [] [] [] [] [] [] []]; vm_compute; reflexivity. Qed.

Lemma string_body_escape_all (s rest : string) :
  JSON.string_body (JSON.escape_all s +++ String JSON.quote_char rest) = Some (s, rest).
Proof.
  induction s as [|c s IH]; [reflexivity|].
  cbn [JSON.escape_all]. rewrite append_assoc, string_body_escape. now rewrite IH.
Qed.

Lemma escape_all_no_nl (s : string) : has_nl (JSON.escape_all s) = false.
Proof.
  induction s as [|c s IH]; [reflexivity|].
  cbn [JSON.escape_all]. now rewrite has_nl_append, escape_no_nl, IH.
Qed.

Lemma quote_no_nl (s : string) : has_nl (JSON.quote s) = false.
Proof.
  unfold JSON.quote. cbn [has_nl]. rewrite has_nl_append, escape_all_no_nl. reflexivity.
Qed.

(** One step of each of the three parsers. *)
Lemma value_step (fuel : nat) (s : string) :
  JSON.value (S fuel) s =
  match JSON.skip_ws s with
  | EmptyString => None
  | String c r =>
      let n := JS.code c in
      if n =? 123 then
        match JSON.skip_ws r with
        | String c' r' =>
            if JS.code c' =? 125 then Some (JObj [], r')
            else JSON.members fuel (JSON.skip_ws r) []
        | EmptyString => None
        end
      else if n =? 91 then
        match JSON.skip_ws r with
        | String c' r' =>
            if JS.code c' =? 93 then Some (JArr [], r')
            else JSON.elements fuel (JSON.skip_ws r) []
        | EmptyString => None
        end
      else if n =? 34 then
        match JSON.string_body r with
        | Some (str, rest) => Some (JStr str, rest)
        | None => None
        end
      else if n =? 116 then option_map (pair (JBool true)) (JSON.expect "true" (String c r))
      else if n =? 102 then option_map (pair (JBool false)) (JSON.expect "false" (String c r))
      else if n =? 110 then option_map (pair JNull) (JSON.expect "null" (String c r))
      else JSON.number (String c r)
  end.
Proof. reflexivity. Qed.

Lemma elements_step (fuel : nat) (s : string) (acc : list json) :
  JSON.elements (S fuel) s acc =
  match JSON.value fuel s with
  | Some (v, rest) =>
      match JSON.skip_ws rest with
      | String c r =>
          if JS.code c =? 44 then JSON.elements fuel r (acc ++ [v])
          else if JS.code c =? 93 then Some (JArr (acc ++ [v]), r)
          else None
      | EmptyString => None
      end
  | None => None
  end.
Proof. reflexivity. Qed.

Lemma members_step (fuel : nat) (s : string) (acc : list (string * json)) :
  JSON.members (S fuel) s acc =
  match JSON.skip_ws s with
  | String q r =>
      if JS.code q =? 34 then
        match JSON.string_body r with
        | Some (k, rest) =>
            match JSON.skip_ws rest with
            | String colon r1 =>
                if JS.code colon =? 58 then
                  match JSON.value fuel r1 with
                  | Some (v, rest') =>
                      match JSON.skip_ws rest' with
                      | String c r2 =>
                          if JS.code c =? 44 then JSON.members fuel r2 (JSON.set k v acc)
                          else if JS.code c =? 125 then Some (JObj (JSON.set k v acc), r2)
                          else None
                      | EmptyString => None
                      end
                  | None => None
                  end
                else None
            | EmptyString => None
            end
        | None => None
        end
      else None
  | EmptyString => None
  end.
Proof. reflexivity. Qed.

Lemma value_quote (fuel : nat) (s rest : string) :
  JSON.value (S fuel) (JSON.quote s +++ rest) = Some (JStr s, rest).
Proof.
  rewrite value_step. unfold JSON.quote.
  change (String JSON.quote_char (JSON.escape_all s +++ String JSON.quote_char "") +++ rest)
    with (String JSON.quote_char
            ((JSON.escape_all s +++ String JSON.quote_char "") +++ rest)).
  rewrite append_assoc.
  change (String JSON.quote_char "" +++ rest) with (String JSON.quote_char rest).
  change (JSON.skip_ws (String JSON.quote_char ?x)) with (String JSON.quote_char x).
  cbv zeta.
  change (JS.code JSON.quote_char) with 34.
  change (34 =? 123) with false. change (34 =? 91) with false. change (34 =? 34) with true.
  cbv iota. now rewrite string_body_escape_all.
Qed.

(** *** Integers *)

Lemma code_chr (k : Z) : 0 <= k < 256 -> JS.code (JS.chr k) = k.
Proof.
  intros Hk. unfold JS.code, JS.chr.
  rewrite nat_ascii_embedding by lia. lia.
Qed.

Lemma chr_code (c : ascii) : JS.chr (JS.code c) = c.
Proof. unfold JS.code, JS.chr. now rewrite Nat2Z.id, ascii_nat_embedding. Qed.

Lemma all_digits_append (a b : string) :
  all_digits (a +++ b) = all_digits a && all_digits b.
Proof.
  induction a as [|x a IH]; simpl; [reflexivity|]. now rewrite IH, andb_assoc.
Qed.

Lemma digits_value_append (a b : string) (acc : Z) :
  JSON.digits_value (a +++ b) acc = JSON.digits_value b (JSON.digits_value a acc).
Proof. revert acc. induction a as [|x a IH]; intros acc; simpl; [reflexivity | apply IH]. Qed.

Lemma digit_spec (d : Z) :
  0 <= d < 10 ->
  all_digits (JS.digit d) = true /\ JSON.digits_value (JS.digit d) 0 = d
  /\ JS.digit d = String (JS.chr (48 + d)) "" /\ JS.code (JS.chr (48 + d)) = 48 + d.
Proof.
  intros Hd. assert (JS.code (JS.chr (48 + d)) = 48 + d) as Hc by (apply code_chr; lia).
  unfold JS.digit. cbn [all_digits JSON.digits_value]. unfold JSON.is_digit.
  rewrite Hc. repeat split; lia.
Qed.

(** The decimal digits of a natural number: digits only, at least one, no
    leading zero, and of the right value. *)
Lemma decimal_fuel_spec (fuel : nat) (n : Z) (acc : string) :
  0 <= n < 2 ^ Z.of_nat fuel -> (0 < fuel)%nat ->
  exists ds : string,
    JS.decimal_fuel fuel n acc = ds +++ acc
    /\ all_digits ds = true
    /\ JSON.digits_value ds 0 = n
    /\ exists c r, ds = String c r /\ (JS.code c = 48 -> r = "" /\ n = 0).
Proof.
  revert n acc. induction fuel as [|fuel IH]; intros n acc Hn Hfuel; [lia|].
  - cbn [JS.decimal_fuel].
    destruct (n <? 10) eqn:Hsmall.
    + apply Z.ltb_lt in Hsmall.
      assert (n mod 10 = n) as -> by (apply Z.mod_small; lia).
      destruct (digit_spec n ltac:(lia)) as (Hall & Hval & Hshape & Hcode).
      exists (JS.digit n). repeat split; try assumption.
      exists (JS.chr (48 + n)), "". split; [exact Hshape|].
      intros H48. rewrite Hcode in H48. split; [reflexivity | lia].
    + apply Z.ltb_ge in Hsmall.
      assert (0 <= n / 10 < 2 ^ Z.of_nat fuel) as Hdiv.
      { split; [apply Z.div_pos; lia|].
        rewrite Nat2Z.inj_succ, Z.pow_succ_r in Hn by lia.
        apply Z.div_lt_upper_bound; lia. }
      assert (0 < fuel)%nat as Hfuel'.
      { destruct fuel; [|lia]. simpl in Hdiv.
        assert (1 <= n / 10) by (apply Z.div_le_lower_bound; lia). lia. }
      destruct (IH (n / 10) (JS.digit (n mod 10) +++ acc) Hdiv Hfuel')
        as (ds & Hrun & Hall & Hval & c & r & Hshape & Hzero).
      assert (0 <= n mod 10 < 10) as Hmod by (apply Z.mod_pos_bound; lia).
      destruct (digit_spec (n mod 10) Hmod) as (Hall' & Hval' & Hshape' & _).
      exists (ds +++ JS.digit (n mod 10)). split; [|split; [|split]].
      * now rewrite Hrun, append_assoc.
      * now rewrite all_digits_append, Hall, Hall'.
      * rewrite digits_value_append, Hval, Hshape'. cbn [JSON.digits_value].
        rewrite code_chr by lia. pose proof (Z.div_mod n 10 ltac:(lia)). lia.
      * exists c, (r +++ JS.digit (n mod 10)). split; [now rewrite Hshape|].
        intros H48. destruct (Hzero H48) as [_ Hn0].
        assert (1 <= n / 10) by (apply Z.div_le_lower_bound; lia). lia.
Qed.

Lemma decimal_nonneg_spec (n : Z) :
  0 <= n ->
  exists ds : string,
    JS.decimal n = ds
    /\ all_digits ds = true
    /\ JSON.digits_value ds 0 = n
    /\ exists c r, ds = String c r /\ (JS.code c = 48 -> r = "" /\ n = 0).
Proof.
  intros Hn. unfold JS.decimal.
  assert ((n <? 0) = false) as -> by (apply Z.ltb_ge; lia).
  destruct (decimal_fuel_spec (S (Z.to_nat (Z.log2 n))) n "") as (ds & Hrun & Hrest).
  { split; [exact Hn|]. rewrite Nat2Z.inj_succ, Z2Nat.id by (apply Z.log2_nonneg).
    destruct (Z.eq_dec n 0) as [->|Hpos]; [reflexivity|].
    apply Z.log2_spec. lia. }
  { lia. }
  exists ds. rewrite Hrun, append_empty_r. split; [reflexivity | exact Hrest].
Qed.

Lemma delimited_not_digit (rest : string) :
  delimited rest = true ->
  match rest with
  | EmptyString => True
  | String c _ =>
      JSON.is_digit c = false /\ JS.code c <> 46 /\ JS.code c <> 101 /\ JS.code c <> 69
      /\ JSON.is_ws c = false
  end.
Proof.
  destruct rest as [|c r]; [easy|]. unfold delimited, JSON.is_digit, JSON.is_ws.
  intros H. repeat split; lia.
Qed.

Lemma digits_append (ds rest : string) :
  all_digits ds = true -> delimited rest = true ->
  JSON.digits (ds +++ rest) = (ds, rest).
Proof.
  intros Hds Hrest. induction ds as [|c ds IH].
  - apply delimited_not_digit in Hrest. destruct rest as [|c r]; [reflexivity|].
    destruct Hrest as (Hd & _). simpl. now rewrite Hd.
  - simpl in Hds. apply andb_true_iff in Hds as [Hc Hds].
    simpl. rewrite Hc, (IH Hds). reflexivity.
Qed.

(** [JSON.number] on the digits of an integer, followed by a delimiter. *)
Lemma number_unsigned (c : ascii) (more rest : string) :
  all_digits (String c more) = true ->
  (JS.code c = 48 -> more = "") ->
  delimited rest = true ->
  JSON.number (String c more +++ rest)
  = Some (JNum (JSON.digits_value (String c more) 0), rest).
Proof.
  intros Hds Hzero Hrest.
  assert ((JS.code c =? 45) = false) as Hc.
  { simpl in Hds. apply andb_true_iff in Hds as [Hd _]. unfold JSON.is_digit in Hd. lia. }
  unfold JSON.number.
  change (String c more +++ rest) with (String c (more +++ rest)) at 1.
  cbv iota. rewrite Hc.
  rewrite digits_append by assumption.
  assert ((JS.code c =? 48) && negb (String.eqb more "") = false) as ->.
  { destruct (JS.code c =? 48) eqn:E; [|reflexivity].
    apply Z.eqb_eq in E. now rewrite (Hzero E). }
  apply delimited_not_digit in Hrest.
  destruct rest as [|c0 r]; [reflexivity|].
  destruct Hrest as (_ & H46 & H101 & H69 & _).
  apply Z.eqb_neq in H46, H101, H69. now rewrite H46, H101, H69.
Qed.

Lemma number_negative (c : ascii) (more rest : string) :
  all_digits (String c more) = true ->
  (JS.code c = 48 -> more = "") ->
  delimited rest = true ->
  JSON.number (String "-" (String c more +++ rest))
  = Some (JNum (- JSON.digits_value (String c more) 0), rest).
Proof.
  intros Hds Hzero Hrest.
  unfold JSON.number.
  change (JS.code "-" =? 45) with true. cbv iota.
  rewrite digits_append by assumption.
  assert ((JS.code c =? 48) && negb (String.eqb more "") = false) as ->.
  { destruct (JS.code c =? 48) eqn:E; [|reflexivity].
    apply Z.eqb_eq in E. now rewrite (Hzero E). }
  apply delimited_not_digit in Hrest.
  destruct rest as [|c0 r]; [reflexivity|].
  destruct Hrest as (_ & H46 & H101 & H69 & _).
  apply Z.eqb_neq in H46, H101, H69. now rewrite H46, H101, H69.
Qed.

(** A text that starts with a digit or a minus sign is read as a number. *)
Lemma value_number_start (fuel : nat) (c : ascii) (r : string) :
  JSON.is_digit c = true \/ JS.code c = 45 ->
  JSON.value (S fuel) (String c r) = JSON.number (String c r).
Proof.
  intros Hc. rewrite value_step.
  assert (JSON.is_ws c = false) as Hws by (unfold JSON.is_ws, JSON.is_digit in *; lia).
  cbn [JSON.skip_ws]. rewrite Hws. cbv zeta.
  unfold JSON.is_digit in Hc.
  assert ((JS.code c =? 123) = false) as -> by lia.
  assert ((JS.code c =? 91) = false) as -> by lia.
  assert ((JS.code c =? 34) = false) as -> by lia.
  assert ((JS.code c =? 116) = false) as -> by lia.
  assert ((JS.code c =? 102) = false) as -> by lia.
  assert ((JS.code c =? 110) = false) as -> by lia.
  reflexivity.
Qed.

(** An integer is read back. *)
Lemma value_decimal (fuel : nat) (n : Z) (rest : string) :
  delimited rest = true ->
  JSON.value (S fuel) (JS.decimal n +++ rest) = Some (JNum n, rest).
Proof.
  intros Hrest. destruct (Z.ltb_spec n 0) as [Hneg|Hpos].
  - destruct (decimal_nonneg_spec (- n) ltac:(lia))
      as (ds & Hds & Hall & Hval & c & more & -> & Hzero).
    assert (JS.decimal n = String "-" (String c more)) as ->.
    { unfold JS.decimal in *. assert ((n <? 0) = true) as -> by lia.
      assert ((- n <? 0) = false) as Hnn by lia. rewrite Hnn in Hds.
      now rewrite Hds. }
    change (String "-" (String c more) +++ rest) with (String "-" (String c more +++ rest)).
    rewrite value_number_start by (right; reflexivity).
    rewrite number_negative; try assumption.
    + rewrite Hval. do 3 f_equal. lia.
    + intros H48. now destruct (Hzero H48).
  - destruct (decimal_nonneg_spec n Hpos)
      as (ds & Hds & Hall & Hval & c & more & -> & Hzero).
    rewrite Hds. change (String c more +++ rest) with (String c (more +++ rest)).
    rewrite value_number_start.
    + change (String c (more +++ rest)) with (String c more +++ rest).
      rewrite number_unsigned; try assumption.
      * now rewrite Hval.
      * intros H48. now destruct (Hzero H48).
    + left. simpl in Hall. now apply andb_true_iff in Hall as [Hc _].
Qed.

Lemma all_digits_no_nl (ds : string) : all_digits ds = true -> has_nl ds = false.
Proof.
  induction ds as [|c ds IH]; [reflexivity|]. simpl.
  intros H. apply andb_true_iff in H as [Hc Hds]. rewrite (IH Hds), orb_false_r.
  apply Ascii.eqb_neq. intros ->. discriminate Hc.
Qed.

Lemma decimal_no_nl (n : Z) : has_nl (JS.decimal n) = false.
Proof.
  destruct (Z.ltb_spec n 0) as [Hneg|Hpos].
  - destruct (decimal_nonneg_spec (- n) ltac:(lia)) as (ds & Hds & Hall & _).
    unfold JS.decimal in *. assert ((n <? 0) = true) as -> by lia.
    assert ((- n <? 0) = false) as Hnn by lia. rewrite Hnn in Hds. rewrite Hds.
    simpl. now apply all_digits_no_nl.
  - destruct (decimal_nonneg_spec n Hpos) as (ds & Hds & Hall & _).
    rewrite Hds. now apply all_digits_no_nl.
Qed.

(** *** Arrays and objects *)

Lemma json_nested_ind (P : json -> Prop) :
  P JNull -> (forall b, P (JBool b)) -> (forall n, P (JNum n)) ->
  (forall l, P (JReal l)) -> (forall s, P (JStr s)) ->
  (forall items, Forall P items -> P (JArr items)) ->
  (forall fields, Forall (fun kv => P (snd kv)) fields -> P (JObj fields)) ->
  forall v, P v.
Proof.
  intros Hnull Hbool Hnum Hreal Hstr Harr Hobj.
  fix IH 1. intros [| b | n | l | s | items | fields].
  - exact Hnull.
  - apply Hbool.
  - apply Hnum.
  - apply Hreal.
  - apply Hstr.
  - apply Harr. induction items as [|x xs IHxs]; constructor; [apply IH | exact IHxs].
  - apply Hobj. induction fields as [|[k x] xs IHxs]; constructor; [apply IH | exact IHxs].
Qed.

Lemma stringify_arr (items : list json) :
  JSON.stringify (JArr items) = "[" +++ sep_by_comma (map JSON.stringify items) +++ "]".
Proof.
  cbn [JSON.stringify]. do 2 f_equal.
  induction items as [|x r IH]; [reflexivity|].
  cbn [map sep_by_comma]. destruct r as [|y r']; [reflexivity|].
  rewrite <- IH. reflexivity.
Qed.

Lemma stringify_obj (fields : list (string * json)) :
  JSON.stringify (JObj fields) = "{" +++ sep_by_comma (map field_text fields) +++ "}".
Proof.
  cbn [JSON.stringify]. do 2 f_equal.
  induction fields as [|[k x] r IH]; [reflexivity|].
  destruct r as [|[k' y] r']; [reflexivity|].
  change (sep_by_comma (map field_text ((k, x) :: (k', y) :: r')))
    with (field_text (k, x) +++ "," +++ sep_by_comma (map field_text ((k', y) :: r'))).
  rewrite <- IH. unfold field_text. cbn [fst snd]. rewrite !append_assoc. reflexivity.
Qed.

(** The text of a plain value starts with a character that is neither white
    space nor a closing bracket. *)
Lemma stringify_starts (v : json) :
  plain v = true ->
  exists c s, JSON.stringify v = String c s
              /\ JSON.is_ws c = false /\ JS.code c <> 93 /\ JS.code c <> 125.
Proof.
  destruct v as [| [] | n | l | s | items | fields]; intros Hplain;
    try discriminate Hplain.
  - exists "n"%char, "ull". now repeat split.
  - exists "t"%char, "rue". now repeat split.
  - exists "f"%char, "alse". now repeat split.
  - destruct (Z.ltb_spec n 0) as [Hneg|Hpos].
    + exists "-"%char. unfold JSON.stringify, JS.decimal.
      assert ((n <? 0) = true) as -> by lia. eexists. split; [reflexivity|].
      now repeat split.
    + destruct (decimal_nonneg_spec n Hpos) as (ds & Hds & Hall & _ & c & r & -> & _).
      exists c, r. split; [exact Hds|].
      simpl in Hall. apply andb_true_iff in Hall as [Hc _].
      unfold JSON.is_digit in Hc. unfold JSON.is_ws. repeat split; lia.
  - exists JSON.quote_char. eexists. split; [reflexivity|]. now repeat split.
  - rewrite stringify_arr. exists "["%char. eexists. split; [reflexivity|]. now repeat split.
  - rewrite stringify_obj. exists "{"%char. eexists. split; [reflexivity|]. now repeat split.
Qed.

Lemma skip_ws_delimited (rest : string) :
  delimited rest = true -> JSON.skip_ws rest = rest.
Proof.
  intros Hrest. apply delimited_not_digit in Hrest.
  destruct rest as [|c r]; [reflexivity|]. destruct Hrest as (_ & _ & _ & _ & Hws).
  simpl. now rewrite Hws.
Qed.

Lemma set_fresh (k : string) (v : json) (acc : list (string * json)) :
  existsb (String.eqb k) (map fst acc) = false ->
  JSON.set k v acc = acc ++ [(k, v)].
Proof.
  induction acc as [|[k' v'] acc IH]; simpl; [reflexivity|].
  intros H. apply orb_false_iff in H as [Hk Hrest].
  rewrite Hk. now rewrite (IH Hrest).
Qed.

(** The elements of a non-empty array, after the opening bracket. *)
Lemma elements_read_back (bound : nat) :
  (forall f, (f < bound)%nat -> reads_back f) ->
  forall (items : list json) (fuel : nat) (acc : list json) (rest : string),
    items <> [] -> forallb plain items = true ->
    (fuel <= bound)%nat -> (items_size items <= fuel)%nat ->
    JSON.elements fuel (sep_by_comma (map JSON.stringify items) +++ "]" +++ rest) acc
    = Some (JArr (acc ++ items), rest).
Proof.
  intros IH items. induction items as [|x r IHr]; intros fuel acc rest Hne Hplain Hfuel Hsize;
    [now destruct Hne|].
  cbn [forallb] in Hplain. apply andb_true_iff in Hplain as [Hx Hr].
  cbn [items_size fold_right] in Hsize. fold (items_size r) in Hsize.
  destruct fuel as [|fuel]; [lia|].
  rewrite elements_step.
  destruct r as [|y r'].
  - change (sep_by_comma (map JSON.stringify [x])) with (JSON.stringify x).
    rewrite (IH fuel ltac:(lia) x ("]" +++ rest) Hx ltac:(lia) eq_refl).
    reflexivity.
  - change (sep_by_comma (map JSON.stringify (x :: y :: r')))
      with (JSON.stringify x +++ "," +++ sep_by_comma (map JSON.stringify (y :: r'))).
    rewrite !append_assoc.
    rewrite (IH fuel ltac:(lia) x
               ("," +++ sep_by_comma (map JSON.stringify (y :: r')) +++ "]" +++ rest)
               Hx ltac:(lia) eq_refl).
    change (JSON.skip_ws ("," +++ ?t)) with (String ","%char t).
    change (JS.code "," =? 44) with true. cbv iota.
    rewrite (IHr fuel (acc ++ [x]) rest ltac:(discriminate) Hr ltac:(lia) ltac:(lia)).
    now rewrite <- app_assoc.
Qed.

Lemma existsb_eqb_In (k : string) (l : list string) :
  existsb (String.eqb k) l = false <-> ~ In k l.
Proof.
  induction l as [|a l IH]; simpl; [tauto|].
  rewrite orb_false_iff, IH.
  destruct (String.eqb_spec k a) as [->|Hne]; split.
  - intros [H _]; discriminate.
  - intros H. exfalso. apply H. now left.
  - intros [_ H] [Ha|Hin]; [congruence | now apply H].
  - intros H. split; [reflexivity|]. intros Hin. apply H. now right.
Qed.

Lemma distinct_keys_NoDup (l : list string) :
  distinct_keys l = true <-> List.NoDup l.
Proof.
  induction l as [|a l IH]; simpl.
  - split; [constructor | reflexivity].
  - rewrite andb_true_iff, negb_true_iff, existsb_eqb_In, IH.
    rewrite List.NoDup_cons_iff. tauto.
Qed.

(** The members of a non-empty object, after the opening brace. *)
Lemma members_read_back (bound : nat) :
  (forall f, (f < bound)%nat -> reads_back f) ->
  forall (fields : list (string * json)) (fuel : nat)
         (acc : list (string * json)) (rest : string),
    fields <> [] -> forallb (fun kv => plain (snd kv)) fields = true ->
    List.NoDup (map fst (acc ++ fields)) ->
    (fuel <= bound)%nat -> (fields_size fields <= fuel)%nat ->
    JSON.members fuel (sep_by_comma (map field_text fields) +++ "}" +++ rest) acc
    = Some (JObj (acc ++ fields), rest).
Proof.
  intros IH fields.
  induction fields as [|[k x] r IHr]; intros fuel acc rest Hne Hplain Hdup Hfuel Hsize;
    [now destruct Hne|].
  cbn [forallb snd] in Hplain. apply andb_true_iff in Hplain as [Hx Hr].
  cbn [fields_size fold_right snd] in Hsize. fold (fields_size r) in Hsize.
  destruct fuel as [|fuel]; [lia|].
  assert (Hfresh : JSON.set k x acc = acc ++ [(k, x)]).
  { apply set_fresh, existsb_eqb_In. intros Hin.
    rewrite map_app in Hdup. cbn [map fst] in Hdup.
    apply List.NoDup_remove_2 in Hdup. apply Hdup, in_or_app. now left. }
  rewrite members_step.
  assert (Hhead : forall tail,
             field_text (k, x) +++ tail
             = String JSON.quote_char
                 (JSON.escape_all k +++ String JSON.quote_char (":" +++ JSON.stringify x +++ tail))).
  { intros tail. unfold field_text, JSON.quote. cbn [fst snd].
    cbn [String.append]. f_equal. rewrite !append_assoc. reflexivity. }
  destruct r as [|[k' y] r'].
  - change (sep_by_comma (map field_text [(k, x)])) with (field_text (k, x)).
    rewrite Hhead. cbn [JSON.skip_ws].
    change (JSON.is_ws JSON.quote_char) with false. cbv iota.
    change (JS.code JSON.quote_char =? 34) with true. cbv iota.
    rewrite string_body_escape_all.
    change (JSON.skip_ws (":" +++ ?t)) with (String ":"%char t).
    change (JS.code ":" =? 58) with true. cbv iota.
    rewrite (IH fuel ltac:(lia) x ("}" +++ rest) Hx ltac:(lia) eq_refl).
    rewrite Hfresh. reflexivity.
  - change (sep_by_comma (map field_text ((k, x) :: (k', y) :: r')))
      with (field_text (k, x) +++ "," +++ sep_by_comma (map field_text ((k', y) :: r'))).
    rewrite !append_assoc. rewrite Hhead. cbn [JSON.skip_ws].
    change (JSON.is_ws JSON.quote_char) with false. cbv iota.
    change (JS.code JSON.quote_char =? 34) with true. cbv iota.
    rewrite string_body_escape_all.
    change (JSON.skip_ws (":" +++ ?t)) with (String ":"%char t).
    change (JS.code ":" =? 58) with true. cbv iota.
    rewrite (IH fuel ltac:(lia) x
               ("," +++ sep_by_comma (map field_text ((k', y) :: r')) +++ "}" +++ rest)
               Hx ltac:(lia) eq_refl).
    change (JSON.skip_ws ("," +++ ?t)) with (String ","%char t).
    change (JS.code "," =? 44) with true. cbv iota.
    rewrite Hfresh.
    rewrite (IHr fuel (acc ++ [(k, x)]) rest ltac:(discriminate) Hr).
    + now rewrite <- app_assoc.
    + now rewrite <- app_assoc.
    + lia.
    + lia.
Qed.

(** [JSON.value] reads the text of a plain value back, whatever follows it,
    given fuel for its size. *)
Lemma value_stringify (fuel : nat) : reads_back fuel.
Proof.
  induction fuel as [fuel IH] using lt_wf_ind.
  intros v rest Hplain Hsize Hrest.
  destruct fuel as [|fuel]; [destruct v; simpl in Hsize; lia|].
  destruct v as [| [] | n | l | s | items | fields]; try discriminate Hplain.
  - reflexivity.
  - reflexivity.
  - reflexivity.
  - now apply value_decimal.
  - apply value_quote.
  - rewrite stringify_arr. rewrite !append_assoc. rewrite value_step.
    destruct items as [|x r]; [reflexivity|].
    cbn [plain] in Hplain.
    destruct (stringify_starts x) as (c & s & Hs & Hws & Hc & _).
    { cbn [forallb] in Hplain. now apply andb_true_iff in Hplain as [? _]. }
    assert (Hopen : forall t, sep_by_comma (map JSON.stringify (x :: r)) +++ t
                              = String c (s +++ match r with
                                                | [] => t
                                                | _ :: _ => "," +++ sep_by_comma (map JSON.stringify r) +++ t
                                                end)).
    { intros t. destruct r as [|y r'].
      - change (sep_by_comma (map JSON.stringify [x])) with (JSON.stringify x).
        now rewrite Hs.
      - change (sep_by_comma (map JSON.stringify (x :: y :: r')))
          with (JSON.stringify x +++ "," +++ sep_by_comma (map JSON.stringify (y :: r'))).
        rewrite Hs. cbn [String.append]. now rewrite !append_assoc. }
    change (JSON.skip_ws ("[" +++ ?t)) with (String "["%char t).
    cbv zeta. change (JS.code "[" =? 123) with false.
    change (JS.code "[" =? 91) with true. cbv iota.
    rewrite (Hopen ("]" +++ rest)). cbn [JSON.skip_ws]. rewrite Hws.
    assert ((JS.code c =? 93) = false) as -> by lia.
    rewrite <- (Hopen ("]" +++ rest)).
    cbn [size] in Hsize. fold (items_size (x :: r)) in Hsize.
    apply (elements_read_back fuel); try assumption; try lia; try discriminate.
    intros f Hf. apply IH. lia.
  - rewrite stringify_obj. rewrite !append_assoc. rewrite value_step.
    destruct fields as [|[k x] r]; [reflexivity|].
    cbn [plain] in Hplain.
    apply andb_true_iff in Hplain as [Hplain _].
    apply andb_true_iff in Hplain as [Hplain Hkeys].
    assert (Hopen : forall t, sep_by_comma (map field_text ((k, x) :: r)) +++ t
                              = String JSON.quote_char
                                  (JSON.escape_all k +++ String JSON.quote_char
                                     (":" +++ JSON.stringify x +++
                                      match r with
                                      | [] => t
                                      | _ :: _ => "," +++ sep_by_comma (map field_text r) +++ t
                                      end))).
    { intros t. destruct r as [|[k' y] r'].
      - change (sep_by_comma (map field_text [(k, x)])) with (field_text (k, x)).
        unfold field_text, JSON.quote. cbn [fst snd String.append]. f_equal.
        now rewrite !append_assoc.
      - change (sep_by_comma (map field_text ((k, x) :: (k', y) :: r')))
          with (field_text (k, x) +++ "," +++ sep_by_comma (map field_text ((k', y) :: r'))).
        unfold field_text, JSON.quote. cbn [fst snd String.append]. f_equal.
        now rewrite !append_assoc. }
    change (JSON.skip_ws ("{" +++ ?t)) with (String "{"%char t).
    cbv zeta. change (JS.code "{" =? 123) with true. cbv iota.
    rewrite (Hopen ("}" +++ rest)). cbn [JSON.skip_ws].
    change (JSON.is_ws JSON.quote_char) with false. cbv iota.
    change (JS.code JSON.quote_char =? 125) with false. cbv iota.
    rewrite <- (Hopen ("}" +++ rest)).
    cbn [size] in Hsize. fold (fields_size ((k, x) :: r)) in Hsize.
    apply (members_read_back fuel); try assumption; try lia; try discriminate.
    + intros f Hf. apply IH. lia.
    + now apply distinct_keys_NoDup.
Qed.

Lemma items_size_bound (items : list json) :
  Forall (fun x => (size x <= 2 * String.length (JSON.stringify x))%nat) items ->
  (items_size items
   <= 2 * String.length (sep_by_comma (map JSON.stringify items)) + 1)%nat.
Proof.
  induction 1 as [|x r Hx Hr IH]; [simpl; lia|].
  cbn [items_size fold_right]. fold (items_size r).
  destruct r as [|y r'].
  - change (sep_by_comma (map JSON.stringify [x])) with (JSON.stringify x).
    simpl. lia.
  - change (sep_by_comma (map JSON.stringify (x :: y :: r')))
      with (JSON.stringify x +++ "," +++ sep_by_comma (map JSON.stringify (y :: r'))).
    rewrite !length_append. cbn [String.length]. lia.
Qed.

Lemma fields_size_bound (fields : list (string * json)) :
  Forall (fun kv => (size (snd kv) <= 2 * String.length (JSON.stringify (snd kv)))%nat) fields ->
  (fields_size fields
   <= 2 * String.length (sep_by_comma (map field_text fields)) + 1)%nat.
Proof.
  induction 1 as [|[k x] r Hx Hr IH]; [simpl; lia|].
  cbn [fields_size fold_right snd]. fold (fields_size r). cbn [snd] in Hx.
  assert (Hlen : (String.length (JSON.stringify x) <= String.length (field_text (k, x)))%nat).
  { unfold field_text. cbn [fst snd]. rewrite !length_append. lia. }
  destruct r as [|[k' y] r'].
  - change (sep_by_comma (map field_text [(k, x)])) with (field_text (k, x)).
    simpl fields_size. lia.
  - change (sep_by_comma (map field_text ((k, x) :: (k', y) :: r')))
      with (field_text (k, x) +++ "," +++ sep_by_comma (map field_text ((k', y) :: r'))).
    rewrite !length_append. cbn [String.length]. lia.
Qed.

Lemma Forall_plain (P : json -> Prop) (items : list json) :
  Forall (fun x => plain x = true -> P x) items ->
  forallb plain items = true -> Forall P items.
Proof.
  induction 1 as [|x r Hx Hr IH]; intros Hplain; constructor;
    cbn [forallb] in Hplain; apply andb_true_iff in Hplain as [H1 H2]; auto.
Qed.

Lemma Forall_plain_fields (P : json -> Prop) (fields : list (string * json)) :
  Forall (fun kv => plain (snd kv) = true -> P (snd kv)) fields ->
  forallb (fun kv => plain (snd kv)) fields = true ->
  Forall (fun kv => P (snd kv)) fields.
Proof.
  induction 1 as [|x r Hx Hr IH]; intros Hplain; constructor;
    cbn [forallb] in Hplain; apply andb_true_iff in Hplain as [H1 H2]; auto.
Qed.

Lemma plain_fields (fields : list (string * json)) :
  plain (JObj fields) = true -> forallb (fun kv => plain (snd kv)) fields = true.
Proof.
  cbn [plain]. intros H. apply andb_true_iff in H as [H _].
  now apply andb_true_iff in H as [H _].
Qed.

(** The fuel [JSON.parse] gives suffices for a text that [JSON.stringify]
    wrote. *)
Lemma size_bound (v : json) :
  plain v = true -> (size v <= 2 * String.length (JSON.stringify v))%nat.
Proof.
  induction v as [| b | n | l | s | items IH | fields IH] using json_nested_ind;
    intros Hplain; try discriminate Hplain.
  - simpl. lia.
  - destruct b; simpl; lia.
  - destruct (stringify_starts (JNum n) Hplain) as (c & s & -> & _). simpl. lia.
  - simpl. lia.
  - rewrite stringify_arr, !length_append. cbn [size String.length].
    fold (items_size items).
    pose proof (items_size_bound items (Forall_plain _ _ IH Hplain)). lia.
  - rewrite stringify_obj, !length_append. cbn [size String.length].
    fold (fields_size fields).
    pose proof (fields_size_bound fields
                  (Forall_plain_fields
                     (fun x => (size x <= 2 * String.length (JSON.stringify x))%nat)
                     _ IH (plain_fields _ Hplain))). lia.
Qed.

Lemma parse_stringify (v : json) :
  plain v = true -> JSON.parse (JSON.stringify v) = Ok v.
Proof.
  intros Hplain. unfold JSON.parse.
  rewrite <- (append_empty_r (JSON.stringify v)) at 2.
  rewrite value_stringify; [reflexivity | exact Hplain | | reflexivity].
  pose proof (size_bound v Hplain). lia.
Qed.

Lemma sep_by_comma_no_nl (l : list string) :
  Forall (fun s => has_nl s = false) l -> has_nl (sep_by_comma l) = false.
Proof.
  induction 1 as [|x r Hx Hr IH]; [reflexivity|].
  destruct r as [|y r']; [exact Hx|].
  change (sep_by_comma (x :: y :: r')) with (x +++ "," +++ sep_by_comma (y :: r')).
  rewrite !has_nl_append, Hx, IH. reflexivity.
Qed.

(** [JSON.stringify] writes a plain value on one line. *)
Lemma stringify_no_nl (v : json) :
  plain v = true -> has_nl (JSON.stringify v) = false.
Proof.
  induction v as [| b | n | l | s | items IH | fields IH] using json_nested_ind;
    intros Hplain; try discriminate Hplain.
  - reflexivity.
  - now destruct b.
  - apply decimal_no_nl.
  - apply quote_no_nl.
  - rewrite stringify_arr, !has_nl_append.
    rewrite sep_by_comma_no_nl; [reflexivity|].
    apply Forall_map. exact (Forall_plain _ _ IH Hplain).
  - rewrite stringify_obj, !has_nl_append.
    rewrite sep_by_comma_no_nl; [reflexivity|].
    apply Forall_map.
    eapply List.Forall_impl;
      [|exact (Forall_plain_fields (fun x => has_nl (JSON.stringify x) = false)
                 _ IH (plain_fields _ Hplain))].
    intros [k x] Hx. unfold field_text. cbn [fst snd] in *.
    now rewrite !has_nl_append, quote_no_nl, Hx.
Qed.

(** *** The text of a ledger file *)

Lemma list_ascii_of_string_append (a b : string) :
  list_ascii_of_string (a +++ b) = list_ascii_of_string a ++ list_ascii_of_string b.
Proof. induction a as [|c a IH]; simpl; [reflexivity | now rewrite IH]. Qed.

Lemma string_of_list_ascii_app (a b : list ascii) :
  string_of_list_ascii (a ++ b) = string_of_list_ascii a +++ string_of_list_ascii b.
Proof. induction a as [|c a IH]; simpl; [reflexivity | now rewrite IH]. Qed.

(** [trim] takes the final line feed off a text between braces and leaves
    the rest. *)
Lemma trim_braced (s : string) :
  braced s -> JS.trim (s +++ String JS.nl "") = s.
Proof.
  intros [body ->]. unfold JS.trim.
  set (L := list_ascii_of_string body).
  assert (Hfront : list_ascii_of_string (String "{" (body +++ "}") +++ String JS.nl "")
                   = "{"%char :: (L ++ ["}"%char]) ++ [JS.nl]).
  { cbn [String.append list_ascii_of_string].
    now rewrite !list_ascii_of_string_append. }
  rewrite Hfront. cbv zeta.
  assert (Hstart : JS.trim_start JS.white_space ("{"%char :: (L ++ ["}"%char]) ++ [JS.nl])
                   = "{"%char :: (L ++ ["}"%char]) ++ [JS.nl]).
  { unfold JS.trim_start. cbn [length JS.trim_start_fuel].
    change (JS.first_strip JS.white_space ("{"%char :: ?X)) with (@None (list ascii)).
    reflexivity. }
  rewrite Hstart.
  assert (Hrev : rev ("{"%char :: (L ++ ["}"%char]) ++ [JS.nl])
                 = JS.nl :: "}"%char :: (rev L ++ ["{"%char])).
  { cbn [rev]. rewrite !rev_app_distr. reflexivity. }
  rewrite Hrev.
  assert (Hback : JS.trim_start (map (@rev Z) JS.white_space)
                    (JS.nl :: "}"%char :: (rev L ++ ["{"%char]))
                  = "}"%char :: (rev L ++ ["{"%char])).
  { unfold JS.trim_start. cbn [length JS.trim_start_fuel].
    change (JS.first_strip (map (@rev Z) JS.white_space) (JS.nl :: ?X)) with (Some X).
    cbv iota.
    change (JS.first_strip (map (@rev Z) JS.white_space) ("}"%char :: ?X))
      with (@None (list ascii)).
    reflexivity. }
  rewrite Hback. cbn [rev]. rewrite rev_app_distr, rev_involutive.
  cbn [rev app string_of_list_ascii].
  rewrite string_of_list_ascii_app. unfold L.
  now rewrite string_of_list_ascii_of_string.
Qed.

Lemma braced_join (a b : string) :
  braced a -> braced b -> braced (a +++ String JS.nl b).
Proof.
  intros [x ->] [y ->]. exists (x +++ "}" +++ String JS.nl (String "{" y)).
  cbn [String.append]. f_equal. rewrite !append_assoc. reflexivity.
Qed.

Lemma join_nl_braced (lines : list string) :
  lines <> [] -> Forall braced lines -> braced (join_nl lines).
Proof.
  intros Hne Hall. induction Hall as [|l r Hl Hr IH]; [now destruct Hne|].
  destruct r as [|l' r']; [exact Hl|].
  change (join_nl (l :: l' :: r')) with (l +++ String JS.nl (join_nl (l' :: r'))).
  apply braced_join; [exact Hl|]. now apply IH.
Qed.

Lemma lines_text_join (lines : list string) :
  lines <> [] -> lines_text lines = join_nl lines +++ String JS.nl "".
Proof.
  induction lines as [|l r IH]; intros Hne; [now destruct Hne|].
  destruct r as [|l' r']; [reflexivity|].
  change (lines_text (l :: l' :: r')) with (l +++ String JS.nl (lines_text (l' :: r'))).
  change (join_nl (l :: l' :: r')) with (l +++ String JS.nl (join_nl (l' :: r'))).
  rewrite IH by discriminate. rewrite append_assoc. reflexivity.
Qed.

Lemma lines_text_app (a b : list string) :
  lines_text (a ++ b) = lines_text a +++ lines_text b.
Proof.
  induction a as [|l a IH]; [reflexivity|].
  cbn [app lines_text]. rewrite IH, append_assoc. reflexivity.
Qed.

Lemma split_nl_line (a : string) : has_nl a = false -> JS.split_nl a = [a].
Proof.
  induction a as [|c a IH]; [reflexivity|].
  cbn [has_nl JS.split_nl]. intros H. apply orb_false_iff in H as [Hc Ha].
  rewrite Hc, (IH Ha). reflexivity.
Qed.

Lemma split_nl_append (a b : string) :
  has_nl a = false -> JS.split_nl (a +++ String JS.nl b) = a :: JS.split_nl b.
Proof.
  induction a as [|c a IH].
  - intros _. cbn [String.append JS.split_nl]. now rewrite Ascii.eqb_refl.
  - cbn [has_nl String.append JS.split_nl]. intros H.
    apply orb_false_iff in H as [Hc Ha]. rewrite Hc, (IH Ha). reflexivity.
Qed.

Lemma split_nl_join (lines : list string) :
  lines <> [] -> Forall (fun l => has_nl l = false) lines ->
  JS.split_nl (join_nl lines) = lines.
Proof.
  intros Hne Hall. induction Hall as [|l r Hl Hr IH]; [now destruct Hne|].
  destruct r as [|l' r']; [now apply split_nl_line|].
  change (join_nl (l :: l' :: r')) with (l +++ String JS.nl (join_nl (l' :: r'))).
  rewrite split_nl_append by exact Hl. now rewrite IH.
Qed.

Lemma filter_Forall_true {A : Type} (p : A -> bool) (l : list A) :
  Forall (fun x => p x = true) l -> List.filter p l = l.
Proof.
  induction 1 as [|x r Hx Hr IH]; [reflexivity|].
  cbn [List.filter]. now rewrite Hx, IH.
Qed.

(** The lines [getEntries] finds in a file of braced one-line texts. *)
Lemma nonempty_lines_text (lines : list string) :
  Forall braced lines -> Forall (fun l => has_nl l = false) lines ->
  nonempty_lines (lines_text lines) = lines.
Proof.
  intros Hbr Hnl. destruct lines as [|l r]; [reflexivity|].
  unfold nonempty_lines.
  rewrite lines_text_join by discriminate.
  rewrite trim_braced by (apply join_nl_braced; [discriminate | exact Hbr]).
  rewrite split_nl_join by (try discriminate; exact Hnl).
  apply filter_Forall_true. eapply List.Forall_impl; [|exact Hbr].
  intros s [body ->]. reflexivity.
Qed.

(** *** Reading a ledger file that [appendEntry] wrote *)

Lemma stringify_object_braced (v : json) :
  is_object v = true -> braced (JSON.stringify v).
Proof.
  destruct v as [| | | | | |fields]; try discriminate. intros _.
  rewrite stringify_obj. now exists (sep_by_comma (map field_text fields)).
Qed.

Lemma holds_lines (fs : FileSystem) (vs : list json) :
  holds fs vs -> nonempty_lines (text fs) = map JSON.stringify vs.
Proof.
  intros (_ & -> & Hall). apply nonempty_lines_text; apply Forall_map;
    (eapply List.Forall_impl; [|exact Hall]); intros v [Hplain Hobj]; cbn beta.
  - now apply stringify_object_braced.
  - now apply stringify_no_nl.
Qed.

Lemma parse_lines_stringify (vs : list json) :
  Forall (fun v => plain v = true /\ is_object v = true) vs ->
  parse_lines (map JSON.stringify vs) = Ok vs.
Proof.
  induction 1 as [|v r [Hv _] Hr IH]; [reflexivity|].
  cbn [map parse_lines]. rewrite (parse_stringify v Hv). cbn. now rewrite IH.
Qed.

Lemma apply_filter_objects (k : string) (wanted : option string) (l : list json) :
  Forall (fun v => is_object v = true) l ->
  apply_filter k wanted l = Ok (List.filter (field_is k wanted) l).
Proof.
  intros Hall. unfold apply_filter, field_is.
  destruct wanted as [s|]; [|now rewrite filter_Forall_true by now apply Forall_forall].
  destruct (JS.truthy s); [|now rewrite filter_Forall_true by now apply Forall_forall].
  induction Hall as [|v r Hv Hr IH]; [reflexivity|].
  destruct v as [| | | | | |fields]; try discriminate Hv.
  cbn [filter_by prop List.filter]. cbn. rewrite IH. cbn.
  now destruct (strict_eq (JSON.get k fields) s).
Qed.

Lemma filter_objects (p : json -> bool) (l : list json) :
  Forall (fun v => is_object v = true) l ->
  Forall (fun v => is_object v = true) (List.filter p l).
Proof.
  induction 1 as [|v r Hv Hr IH]; [constructor|].
  cbn [List.filter]. destruct (p v); [constructor|]; assumption.
Qed.

Lemma filter_filter {A : Type} (p q : A -> bool) (l : list A) :
  List.filter q (List.filter p l) = List.filter (fun x => p x && q x) l.
Proof.
  induction l as [|x l IH]; [reflexivity|].
  cbn [List.filter]. destruct (p x); cbn [List.filter andb]; [|exact IH].
  destruct (q x); now rewrite IH.
Qed.

Lemma holds_objects (fs : FileSystem) (vs : list json) :
  holds fs vs -> Forall (fun v => is_object v = true) vs.
Proof.
  intros (_ & _ & Hall). eapply List.Forall_impl; [|exact Hall]. now intros v [_ H].
Qed.

Lemma getEntries_holds (fs : FileSystem) (vs : list json) (f : Filter) :
  holds fs vs -> getEntries true f fs = List.filter (selected f) vs.
Proof.
  intros Hfs. pose proof (holds_lines fs vs Hfs) as Hlines.
  pose proof (holds_objects fs vs Hfs) as Hobj.
  destruct Hfs as (Hfail & _ & Hall).
  unfold getEntries, read_entries, readFile. cbn [negb]. rewrite Hfail. cbn.
  rewrite Hlines, (parse_lines_stringify vs Hall). cbn.
  rewrite (apply_filter_objects "poemId" _ vs Hobj). cbn.
  rewrite apply_filter_objects by now apply filter_objects. cbn.
  rewrite apply_filter_objects by now do 2 apply filter_objects.
  rewrite !filter_filter. apply List.filter_ext.
  intros v. unfold selected. now rewrite andb_assoc.
Qed.

Lemma getEntries_holds_all (fs : FileSystem) (vs : list json) :
  holds fs vs -> getEntries true no_filter fs = vs.
Proof.
  intros Hfs. rewrite (getEntries_holds fs vs no_filter Hfs).
  apply filter_Forall_true, Forall_forall. reflexivity.
Qed.

(** *** What [appendEntry] writes *)

Lemma has_key_existsb (k : string) (l : list (string * json)) :
  existsb (String.eqb k) (map fst l) = has_key k l.
Proof.
  induction l as [|[k' v] l IH]; [reflexivity|].
  cbn [map existsb has_key fst]. unfold has_key in IH. now rewrite IH, String.eqb_sym.
Qed.

Lemma has_key_In (k : string) (l : list (string * json)) :
  has_key k l = false <-> ~ In k (map fst l).
Proof. rewrite <- has_key_existsb. apply existsb_eqb_In. Qed.

Lemma plain_entry_spec (entry : list (string * json)) :
  plain_entry entry = true ->
  plain (JObj entry) = true
  /\ has_key "timestamp" entry = false /\ has_key "entryHash" entry = false.
Proof.
  unfold plain_entry. intros H. apply andb_true_iff in H as [Hplain Hkeys].
  split; [exact Hplain|]. apply negb_true_iff in Hkeys.
  induction entry as [|[k v] r IH]; [now split|].
  cbn [existsb fst] in Hkeys. apply orb_false_iff in Hkeys as [Hk Hr].
  apply orb_false_iff in Hk as [Hk1 Hk2].
  assert (Hr' : plain (JObj r) = true).
  { cbn [plain forallb map distinct_keys snd fst] in Hplain |- *.
    repeat match type of Hplain with
           | _ && _ = true => apply andb_true_iff in Hplain as [Hplain ?]
           end.
    repeat match goal with
           | H : _ && _ = true |- _ => apply andb_true_iff in H as [? ?]
           end.
    repeat (apply andb_true_iff; split); assumption. }
  destruct (IH Hr' Hr) as [H1 H2].
  unfold has_key. cbn [existsb fst]. unfold has_key in H1, H2.
  now rewrite Hk1, Hk2, H1, H2.
Qed.

Lemma ledger_line_fresh (sha256 : string -> string)
    (entry : list (string * json)) (timestamp : string) :
  has_key "timestamp" entry = false -> has_key "entryHash" entry = false ->
  ledger_line sha256 entry timestamp
  = entry ++ [("timestamp", JStr timestamp);
              ("entryHash", JStr (sha256 (JSON.stringify (JObj entry) +++ timestamp)))].
Proof.
  intros Hts Hh. unfold ledger_line.
  rewrite (set_fresh "timestamp") by now rewrite has_key_existsb.
  rewrite set_fresh; [now rewrite <- app_assoc|].
  rewrite has_key_existsb. unfold has_key in *. rewrite existsb_app, Hh. reflexivity.
Qed.

Lemma plain_fields_app (a b : list (string * json)) :
  plain (JObj a) = true -> plain (JObj b) = true ->
  (forall k, In k (map fst a) -> ~ In k (map fst b)) ->
  plain (JObj (a ++ b)) = true.
Proof.
  cbn [plain]. intros Ha Hb Hdisj.
  apply andb_true_iff in Ha as [Ha Ha3]. apply andb_true_iff in Ha as [Ha1 Ha2].
  apply andb_true_iff in Hb as [Hb Hb3]. apply andb_true_iff in Hb as [Hb1 Hb2].
  rewrite !forallb_app, Ha1, Hb1, Ha3, Hb3. cbn [andb]. rewrite andb_true_r.
  apply distinct_keys_NoDup. rewrite map_app.
  apply distinct_keys_NoDup in Ha2, Hb2.
  apply List.NoDup_app; repeat split; assumption.
Qed.

(** *** Texts

    The timestamps and the hexadecimal digests are texts of characters below
    128, and such texts are well-formed UTF-8. *)

Lemma ascii_text_utf8 (s : string) : ascii_text s = true -> utf8_text s = true.
Proof.
  induction s as [|c r IH]; [reflexivity|].
  cbn [ascii_text utf8_text]. intros H. apply andb_true_iff in H as [Hc Hr].
  cbv zeta. rewrite Hc. now apply IH.
Qed.

Lemma ascii_text_append (a b : string) :
  ascii_text (a +++ b) = ascii_text a && ascii_text b.
Proof.
  induction a as [|c a IH]; [reflexivity|].
  cbn [String.append ascii_text]. now rewrite IH, andb_assoc.
Qed.

Lemma digit_ascii (d : Z) : 0 <= d < 10 -> ascii_text (JS.digit d) = true.
Proof.
  intros Hd. destruct (digit_spec d Hd) as (_ & _ & -> & Hcode).
  cbn [ascii_text]. rewrite Hcode. apply andb_true_iff. split; [lia | reflexivity].
Qed.

Lemma padded_ascii (w : nat) (n : Z) : ascii_text (JS.padded w n) = true.
Proof.
  revert n. induction w as [|w IH]; intros n; [reflexivity|].
  cbn [JS.padded]. rewrite ascii_text_append, IH, digit_ascii; [reflexivity|].
  apply Z.mod_pos_bound. lia.
Qed.

Lemma toISOString_text (ms : Z) : utf8_text (JS.toISOString ms) = true.
Proof.
  apply ascii_text_utf8. unfold JS.toISOString.
  destruct (JS.civil (ms / 86400000)) as [[y m] d]. cbv zeta.
  rewrite !ascii_text_append, !padded_ascii.
  destruct ((0 <=? y) && (y <=? 9999)); [now rewrite padded_ascii|].
  destruct (y <? 0); now rewrite ascii_text_append, padded_ascii.
Qed.

Lemma hex_digit_ascii (d : Z) : 0 <= d < 16 -> (JS.code (Crypto.hex_digit d) <? 128) = true.
Proof.
  intros Hd.
  assert (d = 0 \/ d = 1 \/ d = 2 \/ d = 3 \/ d = 4 \/ d = 5 \/ d = 6 \/ d = 7 \/
          d = 8 \/ d = 9 \/ d = 10 \/ d = 11 \/ d = 12 \/ d = 13 \/ d = 14 \/ d = 15)
    as Hcases by lia.
  repeat (destruct Hcases as [->|Hcases]; [reflexivity|]). now subst d.
Qed.

Lemma hex_ascii (bs : list Z) :
  Forall (fun b => 0 <= b < 256) bs -> ascii_text (Crypto.hex bs) = true.
Proof.
  unfold Crypto.hex. induction 1 as [|b r Hb Hr IH]; [reflexivity|].
  cbn [flat_map app string_of_list_ascii ascii_text].
  rewrite !hex_digit_ascii, IH; [reflexivity | |].
  - apply Z.mod_pos_bound. lia.
  - split; [apply Z.div_pos; lia | apply Z.div_lt_upper_bound; lia].
Qed.

Lemma sha256_bytes_range (msg : list Z) :
  Forall (fun b => 0 <= b < 256) (Crypto.sha256_bytes msg).
Proof.
  unfold Crypto.sha256_bytes. cbv zeta.
  generalize (fold_left Crypto.compress
                (Crypto.chunks (length (Crypto.pad msg)) 64 (Crypto.pad msg)) Crypto.H0).
  intros h. induction h as [|w h IH]; [constructor|].
  cbn [flat_map]. apply Forall_app. split; [|exact IH].
  unfold Crypto.be_bytes. apply Forall_map, List.Forall_forall.
  intros i _. apply Z.mod_pos_bound. lia.
Qed.

(** The digests of the platform are texts. *)
Lemma sha256_hex_text : text_digests Crypto.sha256_hex.
Proof.
  intros s. apply ascii_text_utf8, hex_ascii, sha256_bytes_range.
Qed.

(** *** Assignments to an object *)

Lemma set_keys (k : string) (v : json) (l : list (string * json)) :
  has_key k l = true -> map fst (JSON.set k v l) = map fst l.
Proof.
  induction l as [|[k' v'] l IH]; [discriminate|].
  unfold has_key. cbn [existsb fst JSON.set map].
  destruct (String.eqb_spec k k') as [->|Hne].
  - reflexivity.
  - rewrite String.eqb_sym. destruct (String.eqb_spec k k') as [|_]; [contradiction|].
    cbn [orb map fst]. intros H. now rewrite (IH H).
Qed.

Lemma set_values_plain (k : string) (v : json) (l : list (string * json)) :
  plain v = true -> forallb (fun kv => plain (snd kv)) l = true ->
  forallb (fun kv => plain (snd kv)) (JSON.set k v l) = true.
Proof.
  intros Hv. induction l as [|[k' v'] l IH]; cbn [JSON.set forallb snd].
  - intros _. now rewrite Hv.
  - intros H. apply andb_true_iff in H as [H1 H2].
    destruct (String.eqb k k'); cbn [forallb snd]; [now rewrite Hv, H2|].
    now rewrite H1, (IH H2).
Qed.

Lemma forallb_keys (p : string -> bool) (l : list (string * json)) :
  forallb (fun kv => p (fst kv)) l = forallb p (map fst l).
Proof. induction l as [|kv l IH]; [reflexivity|]. cbn [forallb map]. now rewrite IH. Qed.

Lemma set_plain (k : string) (v : json) (l : list (string * json)) :
  has_key k l = true -> plain v = true -> plain (JObj l) = true ->
  plain (JObj (JSON.set k v l)) = true.
Proof.
  intros Hk Hv. cbn [plain]. intros H.
  apply andb_true_iff in H as [H H3]. apply andb_true_iff in H as [H1 H2].
  rewrite (set_values_plain k v l Hv H1).
  rewrite (forallb_keys plain_key) in H3 |- *.
  now rewrite (set_keys k v l Hk), H2, H3.
Qed.

Lemma get_set (k : string) (v : json) (l : list (string * json)) :
  JSON.get k (JSON.set k v l) = Some v.
Proof.
  induction l as [|[k' v'] l IH]; cbn [JSON.set JSON.get].
  - now rewrite String.eqb_refl.
  - destruct (String.eqb k k') eqn:Hk; cbn [JSON.get].
    + now rewrite String.eqb_refl.
    + now rewrite Hk.
Qed.

Lemma get_app_present (k : string) (a b : list (string * json)) (v : json) :
  JSON.get k a = Some v -> JSON.get k (a ++ b) = Some v.
Proof.
  induction a as [|[k' v'] a IH]; [discriminate|].
  cbn [app JSON.get]. destruct (String.eqb k k'); [trivial | exact IH].
Qed.

Lemma without_set (k1 k2 : string) (v : json) (l : list (string * json)) :
  has_key k2 l = true ->
  without k1 k2 (JSON.set k2 v l) = without k1 k2 l.
Proof.
  induction l as [|[k' v'] l IH]; [discriminate|].
  unfold has_key. cbn [existsb fst JSON.set].
  destruct (String.eqb_spec k2 k') as [<-|Hne].
  - intros _. unfold without. cbn [List.filter fst].
    now rewrite String.eqb_refl, orb_true_r.
  - rewrite String.eqb_sym. destruct (String.eqb_spec k2 k') as [|_]; [contradiction|].
    cbn [orb]. intros H. unfold without in *. cbn [List.filter fst].
    now rewrite (IH H).
Qed.

Lemma has_key_keys (k : string) (a b : list (string * json)) :
  map fst a = map fst b -> has_key k a = has_key k b.
Proof. intros H. now rewrite <- !has_key_existsb, H. Qed.

Lemma set_plain_any (k : string) (v : json) (l : list (string * json)) :
  plain_key k = true -> plain v = true -> plain (JObj l) = true ->
  plain (JObj (JSON.set k v l)) = true.
Proof.
  intros Hk Hv Hl. destruct (has_key k l) eqn:Hhas; [now apply set_plain|].
  rewrite set_fresh by now rewrite has_key_existsb.
  apply plain_fields_app; [exact Hl | |].
  - cbn [plain forallb map distinct_keys existsb fst snd]. now rewrite Hv, Hk.
  - intros k' Hin [<-|[]]. now apply (proj1 (has_key_In _ _) Hhas).
Qed.

(** The object [appendEntry] writes for a plain entry is plain. *)
Lemma ledger_line_plain (sha256 : string -> string)
    (entry : list (string * json)) (now : Z) :
  text_digests sha256 -> plain (JObj entry) = true ->
  plain (JObj (ledger_line sha256 entry (JS.toISOString now))) = true.
Proof.
  intros Hdigests Hplain. unfold ledger_line.
  apply set_plain_any; [reflexivity | apply Hdigests |].
  apply set_plain_any; [reflexivity | apply toISOString_text | exact Hplain].
Qed.

Lemma plain_entry_plain (entry : list (string * json)) :
  plain_entry entry = true -> plain (JObj entry) = true.
Proof. intros H. now destruct (plain_entry_spec _ H). Qed.

Lemma holds_snoc (fs : FileSystem) (vs : list json) (v : json) :
  holds fs vs -> plain v = true -> is_object v = true ->
  holds (mkFileSystem (text fs +++ JSON.stringify v +++ String JS.nl "") (failing fs))
        (vs ++ [v]).
Proof.
  intros (Hfail & Htext & Hall) Hplain Hobj. repeat split.
  - exact Hfail.
  - cbn [text]. rewrite map_app, lines_text_app, Htext. reflexivity.
  - apply Forall_app. split; [exact Hall|]. now repeat constructor.
Qed.

Lemma appendEntry_holds (sha256 : string -> string) (fs : FileSystem) (vs : list json)
    (entry : list (string * json)) (now : Z) :
  text_digests sha256 -> holds fs vs -> plain (JObj entry) = true ->
  fst (appendEntry sha256 true entry now fs) = Some (written sha256 (entry, now))
  /\ holds (snd (appendEntry sha256 true entry now fs)) (vs ++ [written sha256 (entry, now)]).
Proof.
  intros Hdigests Hfs Hen. pose proof Hfs as (Hfail & _ & _).
  unfold appendEntry, appendFile. cbn [negb]. rewrite Hfail. cbn [fst snd].
  split; [reflexivity|].
  pose proof (holds_snoc fs vs (written sha256 (entry, now)) Hfs
                (ledger_line_plain sha256 entry now Hdigests Hen) eq_refl) as Hnext.
  rewrite Hfail in Hnext. exact Hnext.
Qed.

Lemma append_all_holds (sha256 : string -> string)
    (es : list (list (string * json) * Z)) (fs : FileSystem) (vs : list json) :
  text_digests sha256 -> holds fs vs ->
  Forall (fun en => plain (JObj (fst en)) = true) es ->
  holds (append_all sha256 true es fs) (vs ++ map (written sha256) es).
Proof.
  intros Hdigests Hfs Hall. revert fs vs Hfs.
  induction Hall as [|[entry now] r Hen Hr IH]; intros fs vs Hfs.
  - cbn [append_all map]. now rewrite app_nil_r.
  - cbn [append_all map]. cbn [fst] in Hen.
    destruct (appendEntry_holds sha256 fs vs entry now Hdigests Hfs Hen) as [_ Hnext].
    specialize (IH _ _ Hnext). now rewrite <- app_assoc in IH.
Qed.

Lemma plain_entries_plain (es : list (list (string * json) * Z)) :
  Forall (fun en => plain_entry (fst en) = true) es ->
  Forall (fun en => plain (JObj (fst en)) = true) es.
Proof.
  apply List.Forall_impl. intros en. apply plain_entry_plain.
Qed.

(** *** [verifyIntegrity] *)

Lemma check_entries_app (sha256 : string -> string) (a b : list json) :
  check_entries sha256 (a ++ b)
  = match check_entries sha256 a with
    | Ok true => check_entries sha256 b
    | other => other
    end.
Proof.
  induction a as [|e a IH]; [reflexivity|].
  cbn [app check_entries]. destruct (destructure e) as [[[h t] d]|err]; [|reflexivity].
  cbn. destruct (strict_eq h _); [exact IH | reflexivity].
Qed.

Lemma get_app_fresh (k : string) (a b : list (string * json)) :
  has_key k a = false -> JSON.get k (a ++ b) = JSON.get k b.
Proof.
  induction a as [|[k' v] a IH]; [reflexivity|].
  unfold has_key. cbn [existsb fst app JSON.get]. intros H.
  apply orb_false_iff in H as [Hk Ha]. rewrite String.eqb_sym, Hk. now apply IH.
Qed.

Lemma without_fresh (k1 k2 : string) (a : list (string * json)) :
  has_key k1 a = false -> has_key k2 a = false -> without k1 k2 a = a.
Proof.
  intros H1 H2. unfold without. apply filter_Forall_true.
  induction a as [|[k v] a IH]; [constructor|].
  unfold has_key in H1, H2. cbn [existsb fst] in H1, H2.
  apply orb_false_iff in H1 as [Hk1 Ha1]. apply orb_false_iff in H2 as [Hk2 Ha2].
  constructor; [cbn [fst]; now rewrite Hk1, Hk2 | now apply IH].
Qed.

Lemma without_app (k1 k2 : string) (a b : list (string * json)) :
  without k1 k2 (a ++ b) = without k1 k2 a ++ without k1 k2 b.
Proof. apply List.filter_app. Qed.

Lemma destructure_written (entry : list (string * json)) (t h : json) :
  has_key "timestamp" entry = false -> has_key "entryHash" entry = false ->
  destructure (JObj (entry ++ [("timestamp", t); ("entryHash", h)]))
  = Ok (Some h, Some t, entry).
Proof.
  intros Hts Hh. unfold destructure.
  rewrite (get_app_fresh "entryHash") by exact Hh.
  rewrite (get_app_fresh "timestamp") by exact Hts.
  rewrite without_app, without_fresh by assumption.
  change (without "entryHash" "timestamp" [("timestamp", t); ("entryHash", h)])
    with (@nil (string * json)).
  rewrite app_nil_r. reflexivity.
Qed.

Lemma check_written (sha256 : string -> string) (en : list (string * json) * Z) :
  plain_entry (fst en) = true -> check_entries sha256 [written sha256 en] = Ok true.
Proof.
  intros Hen. destruct (plain_entry_spec _ Hen) as (_ & Hts & Hh).
  unfold written. rewrite ledger_line_fresh by assumption.
  cbn [check_entries]. rewrite destructure_written by assumption.
  cbv beta iota delta [bind]. cbn [to_string_opt to_string strict_eq].
  now rewrite String.eqb_refl.
Qed.

Lemma check_all_written (sha256 : string -> string)
    (es : list (list (string * json) * Z)) :
  Forall (fun en => plain_entry (fst en) = true) es ->
  check_entries sha256 (map (written sha256) es) = Ok true.
Proof.
  induction 1 as [|en r Hen Hr IH]; [reflexivity|].
  change (map (written sha256) (en :: r)) with ([written sha256 en] ++ map (written sha256) r).
  now rewrite check_entries_app, check_written.
Qed.

(* ===================================================================== *)
(** ** Further properties of the JSON-lines ledger *)

Lemma holds_clean : holds LogScenario.clean_fs [].
Proof. repeat split. constructor. Qed.

Lemma two_appends_plain :
  Forall (fun en => plain_entry (fst en) = true) LogScenario.two_appends.
Proof. repeat constructor. Qed.

(** X10.  What is appended is read back.  Let the digests be texts, let the
    ledger file hold plain objects, one on a line, and let the file system
    answer.  After a run of [appendEntry] calls with plain entries that
    carry no [timestamp] and no [entryHash] of their own, [getEntries()]
    returns the entries the file held, in their order, followed by the
    entry each call wrote, in the order of the calls: the caller's fields,
    then [timestamp], then [entryHash]. *)
Theorem appended_entries_read_back (sha256 : string -> string)
    (fs : FileSystem) (held : list json) (calls : list (list (string * json) * Z)) :
  text_digests sha256 ->
  holds fs held ->
  Forall (fun en => plain_entry (fst en) = true) calls ->
  getEntries true no_filter (append_all sha256 true calls fs)
  = held ++ map (written sha256) calls
  /\ forall en, In en calls ->
       written sha256 en
       = JObj (fst en ++
               [("timestamp", JStr (JS.toISOString (snd en)));
                ("entryHash",
                 JStr (sha256 (JSON.stringify (JObj (fst en))
                               +++ JS.toISOString (snd en))))]).
Proof.
  intros Hdigests Hfs Hcalls. split.
  - apply getEntries_holds_all.
    apply append_all_holds; [exact Hdigests | exact Hfs | now apply plain_entries_plain].
  - intros en Hin. unfold written.
    destruct (plain_entry_spec (fst en)) as (_ & Hts & Hh).
    { now apply (proj1 (List.Forall_forall _ _) Hcalls). }
    now rewrite ledger_line_fresh.
Qed.

Lemma appended_entries_read_back_witness :
  getEntries true no_filter
    (append_all Crypto.sha256_hex true LogScenario.two_appends LogScenario.clean_fs)
  = map (written Crypto.sha256_hex) LogScenario.two_appends.
Proof.
  exact (proj1 (appended_entries_read_back Crypto.sha256_hex LogScenario.clean_fs []
                  LogScenario.two_appends sha256_hex_text holds_clean two_appends_plain)).
Defined.

(** X11.  The filter of [getEntries].  On a ledger file of plain objects the
    three passes of [getEntries(filter)] return, in the order of the file,
    the entries that pass every test the filter states: [poemId],
    [authorId] and [eventType] are compared with [===] against a string,
    and a test whose filter value is absent or the empty string is
    skipped. *)
Theorem getEntries_filter_selects (fs : FileSystem) (held : list json) (f : Filter) :
  holds fs held ->
  getEntries true f fs = List.filter (selected f) held.
Proof. apply getEntries_holds. Qed.

Lemma getEntries_filter_selects_witness :
  getEntries true (mkFilter (Some "p1") (Some "") None)
    (append_all Crypto.sha256_hex true LogScenario.two_appends LogScenario.clean_fs)
  = List.filter (selected (mkFilter (Some "p1") (Some "") None))
      ([] ++ map (written Crypto.sha256_hex) LogScenario.two_appends).
Proof.
  apply (getEntries_filter_selects _ _ _
           (append_all_holds Crypto.sha256_hex LogScenario.two_appends
              LogScenario.clean_fs [] sha256_hex_text holds_clean
              (plain_entries_plain _ two_appends_plain))).
Defined.

Lemma verifyIntegrity_holds (sha256 : string -> string) (fs : FileSystem) (vs : list json) :
  holds fs vs ->
  verifyIntegrity sha256 true fs
  = match check_entries sha256 vs with
    | Ok verdict => verdict
    | Throw _ => false
    end.
Proof.
  intros Hfs. unfold verifyIntegrity. cbn [negb].
  now rewrite (getEntries_holds_all fs vs Hfs).
Qed.

(** X12.  Appends keep the ledger verifiable.  Let the digests be texts.  If
    the ledger file holds plain objects and [verifyIntegrity()] answers
    true, it still answers true after any run of [appendEntry] calls with
    plain entries that carry no [timestamp] and no [entryHash] of their
    own. *)
Theorem appends_keep_integrity (sha256 : string -> string)
    (fs : FileSystem) (held : list json) (calls : list (list (string * json) * Z)) :
  text_digests sha256 ->
  holds fs held ->
  verifyIntegrity sha256 true fs = true ->
  Forall (fun en => plain_entry (fst en) = true) calls ->
  verifyIntegrity sha256 true (append_all sha256 true calls fs) = true.
Proof.
  intros Hdigests Hfs Hok Hcalls.
  rewrite (verifyIntegrity_holds sha256 fs held Hfs) in Hok.
  rewrite (verifyIntegrity_holds sha256 _ _
             (append_all_holds sha256 calls fs held Hdigests Hfs
                (plain_entries_plain _ Hcalls))).
  rewrite check_entries_app.
  destruct (check_entries sha256 held) as [[|]|err]; try discriminate Hok.
  now rewrite check_all_written.
Qed.

Lemma appends_keep_integrity_witness :
  verifyIntegrity Crypto.sha256_hex true
    (append_all Crypto.sha256_hex true LogScenario.two_appends LogScenario.clean_fs) = true.
Proof.
  apply (appends_keep_integrity Crypto.sha256_hex LogScenario.clean_fs []
           LogScenario.two_appends sha256_hex_text holds_clean eq_refl two_appends_plain).
Defined.

(** *** An entry that brings its own [timestamp] *)

(** X13.  An entry that brings its own [timestamp] spoils the check.  The
    callers of [appendEntry] in the authentication routes pass an entry
    with a [timestamp] field.  [appendEntry] hashes the entry as passed and
    then overwrites that field with its own reading of the clock;
    [verifyIntegrity] hashes the stored entry without its [timestamp].
    Unless the two texts happen to have one digest, the stored [entryHash]
    differs from the recomputed one: after such an append, and after any
    further appends of plain entries, [verifyIntegrity()] answers false,
    whatever the file held before. *)
Theorem own_timestamp_breaks_integrity (sha256 : string -> string)
    (fs : FileSystem) (held : list json) (entry : list (string * json)) (now : Z)
    (later : list (list (string * json) * Z)) :
  text_digests sha256 ->
  holds fs held ->
  plain (JObj entry) = true ->
  has_key "timestamp" entry = true ->
  has_key "entryHash" entry = false ->
  sha256 (JSON.stringify (JObj entry) +++ JS.toISOString now)
  <> sha256 (JSON.stringify (JObj (without "entryHash" "timestamp" entry))
             +++ JS.toISOString now) ->
  Forall (fun en => plain (JObj (fst en)) = true) later ->
  verifyIntegrity sha256 true
    (append_all sha256 true later (snd (appendEntry sha256 true entry now fs)))
  = false.
Proof.
  intros Hdigests Hfs Hplain Hts Hh Hdigest Hlater.
  destruct (appendEntry_holds sha256 fs held entry now Hdigests Hfs Hplain) as [_ Hnext].
  pose proof (append_all_holds sha256 later _ _ Hdigests Hnext Hlater) as Hend.
  rewrite (verifyIntegrity_holds sha256 _ _ Hend).
  assert (Hcheck : check_entries sha256 [written sha256 (entry, now)] = Ok false).
  { unfold written. cbn [fst snd].
    set (ts := JS.toISOString now) in *.
    set (h := sha256 (JSON.stringify (JObj entry) +++ ts)) in *.
    set (stamped := JSON.set "timestamp" (JStr ts) entry).
    assert (Hkeys : map fst stamped = map fst entry) by now apply set_keys.
    assert (Hline : ledger_line sha256 entry ts = stamped ++ [("entryHash", JStr h)]).
    { unfold ledger_line. fold stamped. fold h. apply set_fresh.
      now rewrite has_key_existsb, (has_key_keys _ _ _ Hkeys). }
    rewrite Hline. cbn [check_entries destructure].
    rewrite (get_app_fresh "entryHash")
      by now rewrite (has_key_keys _ _ _ Hkeys).
    rewrite (get_app_present "timestamp" stamped _ (JStr ts)) by apply get_set.
    rewrite without_app. unfold stamped. rewrite without_set by exact Hts.
    change (without "entryHash" "timestamp" [("entryHash", JStr h)])
      with (@nil (string * json)).
    rewrite app_nil_r. cbv beta iota delta [bind].
    cbn [JSON.get to_string_opt to_string strict_eq].
    change (String.eqb "entryHash" "entryHash") with true. cbv iota.
    cbn [strict_eq].
    destruct (String.eqb_spec h
                (sha256 (JSON.stringify (JObj (without "entryHash" "timestamp" entry)) +++ ts)))
      as [Heq|_]; [now destruct Hdigest | reflexivity]. }
  rewrite !check_entries_app, Hcheck.
  now destruct (check_entries sha256 held) as [[|]|err].
Qed.

Lemma own_timestamp_breaks_integrity_witness :
  verifyIntegrity Crypto.sha256_hex true
    (append_all Crypto.sha256_hex true LogScenario.two_appends
       (snd (appendEntry Crypto.sha256_hex true LogScenario.login 1700000002000
               LogScenario.clean_fs))) = false.
Proof.
  apply (own_timestamp_breaks_integrity Crypto.sha256_hex LogScenario.clean_fs []
           LogScenario.login 1700000002000 LogScenario.two_appends
           sha256_hex_text holds_clean eq_refl eq_refl eq_refl).
  - vm_compute. discriminate.
  - exact (plain_entries_plain _ two_appends_plain).
Defined.

(** X14.  A ledger that cannot be read passes the check.  When the read of
    the file fails, or one of its lines is not valid JSON, [getEntries()]
    returns no entry, the loop of [verifyIntegrity] has nothing to compare,
    and [verifyIntegrity()] of a ready ledger answers true. *)
Theorem unreadable_ledger_verifies (sha256 : string -> string) (fs : FileSystem) :
  (failing fs = true
   \/ exists line e, In line (nonempty_lines (text fs)) /\ JSON.parse line = Throw e) ->
  getEntries true no_filter fs = []
  /\ verifyIntegrity sha256 true fs = true.
Proof.
  intros Hbad.
  assert (Hnone : getEntries true no_filter fs = []).
  { destruct Hbad as [Hfail|(line & e & Hin & Hparse)].
    - unfold getEntries, read_entries, readFile. now rewrite Hfail.
    - exact (getEntries_malformed_line true no_filter fs line e Hin Hparse). }
  split; [exact Hnone|].
  unfold verifyIntegrity. cbn [negb]. now rewrite Hnone.
Qed.

Lemma unreadable_ledger_verifies_witness :
  getEntries true no_filter Scenario.truncated_file = []
  /\ verifyIntegrity Crypto.sha256_hex true Scenario.truncated_file = true.
Proof.
  apply (unreadable_ledger_verifies Crypto.sha256_hex Scenario.truncated_file).
  right. exists Scenario.truncated_line, SyntaxError.
  split; [vm_compute; right; left; reflexivity | vm_compute; reflexivity].
Defined.
